(** * One-Time-Pad: the encryption daemon [otp_enc_d.c], the decryption
      client [otp_dec.c] and the key generator [keygen.c], embedded in Rocq.

    C values are modelled as the code has them:
    - an [int] is a [Z]: the sums of [encrypt] are sums of two [char]s, the
      counters of the transfer loop stay between 0 and [len] (see
      [sendrecv_loop_bounds]), a length field has nine digits at most and
      [atoi] has a result only for a numeral that an [int] can hold (see
      [as_int]), so that no [int] of the modelled runs leaves its range but
      the count of [scanfile] on a file without a newline, which is a loop
      that does not end;
    - a [char] is a [Z] too, [to_char] being the conversion of an [int] to
      an 8-bit signed [char];
    - a [char*] buffer is a [list Z]; reading or writing outside it is
      undefined behaviour in C: [None] for a function on buffers, the
      outcome [Undef] for a process;
    - the operator [%] of C truncates towards zero: [Z.rem].

    A process ends by returning, by [exit], or inside a call of [send]
    that raises SIGPIPE (the outcome [Killed]): the programs pass the flags
    0 to [send] and leave the signal at its default action. *)

From Stdlib Require Import ZArith Lia List Bool Ascii String DecimalString.
From Stdlib Require DecimalFacts DecimalPos.
From stdpp Require Import base list.
Import ListNotations.

Local Open Scope Z_scope.

(** ** Buffers *)

Module Buf.

Abbreviation t := (list Z).

Definition in_bounds (b : t) (i : Z) : bool :=
  (0 <=? i) && (i <? Z.of_nat (length b)).

(** [b[i]] *)
Definition load (b : t) (i : Z) : option Z :=
  if in_bounds b i then b !! Z.to_nat i else None.

(** [b[i] = v] *)
Definition store (b : t) (i : Z) (v : Z) : option t :=
  if in_bounds b i then Some (<[Z.to_nat i := v]> b) else None.

(** [memset(b, v, n)] *)
Definition memset (b : t) (v : Z) (n : Z) : option t :=
  if (0 <=? n) && (n <=? Z.of_nat (length b))
  then Some (replicate (Z.to_nat n) v ++ drop (Z.to_nat n) b)
  else None.

(** [memcpy(b + off, src, |src|)] *)
Definition blit (b : t) (off : Z) (src : list Z) : option t :=
  if (0 <=? off) && (off + Z.of_nat (length src) <=? Z.of_nat (length b))
  then Some (take (Z.to_nat off) b ++ src ++
             drop (Z.to_nat off + length src) b)
  else None.

(** The bytes [b[off .. off+n)] *)
Definition slice (b : t) (off n : Z) : option (list Z) :=
  if (0 <=? off) && (0 <=? n) && (off + n <=? Z.of_nat (length b))
  then Some (take (Z.to_nat n) (drop (Z.to_nat off) b))
  else None.

(** The C string held by [b]: the characters before the first NUL, or
    [None] when the buffer holds no NUL (reading on is undefined). *)
Fixpoint cstr (b : t) : option (list Z) :=
  match b with
  | [] => None
  | c :: b' => if c =? 0 then Some [] else option_map (cons c) (cstr b')
  end.

End Buf.

(** The characters of a string literal, as [char] values. *)
Definition chars (s : string) : list Z :=
  map (fun a => Z.of_nat (nat_of_ascii a)) (list_ascii_of_string s).

(** A string literal as the array C stores: its characters and a NUL. *)
Definition literal (s : string) : list Z := chars s ++ [0].

(** [(char) z] for a signed 8-bit [char]. *)
Definition to_char (z : Z) : Z := (z + 128) mod 256 - 128.

(** ** The option monad, for code whose only effect is undefined behaviour *)

Declare Scope opt_scope.
Delimit Scope opt_scope with opt.

Definition obind {A B : Type} (m : option A) (k : A -> option B) : option B :=
  match m with
  | Some a => k a
  | None => None
  end.

Notation "'do' x <- m ; k" := (obind m (fun x => k))
  (at level 10, x name, m at level 100, k at level 200) : opt_scope.

(** ** [encrypt] (otp_enc_d.c) *)

Section Encrypt.

Local Open Scope opt_scope.

(** One round of the [for] loop of [encrypt], at index [i]. *)
Definition encrypt_step (i : Z) (plain key cipher : Buf.t)
  : option (Buf.t * Buf.t * Buf.t) :=
  (* Convert spaces *)
  do p0 <- Buf.load plain i;
  do plain <- (if p0 =? 32 then Buf.store plain i 64 else Some plain);
  do k0 <- Buf.load key i;
  do key <- (if k0 =? 32 then Buf.store key i 64 else Some key);
  (* Get converted characters *)
  do cPlain <- Buf.load plain i;
  do cKey <- Buf.load key i;
  (* Reduce to 0-26 range *)
  let cPlain := cPlain - 64 in
  let cKey := cKey - 64 in
  (* OTP encryption formula *)
  let cCipher := Z.rem (cPlain + cKey) 27 in
  (* Convert back and append *)
  do cipher <- Buf.store cipher i (to_char (cCipher + 64));
  (* Check for space re-conversion *)
  do c0 <- Buf.load cipher i;
  do cipher <- (if c0 =? 64 then Buf.store cipher i 32 else Some cipher);
  Some (plain, key, cipher).

(** [for (i = ...; i < len; i++)], with [n] rounds left. *)
Fixpoint encrypt_loop (n : nat) (i : Z) (plain key cipher : Buf.t)
  : option (Buf.t * Buf.t * Buf.t) :=
  match n with
  | O => Some (plain, key, cipher)
  | S n' =>
      do st <- encrypt_step i plain key cipher;
      let '(plain, key, cipher) := st in
      encrypt_loop n' (i + 1) plain key cipher
  end.

(** [void encrypt(char* plain, char* key, char* cipher, int len)]: the
    three buffers are distinct arrays, as they are at the call in [main];
    the result is their contents when the function returns. *)
Definition encrypt (plain key cipher : Buf.t) (len : Z)
  : option (Buf.t * Buf.t * Buf.t) :=
  do cipher <- Buf.memset cipher 0 (len + 1);
  encrypt_loop (Z.to_nat len) 0 plain key cipher.

End Encrypt.

(** What one round computes from the characters [t] and [k]. *)
Definition despace (c : Z) : Z := if c =? 32 then 64 else c.

Definition enc_char (t k : Z) : Z :=
  let c := to_char (Z.rem ((despace t - 64) + (despace k - 64)) 27 + 64) in
  if c =? 64 then 32 else c.

(** The alphabet. *)
Definition in_sigma (c : Z) : Prop := c = 32 \/ 65 <= c <= 90.

Definition sigma : list Z :=
  [65; 66; 67; 68; 69; 70; 71; 72; 73; 74; 75; 76; 77; 78; 79; 80; 81; 82;
   83; 84; 85; 86; 87; 88; 89; 90; 32].

(** The numbering of the alphabet that the code works in: the space stands
    for ['@'], the character before ['A'], so space is 0 and ['A'..'Z'] are
    1..26 ([MIN_CHAR] 64 of keygen.c is the same numbering). *)
Definition code_index (c : Z) : Z := if c =? 32 then 0 else c - 64.
Definition code_symbol (n : Z) : Z := if n =? 0 then 32 else n + 64.

(** The numbering of the specification's data model: ['A'..'Z'] are 0..25
    and the space is 26. *)
Definition spec_index (c : Z) : Z := if c =? 32 then 26 else c - 65.
Definition spec_symbol (n : Z) : Z := if n =? 26 then 32 else n + 65.

(** The transform of the specification, ENCRYPT direction: position by
    position [symbol ((index t + index k) mod 27)], for a numbering given
    by [index] and [symbol]. *)
Definition transform_with (index : Z -> Z) (symbol : Z -> Z)
    (text key : list Z) : list Z :=
  zip_with (fun t k => symbol ((index t + index k) mod 27)) text key.

(** The ciphertext [encrypt] leaves in a fresh buffer for a text and a key
    given as strings. *)
Definition encrypt_string (text key : string) : option (list Z) :=
  let n := Z.of_nat (length (chars text)) in
  match encrypt (literal text) (literal key) (replicate (Z.to_nat (n + 1)) 0) n with
  | Some (_, _, cipher) => Buf.cstr cipher
  | None => None
  end.

(** The single-symbol map of the permutation law: the first character of
    the ciphertext of the one-character text [p] under the key [k]. *)
Definition encrypt_symbol (p k : Z) : option Z :=
  match encrypt [p; 0] [k; 0] [0; 0] 1 with
  | Some (_, _, cipher) => Buf.load cipher 0
  | None => None
  end.

(** ** Text *)

(** The newline character, and [%d]. *)
Definition nl : string := String (ascii_of_nat 10) EmptyString.
Definition dec (z : Z) : string := NilZero.string_of_int (Z.to_int z).

(** The text that [%s] prints for a list of [char]s. *)
Definition text_of_chars (cs : list Z) : string :=
  string_of_list_ascii (map (fun c => ascii_of_nat (Z.to_nat (c mod 256))) cs).

(** [strcmp(b, s) == 0] for a string literal [s]. *)
Definition strcmp_eq (b : Buf.t) (s : string) : option bool :=
  option_map (fun cs => bool_decide (cs = chars s)) (Buf.cstr b).

(** [strcpy(b, s)] for a string literal [s]. *)
Definition strcpy (b : Buf.t) (s : string) : option Buf.t :=
  Buf.blit b 0 (literal s).

(** The numeral that [atoi] reads: white space, an optional sign, then
    decimal digits. [atoi_chars] is the value of that numeral, a number
    of any size; [atoi] below is the call. *)
Definition isspace (c : Z) : bool :=
  (c =? 32) || ((9 <=? c) && (c <=? 13)).

Definition isdigit (c : Z) : bool := (48 <=? c) && (c <=? 57).

Fixpoint atoi_digits (acc : Z) (s : list Z) : Z :=
  match s with
  | c :: s' => if isdigit c then atoi_digits (10 * acc + (c - 48)) s' else acc
  | [] => acc
  end.

Fixpoint atoi_chars (s : list Z) : Z :=
  match s with
  | c :: s' =>
      if isspace c then atoi_chars s'
      else if c =? 45 then - atoi_digits 0 s'
      else if c =? 43 then atoi_digits 0 s'
      else atoi_digits 0 s
  | [] => 0
  end.

(** The range of [int] (32 bits). *)
Definition INT_MIN : Z := -2147483648.
Definition INT_MAX : Z := 2147483647.

(** What [atoi] returns for a numeral of the value [v]: the value, when an
    [int] can hold it. For a numeral outside the range of [int] the
    behaviour of [atoi] is undefined (C11 7.22.1): no result is given. *)
Definition as_int (v : Z) : option Z :=
  if (INT_MIN <=? v) && (v <=? INT_MAX) then Some v else None.

(** [atoi(b)] for a buffer, and [atoi(argv[i])] for an argument of the
    command line. *)
Definition atoi (b : Buf.t) : option Z :=
  match Buf.cstr b with
  | Some s => as_int (atoi_chars s)
  | None => None
  end.

Definition atoi_arg (s : string) : option Z := as_int (atoi_chars (chars s)).

(** ** The process and the world around it *)

(** What a process does that can be seen from outside. *)
Inductive event : Type :=
| EvStderr (msg : string)      (* fprintf(stderr, ...) *)
| EvStdout (msg : string)      (* printf(...) *)
| EvSocket                     (* socket() *)
| EvConnect                    (* connect() *)
| EvSend (bs : list Z)         (* a send() that moved the bytes bs *)
| EvSendErr                    (* a send() that returned -1 *)
| EvSigpipe                    (* a send() that raised SIGPIPE *)
| EvRecv (bs : list Z)         (* a recv() that stored the bytes bs *)
| EvRecvErr                    (* a recv() that returned -1 *)
| EvClose (fd : Z).            (* close(fd) *)

(** How a run ends, or does not. *)
Inductive outcome (A : Type) : Type :=
| Ok (a : A)        (* the code returned a *)
| Exit (code : Z)   (* exit(code) *)
| Spin              (* a loop was still running when the fuel ran out *)
| Undef             (* undefined behaviour: an access outside an array, ... *)
| Killed.           (* the process was ended by the signal SIGPIPE *)

Arguments Ok {A} a.
Arguments Exit {A} code.
Arguments Spin {A}.
Arguments Undef {A}.
Arguments Killed {A}.

(** What a call of [send] does. It takes [k] bytes and returns [k], or it
    returns -1, or, on a connection that the peer has closed or reset, it
    raises SIGPIPE: the programs call [send] with the flags 0 and leave the
    signal at its default action, which ends the process inside the call. *)
Inductive send_result : Type :=
| Moved (k : nat)
| Failed
| Sigpipe.

(** The connected socket, seen from the process: what a [send] does, and
    what a [recv] returns, -1 ([None]) or the bytes moved, which it also
    stores. The process has one connected socket, so the descriptor is left
    out. *)
Class Socket (conn : Type) : Type := {
  (* send(sockFD, bs, |bs|, 0) *)
  sys_send : conn -> list Z -> send_result * conn;
  (* recv(sockFD, _, rem, 0) *)
  sys_recv : conn -> Z -> option (list Z) * conn
}.

(** What the system guarantees of the two calls: no more bytes are moved
    than were asked for. *)
Class SocketLaws (conn : Type) `{Socket conn} : Prop := {
  sys_send_le : forall c bs k c',
    sys_send c bs = (Moved k, c') -> (k <= length bs)%nat;
  sys_recv_le : forall c rem bs c',
    0 < rem -> sys_recv c rem = (Some bs, c') -> Z.of_nat (length bs) <= rem
}.

(** A connection that keeps taking what is sent: in every state that
    [Inv] holds of, a [send] of at least one byte moves at least one and
    leads to such a state again. *)
Definition send_goes_on {conn : Type} `{Socket conn} (Inv : conn -> Prop)
  : Prop :=
  forall (c : conn) (bs : list Z), Inv c -> bs <> [] ->
    exists (k : nat) (c' : conn),
      sys_send c bs = (Moved k, c') /\ (1 <= k <= length bs)%nat /\ Inv c'.

(** The files, the command line and the answers of the system calls that
    the client makes before it has a connection. *)
Record env : Type := Env {
  argv : list string;
  files : string -> option string;     (* fopen(name, "r") and the contents *)
  host_known : bool;                   (* gethostbyname("localhost") != NULL *)
  socket_fd : Z;                       (* what socket() returns *)
  connect_res : Z                      (* what connect() returns *)
}.

Declare Scope proc_scope.
Delimit Scope proc_scope with proc.

Section Process.

Context {conn : Type}.

Record world : Type := World { net : conn; trace : list event }.

Definition M (A : Type) : Type := world -> outcome A * world.

Definition ret {A : Type} (a : A) : M A := fun w => (Ok a, w).

Definition bind {A B : Type} (m : M A) (k : A -> M B) : M B :=
  fun w =>
    match m w with
    | (Ok a, w') => k a w'
    | (Exit c, w') => (Exit c, w')
    | (Spin, w') => (Spin, w')
    | (Undef, w') => (Undef, w')
    | (Killed, w') => (Killed, w')
    end.

Definition emit (e : event) : M unit :=
  fun w => (Ok tt, World (net w) (trace w ++ [e])).

Definition exit {A : Type} (code : Z) : M A := fun w => (Exit code, w).

Definition spin {A : Type} : M A := fun w => (Spin, w).

(** Code that is undefined where [o] is [None]. *)
Definition defined {A : Type} (o : option A) : M A :=
  fun w => match o with Some a => (Ok a, w) | None => (Undef, w) end.

Definition stderr (msg : string) : M unit := emit (EvStderr msg).
Definition stdout (msg : string) : M unit := emit (EvStdout msg).
Definition close (fd : Z) : M unit := emit (EvClose fd).

(** [if (b) { m }] *)
Definition when (b : bool) (m : M unit) : M unit := if b then m else ret tt.

(** [char a[n]]: an array of [n] characters. The arrays of the two
    programs are all cleared or filled before they are read, so that what
    a fresh array holds is never seen; here it holds zeros. An array of
    variable length must have a positive length. *)
Definition alloc (n : Z) : M Buf.t :=
  defined (if 0 <? n then Some (replicate (Z.to_nat n) 0) else None).

End Process.

Arguments world conn : clear implicits.
Arguments M conn A : clear implicits.

(** A computation that never calls [exit]. *)
Definition no_exit {conn A : Type} (m : M conn A) : Prop :=
  forall w c w', m w <> (Exit c, w').

Notation "x <- m ;; k" := (bind m (fun x => k))
  (at level 100, m at next level, k at level 200, right associativity)
  : proc_scope.
Notation "m ;; k" := (bind m (fun _ => k))
  (at level 100, k at level 200, right associativity) : proc_scope.

(** The constants of the protocol. *)
Definition ID_LEN : Z := 7.
Definition AUTH_LEN : Z := 4.
Definition BUF_LEN : Z := 9.

Section Sendrecv.

Context {conn : Type} `{Socket conn}.
Local Open Scope proc_scope.

(** [n = send(sockFD, str+total, rem, 0)] *)
Definition sock_send (str : Buf.t) (total rem : Z) : M conn Z :=
  bs <- defined (Buf.slice str total rem) ;;
  fun w =>
    match sys_send (net w) bs with
    | (Failed, c) => (Ok (-1), World c (trace w ++ [EvSendErr]))
    | (Moved k, c) =>
        (Ok (Z.of_nat k), World c (trace w ++ [EvSend (take k bs)]))
    | (Sigpipe, c) => (Killed, World c (trace w ++ [EvSigpipe]))
    end.

(** [n = recv(sockFD, str+total, rem, 0)] *)
Definition sock_recv (str : Buf.t) (total rem : Z) : M conn (Z * Buf.t) :=
  fun w =>
    match sys_recv (net w) rem with
    | (None, c) => (Ok (-1, str), World c (trace w ++ [EvRecvErr]))
    | (Some bs, c) =>
        match Buf.blit str total bs with
        | Some str' =>
            (Ok (Z.of_nat (length bs), str'),
             World c (trace w ++ [EvRecv bs]))
        | None => (Undef, World c (trace w))
        end
    end.

(** [while (total < len) { ... }] of [sendrecv]; a unit of fuel is used
    each time the loop test is reached. *)
Fixpoint sendrecv_loop (fuel : nat) (str : Buf.t) (len total rem : Z)
    (sendMode : bool) : M conn (Z * Buf.t) :=
  match fuel with
  | O => spin
  | S fuel' =>
      if total <? len then
        r <- (if sendMode
              then n <- sock_send str total rem ;; ret (n, str)
              else sock_recv str total rem) ;;
        let '(n, str) := r in
        if n =? -1 then ret (total, str)
        else sendrecv_loop fuel' str len (total + n) (rem - n) sendMode
      else ret (total, str)
  end.

(** [int sendrecv(int sockFD, char* str, int len, bool sendMode)], the
    same function in otp_enc_d.c and in otp_dec.c. The result is the value
    returned and the buffer as the call leaves it. *)
Definition sendrecv (fuel : nat) (str : Buf.t) (len : Z) (sendMode : bool)
  : M conn (Z * Buf.t) :=
  str <- (if negb sendMode then defined (Buf.memset str 0 (len + 1))
          else ret str) ;;
  sendrecv_loop fuel str len 0 len sendMode.

(** The idiom around every call of [sendrecv] in both programs:
    [if ((chars = sendrecv(..., str, len, mode)) != len)
       { fprintf(stderr, msg, chars, port); }] *)
Definition checked_sendrecv (fuel : nat) (str : Buf.t) (len : Z)
    (sendMode : bool) (msg : Z -> string) : M conn Buf.t :=
  r <- sendrecv fuel str len sendMode ;;
  let '(chars, str) := r in
  when (negb (chars =? len)) (stderr (msg chars)) ;;
  ret str.

End Sendrecv.

(** ** The client: otp_dec.c *)

(** [fgetc]: the next character of the file as a value 0..255, or [EOF]. *)
Definition fgetc (fd : list ascii) : Z * list ascii :=
  match fd with
  | [] => (-1, [])
  | a :: fd' => (Z.of_nat (nat_of_ascii a), fd')
  end.

(** The characters [fgets(str, n, fd)] stores before the NUL, [m] being
    [n - 1]: at most [m] of them, up to and with the first newline. *)
Fixpoint fgets_chars (m : nat) (fd : list ascii) : list Z :=
  match m, fd with
  | S m', a :: fd' =>
      let c := to_char (Z.of_nat (nat_of_ascii a)) in
      if c =? 10 then [c] else c :: fgets_chars m' fd'
  | _, _ => []
  end.

(** [fgets(str, n, fd)] on a file just opened: nothing is stored when
    [n <= 0] or when the file is empty. *)
Definition fgets (str : Buf.t) (n : Z) (fd : list ascii) : option Buf.t :=
  if n <=? 0 then Some str
  else match fd with
       | [] => Some str
       | _ => Buf.blit str 0 (fgets_chars (Z.to_nat (n - 1)) fd ++ [0])
       end.

Section Client.

Context {conn : Type} `{Socket conn}.
Local Open Scope proc_scope.
Local Open Scope string_scope.
Local Open Scope Z_scope.

Definition bad_characters (filename : string) : string :=
  "otp_dec: ERROR, '" ++ filename ++ "' contains bad characters" ++ nl.

Definition cannot_open (filename : string) : string :=
  "otp_dec: ERROR, opening file '" ++ filename ++ "'" ++ nl.

(** [while ((c = fgetc(fd)) != '\n') { ... }] of [scanfile]. *)
Fixpoint scanfile_loop (fuel : nat) (filename : string) (fd : list ascii)
    (length : Z) : M conn Z :=
  match fuel with
  | O => spin
  | S fuel' =>
      let '(ch, fd) := fgetc fd in
      let c := to_char ch in
      if negb (c =? 10) then
        if (c =? 32) || ((c >=? 65) || (c <=? 90))
        then scanfile_loop fuel' filename fd (length + 1)
        else stderr (bad_characters filename) ;; exit 1
      else ret length
  end.

(** [int scanfile(char* filename)] *)
Definition scanfile (fuel : nat) (e : env) (filename : string) : M conn Z :=
  match files e filename with
  | None => stderr (cannot_open filename) ;; exit 1
  | Some content =>
      scanfile_loop fuel filename (list_ascii_of_string content) 0
  end.

(** [void readfile(char* filename, char* str, int len)]; the result is
    the buffer [str] as the call leaves it. *)
Definition readfile (e : env) (filename : string) (str : Buf.t) (len : Z)
  : M conn Buf.t :=
  str <- defined (Buf.memset str 0 len) ;;
  match files e filename with
  | None => stderr (cannot_open filename) ;; exit 1
  | Some content => defined (fgets str len (list_ascii_of_string content))
  end.

Definition short_transfer (what : string) (port chars : Z) : string :=
  "otp_dec: ERROR, only " ++ dec chars ++ " chars of " ++ what ++
  " server on port " ++ dec port ++ nl.

Definition not_authenticated (port : Z) : string :=
  "otp_dec: ERROR, could not contact or authenticate with otp_dec_d on port "
  ++ dec port ++ nl.

(** [snprintf(buf, sizeof(buf), "%d", n)] into a cleared [buf] of
    [BUF_LEN + 1] characters. *)
Definition length_field (n : Z) : M conn Buf.t :=
  buf <- alloc (BUF_LEN + 1) ;;
  buf <- defined (Buf.memset buf 0 (BUF_LEN + 1)) ;;
  defined (Buf.blit buf 0
             (take (Z.to_nat BUF_LEN) (chars (dec n)) ++ [0])%list).

(** [main], the [else] branch of the admission test: the frames sent
    once the server has answered "PASS", and the result printed. *)
Definition main_payload (fuel : nat) (port textLen keyLen : Z)
    (ciphertext key : Buf.t) : M conn unit :=
  (* Send the ciphertext file length, up to 9 digits *)
  textLenBuf <- length_field textLen ;;
  _ <- checked_sendrecv fuel textLenBuf BUF_LEN true
         (short_transfer "textLen were sent to" port) ;;
  (* Send ciphertext file contents *)
  _ <- checked_sendrecv fuel ciphertext textLen true
         (short_transfer "ciphertext were sent to" port) ;;
  (* Send key file length *)
  keyLenBuf <- length_field keyLen ;;
  _ <- checked_sendrecv fuel keyLenBuf BUF_LEN true
         (short_transfer "keyLen were sent to" port) ;;
  (* Send the key file contents *)
  _ <- checked_sendrecv fuel key keyLen true
         (short_transfer "key were sent to" port) ;;
  (* Receive decrypted plaintext back *)
  plaintext <- alloc (textLen + 1) ;;
  plaintext <- checked_sendrecv fuel plaintext textLen false
                 (short_transfer "encryption were recevied from" port) ;;
  (* Print decryption result *)
  text <- defined (Buf.cstr plaintext) ;;
  stdout (text_of_chars text ++ nl).

(** [main] from the first [sendrecv] on: the exchange over the connected
    socket [sockFD]. *)
Definition main_exchange (fuel : nat) (port textLen keyLen sockFD : Z)
    (ciphertext key : Buf.t) : M conn Z :=
  let id := literal "otp_dec" in
  (* Send id to server for authorization *)
  _ <- checked_sendrecv fuel id ID_LEN true
         (short_transfer "id were sent to" port) ;;
  (* Receive authorization response from server *)
  auth <- alloc (AUTH_LEN + 1) ;;
  auth <- checked_sendrecv fuel auth AUTH_LEN false
            (short_transfer "auth were received from" port) ;;
  (* Evaluate authorization *)
  pass <- defined (strcmp_eq auth "PASS") ;;
  (if negb pass
   then stderr (not_authenticated port) ;; exit 2
   else main_payload fuel port textLen keyLen ciphertext key) ;;
  close sockFD ;;
  ret 0.

(** [int main(int argc, char *argv[])] of otp_dec.c. *)
Definition main (fuel : nat) (e : env) : M conn Z :=
  let arg (i : nat) : string := nth i (argv e) "" in
  if negb (Nat.eqb (length (argv e)) 4) then
    stderr ("USAGE: " ++ arg 0%nat ++ " <ciphertext> <key> <port>" ++ nl) ;;
    exit 1
  else
  (* Get and validate port number *)
  port <- defined (atoi_arg (arg 3%nat)) ;;
  if (port <? 0) || (port >? 65535) then
    stderr ("otp_dec: ERROR, invalid port " ++ dec port ++ nl) ;; exit 2
  else
  when (port <? 50000)
    (stdout ("otp_dec: WARNING, recommended to use a port number above 50000"
             ++ nl)) ;;
  (* Get the length of the files and validate their contents *)
  textLen <- scanfile fuel e (arg 1%nat) ;;
  if textLen <? 1 then
    stderr ("otp_dec: ERROR, ciphertext file cannot be empty" ++ nl) ;; exit 1
  else
  keyLen <- scanfile fuel e (arg 2%nat) ;;
  if keyLen <? 1 then
    stderr ("otp_dec: ERROR, key file cannot be empty" ++ nl) ;; exit 1
  else
  (* Make sure the key file is longer than the ciphertext file *)
  if keyLen <? textLen then
    stderr ("otp_dec: ERROR, key '" ++ arg 2%nat ++ "' is too short" ++ nl) ;;
    exit 1
  else
  (* Get the contents of the ciphertext file *)
  ciphertext <- alloc (textLen + 1) ;;
  ciphertext <- readfile e (arg 1%nat) ciphertext (textLen + 1) ;;
  (* Get the contents of the key file *)
  key <- alloc (keyLen + 1) ;;
  key <- readfile e (arg 2%nat) key (keyLen + 1) ;;
  (* Get the server host info *)
  if negb (host_known e) then
    stderr ("otp_dec: ERROR, no such host" ++ nl) ;; exit 2
  else
  (* Create and set up the socket *)
  emit EvSocket ;;
  let sockFD := socket_fd e in
  if sockFD <? 0 then
    stderr ("otp_dec: ERROR opening socket" ++ nl) ;; exit 2
  else
  (* Connect socket to address in order to connect to the server *)
  emit EvConnect ;;
  if connect_res e <? 0 then
    stderr ("otp_dec: ERROR connecting" ++ nl) ;; exit 2
  else
  main_exchange fuel port textLen keyLen sockFD ciphertext key.

End Client.

(** ** The daemon: otp_enc_d.c *)

Section Daemon.

Context {conn : Type} `{Socket conn}.
Local Open Scope proc_scope.
Local Open Scope string_scope.
Local Open Scope Z_scope.

Definition only_received (port chars : Z) : string :=
  "otp_enc_d: ERROR, only " ++ dec chars ++
  " chars were received from client on port " ++ dec port ++ nl.

Definition only_sent (port chars : Z) : string :=
  "otp_enc_d: ERROR, only " ++ dec chars ++
  " chars were sent to client on port " ++ dec port ++ nl.

(** The child process of [main], the body of
    [if (strcmp(auth, "PASS") == 0) { ... }]: the frames received from an
    admitted client, the encryption, and the answer. *)
Definition child_payload (fuel : nat) (port : Z) : M conn unit :=
  (* Receive the plaintext file length from the client *)
  textLenBuf <- alloc (BUF_LEN + 1) ;;
  textLenBuf <- checked_sendrecv fuel textLenBuf BUF_LEN false
                  (only_received port) ;;
  textLen <- defined (atoi textLenBuf) ;;
  (* Receive the plaintext file content from the client *)
  plaintext <- alloc (textLen + 1) ;;
  plaintext <- checked_sendrecv fuel plaintext textLen false
                 (only_received port) ;;
  (* Receive the key file length from the client *)
  keyLenBuf <- alloc (BUF_LEN + 1) ;;
  keyLenBuf <- checked_sendrecv fuel keyLenBuf BUF_LEN false
                 (only_received port) ;;
  keyLen <- defined (atoi keyLenBuf) ;;
  (* Receive the key file content from the client *)
  key <- alloc (keyLen + 1) ;;
  key <- checked_sendrecv fuel key keyLen false (only_received port) ;;
  (* Encrypt the plaintext file contents *)
  ciphertext <- alloc (textLen + 1) ;;
  r <- defined (encrypt plaintext key ciphertext textLen) ;;
  let '(_, _, ciphertext) := r in
  (* Send the encrypted ciphertext back to the client *)
  _ <- checked_sendrecv fuel ciphertext textLen true (only_sent port) ;;
  ret tt.

(** The child process of [main] (the branch [pid == 0] after [fork]),
    which serves the connection accepted on [connectedFD]. *)
Definition child (fuel : nat) (port listeningFD connectedFD : Z) : M conn unit :=
  (* Receive authentication from client *)
  id <- alloc (ID_LEN + 1) ;;
  id <- checked_sendrecv fuel id ID_LEN false (only_received port) ;;
  (* Validate authorization *)
  auth <- alloc (AUTH_LEN + 1) ;;
  auth <- defined (Buf.memset auth 0 (AUTH_LEN + 1)) ;;
  known <- defined (strcmp_eq id "otp_enc") ;;
  auth <- defined (strcpy auth (if known then "PASS" else "FAIL")) ;;
  (* Send authorization result back to client *)
  auth <- checked_sendrecv fuel auth AUTH_LEN true (only_sent port) ;;
  (* If authorization was successful, prepare to receive next messags *)
  pass <- defined (strcmp_eq auth "PASS") ;;
  when pass (child_payload fuel port) ;;
  close listeningFD ;;
  close connectedFD ;;
  exit 0.

End Daemon.

(** ** A connection made of bytes *)

(** How the incoming stream ends: the peer closed it ([recv] returns 0 from
    then on) or the connection broke ([recv] returns -1). *)
Inductive ending : Type := Closed | Broken.

(** A connection: the chunks of bytes still to arrive, in order, how the
    stream ends after them, and for each coming [send] what the system will
    do: take [cap] bytes at most ([Moved cap]), fail, or raise SIGPIPE. Past
    the end of that list every [send] takes all it is given. *)
Record wire : Type := Wire {
  inbox : list (list Z);
  inbox_end : ending;
  outbox : list send_result
}.

Definition wire_recv (c : wire) (rem : Z) : option (list Z) * wire :=
  match inbox c with
  | chunk :: rest =>
      let n := Z.to_nat rem in
      if (length chunk <=? n)%nat
      then (Some chunk, Wire rest (inbox_end c) (outbox c))
      else (Some (take n chunk),
            Wire (drop n chunk :: rest) (inbox_end c) (outbox c))
  | [] =>
      match inbox_end c with
      | Closed => (Some [], c)
      | Broken => (None, c)
      end
  end.

Definition wire_send (c : wire) (bs : list Z) : send_result * wire :=
  match outbox c with
  | Moved cap :: rest =>
      (Moved (Nat.min cap (length bs)), Wire (inbox c) (inbox_end c) rest)
  | Failed :: rest => (Failed, Wire (inbox c) (inbox_end c) rest)
  | Sigpipe :: rest => (Sigpipe, Wire (inbox c) (inbox_end c) rest)
  | [] => (Moved (length bs), c)
  end.

#[export] Instance wire_socket : Socket wire := {
  sys_send := wire_send;
  sys_recv := wire_recv
}.

(** The bytes sent in a trace. *)
Definition sent (tr : list event) : list Z :=
  concat (map (fun e => match e with EvSend bs => bs | _ => [] end) tr).

(** A call of [send], a call of [recv], and any call that opens or uses
    a connection. *)
Definition is_send (e : event) : bool :=
  match e with
  | EvSend _ | EvSendErr | EvSigpipe => true
  | _ => false
  end.

Definition is_recv (e : event) : bool :=
  match e with
  | EvRecv _ | EvRecvErr => true
  | _ => false
  end.

Definition is_network (e : event) : bool :=
  match e with
  | EvSocket | EvConnect => true
  | _ => is_send e || is_recv e
  end.

(** A file of one line: the text and a newline. *)
Definition line (s : string) : string := (s ++ nl)%string.

(** What the loop of [scanfile] computes, as a function of the file alone:
    the number of characters before the first newline; at the end of a
    file without a newline [fgetc] answers [EOF] for ever. *)
Fixpoint scan_line (fuel : nat) (fd : list ascii) (count : Z) : option Z :=
  match fuel with
  | O => None
  | S fuel' =>
      match fd with
      | [] => scan_line fuel' [] (count + 1)
      | a :: fd' =>
          if to_char (Z.of_nat (nat_of_ascii a)) =? 10 then Some count
          else scan_line fuel' fd' (count + 1)
      end
  end.

(** Files and a command line to run the client on. *)
Definition example_files (name : string) : option string :=
  if String.eqb name "cipher" then Some (line "DTCXS")
  else if String.eqb name "key" then Some (line "WORLDS")
  else if String.eqb name "lowercase" then Some (line "hello")
  else if String.eqb name "shortkey" then Some (line "AB")
  else None.

Definition example_env (text key : string) : env :=
  Env ["otp_dec"; text; key; "55555"]%string example_files true 3 0.

(** A connection on which the peer's bytes arrive in the chunks given and
    which then breaks, or is closed. *)
Definition broken_after (chunks : list (list Z)) : world wire :=
  World (Wire chunks Broken []) [].

Definition closed_after (chunks : list (list Z)) : world wire :=
  World (Wire chunks Closed []) [].

(** ** Further notions *)

(** The values of a [char]. *)
Definition is_char (c : Z) : Prop := -128 <= c <= 127.

(** What a round of [encrypt] can write: a space or a character from
    ['&'] to ['Z'] other than ['@']. *)
Definition cipher_char (c : Z) : Prop := c = 32 \/ (38 <= c <= 90 /\ c <> 64).

(** The value of a decimal numeral read from the left, as [atoi] reads
    it, [acc] being the value of the digits before it. *)
Fixpoint uint_value (acc : Z) (d : Decimal.uint) : Z :=
  match d with
  | Decimal.Nil => acc
  | Decimal.D0 d => uint_value (10 * acc) d
  | Decimal.D1 d => uint_value (10 * acc + 1) d
  | Decimal.D2 d => uint_value (10 * acc + 2) d
  | Decimal.D3 d => uint_value (10 * acc + 3) d
  | Decimal.D4 d => uint_value (10 * acc + 4) d
  | Decimal.D5 d => uint_value (10 * acc + 5) d
  | Decimal.D6 d => uint_value (10 * acc + 6) d
  | Decimal.D7 d => uint_value (10 * acc + 7) d
  | Decimal.D8 d => uint_value (10 * acc + 8) d
  | Decimal.D9 d => uint_value (10 * acc + 9) d
  end.

(** The buffer that [length_field] fills for the length [n], and the nine
    bytes of it that go on the wire. *)
Definition length_field_buf (n : Z) : Buf.t :=
  let digits := take (Z.to_nat BUF_LEN) (chars (dec n)) in
  digits ++ replicate (10 - length digits) 0.

Definition wire_field (n : Z) : list Z :=
  take (Z.to_nat BUF_LEN) (length_field_buf n).

(** The characters of a file as [fgetc] and [fgets] hand them to a
    [char]. *)
Definition file_chars (s : string) : list Z :=
  map (fun a => to_char (Z.of_nat (nat_of_ascii a))) (list_ascii_of_string s).

(** A text without a newline. *)
Definition one_line (s : string) : Prop :=
  Forall (fun c => c <> 10) (file_chars s).

(** ** keygen.c *)

(** What a run has written to standard output, in order. *)
Fixpoint printed (tr : list event) : string :=
  match tr with
  | EvStdout msg :: tr' => (msg ++ printed tr')%string
  | _ :: tr' => printed tr'
  | [] => EmptyString
  end.

Module Keygen.

Definition MIN_CHAR : Z := 64.
Definition MAX_CHAR : Z := 90.

Section Program.

Context {conn : Type}.
Local Open Scope proc_scope.
Local Open Scope string_scope.
Local Open Scope Z_scope.

(** The values that the calls of [rand()] return, call by call, for the
    seed that [srand(time(0))] has set. *)
Variable rand : nat -> Z.

(** [for (i = 0; i < keylength; i++) { ... }] of [main], from the value
    [i] on; [calls] counts the calls of [rand()] made so far. *)
Fixpoint generate (fuel : nat) (calls : nat) (i keylength : Z) : M conn unit :=
  match fuel with
  | O => spin
  | S fuel' =>
      if i <? keylength then
        let c := to_char (Z.rem (rand calls) (MAX_CHAR - MIN_CHAR + 1)
                          + MIN_CHAR) in
        let c := if c =? 64 then 32 else c in
        stdout (text_of_chars [c]) ;;
        generate fuel' (S calls) (i + 1) keylength
      else ret tt
  end.

(** [int main(int argc, char *argv[])] of keygen.c. *)
Definition main (fuel : nat) (argv : list string) : M conn Z :=
  let arg (i : nat) : string := nth i argv "" in
  if negb (Nat.eqb (length argv) 2) then
    stderr ("USAGE: " ++ arg 0%nat ++ " keylength" ++ nl) ;; exit 1
  else
  keylength <- defined (atoi_arg (arg 1%nat)) ;;
  if keylength <? 1 then
    stderr ("KEYGEN: keylength must be greater than 0" ++ nl) ;; exit 1
  else
  generate fuel 0 0 keylength ;;
  stdout nl ;;
  ret 0.

End Program.

End Keygen.

(** The key that a run of keygen prints for the values [rand] and the
    length [n]: the symbol numbered [rand() % 27] at each position. *)
Definition key_of (rand : nat -> Z) (n : nat) : list Z :=
  map (fun k => code_symbol (rand k mod 27)) (seq 0 n).

(** ** Transfers in a trace *)

(** The bytes received in a trace. *)
Definition received (tr : list event) : list Z :=
  concat (map (fun e => match e with EvRecv bs => bs | _ => [] end) tr).




(** ** Facts about buffers *)

Section BufFacts.

Implicit Types (b a r : list Z) (x v i : Z).

Lemma in_bounds_app a x r :
  Buf.in_bounds (a ++ x :: r) (Z.of_nat (length a)) = true.
Proof.
  unfold Buf.in_bounds. rewrite length_app. cbn [length].
  apply andb_true_intro; split; [apply Z.leb_le | apply Z.ltb_lt]; lia.
Qed.

Lemma load_app a x r : Buf.load (a ++ x :: r) (Z.of_nat (length a)) = Some x.
Proof.
  unfold Buf.load. rewrite in_bounds_app, Nat2Z.id.
  apply list_lookup_middle. reflexivity.
Qed.

Lemma store_app a x r v :
  Buf.store (a ++ x :: r) (Z.of_nat (length a)) v = Some (a ++ v :: r).
Proof.
  unfold Buf.store. rewrite in_bounds_app, Nat2Z.id.
  rewrite <- (Nat.add_0_r (length a)), insert_app_r. reflexivity.
Qed.

Lemma memset_app a r v :
  Buf.memset (a ++ r) v (Z.of_nat (length a)) =
  Some (replicate (length a) v ++ r).
Proof.
  unfold Buf.memset. rewrite length_app, Nat2Z.id.
  replace ((0 <=? Z.of_nat (length a))
           && (Z.of_nat (length a) <=? Z.of_nat (length a + length r)))
    with true.
  - rewrite drop_app_length. reflexivity.
  - symmetry. apply andb_true_intro; split; apply Z.leb_le; lia.
Qed.

Lemma load_Some b i x : Buf.load b i = Some x -> 0 <= i < Z.of_nat (length b).
Proof.
  unfold Buf.load, Buf.in_bounds.
  destruct (0 <=? i) eqn:E1; destruct (i <? Z.of_nat (length b)) eqn:E2;
    cbn; try discriminate.
  intros _. apply Z.leb_le in E1. apply Z.ltb_lt in E2. lia.
Qed.

End BufFacts.

(** ** Facts about [encrypt] *)

Section EncryptFacts.

Lemma to_char_small z : -128 <= z <= 127 -> to_char z = z.
Proof. intros H. unfold to_char. rewrite Z.mod_small; lia. Qed.

Lemma despace_spec c : despace c = if c =? 32 then 64 else c.
Proof. reflexivity. Qed.

(** One round, on buffers split at the index it works on. *)
Lemma encrypt_step_at (pd kd cd pr kr cr : list Z) (t k c : Z) :
  length kd = length pd -> length cd = length pd ->
  encrypt_step (Z.of_nat (length pd)) (pd ++ t :: pr) (kd ++ k :: kr)
               (cd ++ c :: cr) =
  Some (pd ++ despace t :: pr, kd ++ despace k :: kr,
        cd ++ enc_char t k :: cr).
Proof.
  intros Hk Hc. unfold encrypt_step.
  rewrite load_app. cbn [obind].
  assert (Hp : (if t =? 32 then Buf.store (pd ++ t :: pr) (Z.of_nat (length pd)) 64
                else Some (pd ++ t :: pr)) = Some (pd ++ despace t :: pr)).
  { unfold despace. destruct (t =? 32); [apply store_app | reflexivity]. }
  rewrite Hp. cbn [obind]. rewrite <- Hk, load_app. cbn [obind].
  assert (Hq : (if k =? 32 then Buf.store (kd ++ k :: kr) (Z.of_nat (length kd)) 64
                else Some (kd ++ k :: kr)) = Some (kd ++ despace k :: kr)).
  { unfold despace. destruct (k =? 32); [apply store_app | reflexivity]. }
  rewrite Hq. cbn [obind]. rewrite load_app. cbn [obind].
  rewrite Hk, load_app. cbn [obind].
  rewrite <- Hc, store_app. cbn [obind]. rewrite load_app. cbn [obind].
  unfold enc_char. cbv zeta.
  destruct (to_char _ =? 64); [rewrite store_app |]; reflexivity.
Qed.

(** The loop, started at the index where the untreated text begins. *)
Lemma encrypt_loop_at (text : list Z) :
  forall (ktext pd kd cd pt kt cr : list Z),
    length ktext = length text ->
    length kd = length pd -> length cd = length pd ->
    (length text <= length cr)%nat ->
    encrypt_loop (length text) (Z.of_nat (length pd))
                 (pd ++ text ++ pt) (kd ++ ktext ++ kt) (cd ++ cr) =
    Some (pd ++ map despace text ++ pt, kd ++ map despace ktext ++ kt,
          cd ++ zip_with enc_char text ktext ++ drop (length text) cr).
Proof.
  induction text as [|t text IH]; intros ktext pd kd cd pt kt cr Hlen Hk Hc Hcr.
  - destruct ktext; [|discriminate]. reflexivity.
  - destruct ktext as [|k ktext]; [discriminate|].
    destruct cr as [|c cr]; [cbn in Hcr; lia|].
    cbn [length encrypt_loop app map zip_with].
    rewrite encrypt_step_at by assumption. cbn [obind].
    replace (Z.of_nat (length pd) + 1) with (Z.of_nat (length (pd ++ [despace t])))
      by (rewrite length_app; cbn; lia).
    specialize (IH ktext (pd ++ [despace t]) (kd ++ [despace k])
                   (cd ++ [enc_char t k]) pt kt cr).
    rewrite <- !app_assoc in IH. cbn [app] in IH.
    rewrite IH; [reflexivity | | | | ].
    + cbn in Hlen. lia.
    + rewrite !length_app. cbn. lia.
    + rewrite !length_app. cbn. lia.
    + cbn in Hcr. lia.
Qed.

(** What [encrypt] does to its three buffers: [text] and [ktext] are the
    [len] characters consumed, [pt] and [kt] what follows them in the two
    input buffers (the NUL, the rest of a longer key). *)
Lemma encrypt_buffers (text ktext pt kt cipher : list Z) :
  length ktext = length text ->
  (length text + 1 <= length cipher)%nat ->
  encrypt (text ++ pt) (ktext ++ kt) cipher (Z.of_nat (length text)) =
  Some (map despace text ++ pt, map despace ktext ++ kt,
        zip_with enc_char text ktext ++ 0 :: drop (length text + 1) cipher).
Proof.
  intros Hlen Hc. unfold encrypt.
  rewrite <- (take_drop (length text + 1) cipher) at 1.
  replace (Z.of_nat (length text) + 1)
    with (Z.of_nat (length (take (length text + 1) cipher)))
    by (rewrite length_take; lia).
  rewrite memset_app. cbn [obind].
  rewrite length_take, Nat.min_l by lia. rewrite Nat2Z.id.
  pose proof (encrypt_loop_at text ktext [] [] [] pt kt
                (replicate (length text + 1) 0 ++ drop (length text + 1) cipher))
    as H.
  cbn [app length] in H. change (Z.of_nat 0) with 0 in H.
  rewrite H; [| assumption | reflexivity | reflexivity
              | rewrite length_app, length_replicate; lia].
  do 3 f_equal.
  rewrite drop_app_le by (rewrite length_replicate; lia).
  rewrite drop_replicate.
  replace (length text + 1 - length text)%nat with 1%nat by lia.
  reflexivity.
Qed.

Lemma sigma_in_sigma c : c ∈ sigma -> in_sigma c.
Proof.
  unfold sigma, in_sigma. rewrite list_elem_of_In. cbn [In].
  intuition lia.
Qed.

Lemma sigma_NoDup : NoDup sigma.
Proof. apply (bool_decide_unpack (NoDup sigma)). vm_compute. exact I. Qed.

(** On the alphabet a round adds the code's indices modulo 27. *)
Lemma enc_char_sigma t k :
  in_sigma t -> in_sigma k ->
  enc_char t k = code_symbol ((code_index t + code_index k) mod 27).
Proof.
  intros Ht Hk.
  assert (Hdt : despace t - 64 = code_index t).
  { unfold despace, code_index. destruct (t =? 32); reflexivity. }
  assert (Hdk : despace k - 64 = code_index k).
  { unfold despace, code_index. destruct (k =? 32); reflexivity. }
  assert (Rt : 0 <= code_index t <= 26).
  { unfold code_index. destruct Ht as [->|Ht]; [cbn; lia|].
    destruct (Z.eqb_spec t 32); lia. }
  assert (Rk : 0 <= code_index k <= 26).
  { unfold code_index. destruct Hk as [->|Hk]; [cbn; lia|].
    destruct (Z.eqb_spec k 32); lia. }
  unfold enc_char. cbv zeta. rewrite Hdt, Hdk.
  rewrite Z.rem_mod_nonneg by lia.
  pose proof (Z.mod_pos_bound (code_index t + code_index k) 27 ltac:(lia)) as Hm.
  rewrite to_char_small by lia.
  unfold code_symbol.
  destruct (Z.eqb_spec ((code_index t + code_index k) mod 27 + 64) 64);
    destruct (Z.eqb_spec ((code_index t + code_index k) mod 27) 0);
    try reflexivity; lia.
Qed.

End EncryptFacts.

(** ** The claims on the cipher *)

Section EncryptClaims.

Lemma transform_with_lookup index symbol (text key : list Z) (i : nat) t k :
  text !! i = Some t -> key !! i = Some k ->
  transform_with index symbol text key !! i =
  Some (symbol ((index t + index k) mod 27)).
Proof.
  intros Ht Hk. unfold transform_with.
  rewrite lookup_zip_with, Ht, Hk. reflexivity.
Qed.

Lemma zip_enc_char_sigma (text key : list Z) :
  Forall in_sigma text -> Forall in_sigma key ->
  zip_with enc_char text key = transform_with code_index code_symbol text key.
Proof.
  intros Ht. revert key.
  induction Ht as [|t text Ht _ IH]; intros key Hk; [reflexivity|].
  destruct Hk as [|k key Hk Hks]; [reflexivity|].
  unfold transform_with in *. cbn [zip_with].
  rewrite enc_char_sigma by assumption. f_equal. apply IH, Hks.
Qed.

(** C1, as the code has it: for a text and a key of equal length over the
    alphabet, [encrypt] returns, and the ciphertext holds at each position
    the symbol of index [(t + k) mod 27], where the indices are taken in
    the numbering space = 0, 'A'..'Z' = 1..26. *)
Theorem encrypt_adds_code_indices (text key pt kt cipher : list Z) :
  length key = length text ->
  (length text + 1 <= length cipher)%nat ->
  Forall in_sigma text -> Forall in_sigma key ->
  exists plain' key' cipher',
    encrypt (text ++ pt) (key ++ kt) cipher (Z.of_nat (length text)) =
      Some (plain', key', cipher') /\
    take (length text) cipher' =
      transform_with code_index code_symbol text key /\
    forall (i : nat) t k,
      text !! i = Some t -> key !! i = Some k ->
      cipher' !! i = Some (code_symbol ((code_index t + code_index k) mod 27)).
Proof.
  intros Hlen Hc Ht Hk.
  eexists _, _, _. split; [apply encrypt_buffers; assumption|].
  rewrite zip_enc_char_sigma by assumption.
  assert (Hl : length (transform_with code_index code_symbol text key)
               = length text).
  { unfold transform_with. rewrite length_zip_with. lia. }
  split.
  - rewrite take_app_length'; [reflexivity | symmetry; assumption].
  - intros i t k Hi Hj.
    rewrite lookup_app_l by (rewrite Hl; apply lookup_lt_Some in Hi; lia).
    apply transform_with_lookup; assumption.
Qed.

Lemma encrypt_adds_code_indices_witness :
  exists plain' key' cipher',
    encrypt (chars "A B" ++ [0]) (chars "ZZZ" ++ [0]) [7; 7; 7; 7]
            (Z.of_nat (length (chars "A B"))) =
      Some (plain', key', cipher') /\
    take (length (chars "A B")) cipher' =
      transform_with code_index code_symbol (chars "A B") (chars "ZZZ") /\
    forall (i : nat) t k,
      chars "A B" !! i = Some t -> chars "ZZZ" !! i = Some k ->
      cipher' !! i = Some (code_symbol ((code_index t + code_index k) mod 27)).
Proof.
  apply (encrypt_adds_code_indices (chars "A B") (chars "ZZZ") [0] [0]
           [7; 7; 7; 7]).
  - reflexivity.
  - cbn. lia.
  - vm_compute (chars _).
    repeat (apply List.Forall_cons; [unfold in_sigma; lia|]). apply List.Forall_nil.
  - vm_compute (chars _).
    repeat (apply List.Forall_cons; [unfold in_sigma; lia|]). apply List.Forall_nil.
Defined.

(** C1 as the specification states it, with 'A'..'Z' = 0..25 and
    space = 26, fails on the one-letter text "A" under the key "A": the
    code answers "B", the stated transform "A". *)
Lemma encrypt_spec_numbering_counterexample :
  encrypt_string "A" "A" = Some (chars "B") /\
  transform_with spec_index spec_symbol (chars "A") (chars "A") = chars "A" /\
  encrypt_string "A" "A" <>
    Some (transform_with spec_index spec_symbol (chars "A") (chars "A")).
Proof. vm_compute. repeat split; congruence. Qed.

(** C5, as the code has it: "HELLO" under the key "WORLD" is "DTCXS". *)
Theorem encrypt_hello_world :
  encrypt_string "HELLO" "WORLD" = Some (chars "DTCXS").
Proof. vm_compute. reflexivity. Qed.

(** C5 as stated: the ciphertext is not "CSBWR". *)
Lemma encrypt_hello_world_counterexample :
  encrypt_string "HELLO" "WORLD" <> Some (chars "CSBWR").
Proof. vm_compute. congruence. Qed.

Lemma despace_id (l : list Z) :
  Forall (fun c => c <> 32) l -> map despace l = l.
Proof.
  induction 1 as [|c l Hc _ IH]; [reflexivity|].
  cbn [map]. rewrite IH. unfold despace.
  destruct (Z.eqb_spec c 32); [contradiction | reflexivity].
Qed.

(** C6, as the code has it: [encrypt] returns with every space among the
    [len] characters it consumed of the text and of the key overwritten by
    '@', and with every other character of the two input buffers as it
    was; inputs without a space are unchanged. Of the cipher buffer it
    writes the first [len + 1] characters only. *)
Theorem encrypt_rewrites_spaces (text key pt kt cipher : list Z) :
  length key = length text ->
  (length text + 1 <= length cipher)%nat ->
  exists cipher',
    encrypt (text ++ pt) (key ++ kt) cipher (Z.of_nat (length text)) =
      Some (map despace text ++ pt, map despace key ++ kt, cipher') /\
    drop (length text + 1) cipher' = drop (length text + 1) cipher /\
    (Forall (fun c => c <> 32) text -> map despace text = text) /\
    (Forall (fun c => c <> 32) key -> map despace key = key).
Proof.
  intros Hlen Hc. eexists. split; [apply encrypt_buffers; assumption|].
  split; [|split; apply despace_id].
  change (zip_with enc_char text key ++ 0 :: drop (length text + 1) cipher)
    with (zip_with enc_char text key ++ [0] ++ drop (length text + 1) cipher).
  rewrite app_assoc. apply drop_app_length'.
  rewrite length_app, length_zip_with. cbn. lia.
Qed.

Lemma encrypt_rewrites_spaces_witness :
  exists cipher',
    encrypt (chars "A B" ++ [0]) (chars "Z Z" ++ [0]) [7; 7; 7; 7; 7]
            (Z.of_nat (length (chars "A B"))) =
      Some (map despace (chars "A B") ++ [0],
            map despace (chars "Z Z") ++ [0], cipher') /\
    drop (length (chars "A B") + 1) cipher' =
      drop (length (chars "A B") + 1) [7; 7; 7; 7; 7] /\
    (Forall (fun c => c <> 32) (chars "A B") ->
     map despace (chars "A B") = chars "A B") /\
    (Forall (fun c => c <> 32) (chars "Z Z") ->
     map despace (chars "Z Z") = chars "Z Z").
Proof.
  apply (encrypt_rewrites_spaces (chars "A B") (chars "Z Z") [0] [0]
           [7; 7; 7; 7; 7]).
  - reflexivity.
  - cbn. lia.
Defined.

(** C6 as stated fails on a text with a space: the text buffer "A B" comes
    back as "A@B". *)
Lemma encrypt_mutates_input_counterexample :
  exists key' cipher',
    encrypt (literal "A B") (literal "XYZ") [0; 0; 0; 0] 3 =
      Some (literal "A@B", key', cipher') /\
    literal "A@B" <> literal "A B".
Proof. eexists _, _. vm_compute. split; [reflexivity | congruence]. Qed.

End EncryptClaims.

(** ** The permutation law *)

Section Permutation.

Lemma encrypt_symbol_enc_char p k : encrypt_symbol p k = Some (enc_char p k).
Proof.
  unfold encrypt_symbol.
  pose proof (encrypt_buffers [p] [k] [0] [0] [0; 0] eq_refl) as H.
  cbn [length app] in H. change (Z.of_nat 1) with 1 in H.
  rewrite H by (cbn; lia). reflexivity.
Qed.

Lemma code_index_range c : in_sigma c -> 0 <= code_index c <= 26.
Proof.
  unfold in_sigma, code_index. intros [->|H]; [cbn; lia|].
  destruct (Z.eqb_spec c 32); lia.
Qed.

Lemma code_symbol_index c : in_sigma c -> code_symbol (code_index c) = c.
Proof.
  unfold in_sigma, code_index, code_symbol. intros [->|H]; [reflexivity|].
  destruct (Z.eqb_spec c 32); [lia|].
  destruct (Z.eqb_spec (c - 64) 0); lia.
Qed.

Lemma code_index_symbol n : 0 <= n <= 26 -> code_index (code_symbol n) = n.
Proof.
  unfold code_index, code_symbol. intros H.
  destruct (Z.eqb_spec n 0) as [->|Hn]; [reflexivity|].
  destruct (Z.eqb_spec (n + 64) 32); lia.
Qed.

Lemma code_symbol_sigma n : 0 <= n <= 26 -> in_sigma (code_symbol n).
Proof.
  unfold in_sigma, code_symbol. intros H.
  destruct (Z.eqb_spec n 0); [left; reflexivity | right; lia].
Qed.

Lemma add_mod27_cancel a b k :
  0 <= a <= 26 -> 0 <= b <= 26 -> 0 <= k <= 26 ->
  (a + k) mod 27 = (b + k) mod 27 -> a = b.
Proof. intros Ha Hb Hk. Z.div_mod_to_equations. lia. Qed.

Lemma sub_add_mod27 n k :
  0 <= n <= 26 -> 0 <= k <= 26 -> ((n - k) mod 27 + k) mod 27 = n.
Proof. intros Hn Hk. Z.div_mod_to_equations. lia. Qed.

(** C7: for a fixed key symbol [k], the map [p |-> encrypt [p] [k]] sends
    the alphabet into itself, is injective on it and reaches every symbol
    of it: the 27 symbols give 27 distinct outputs. *)
Theorem encrypt_symbol_permutes_sigma (k : Z) :
  in_sigma k ->
  (forall p, in_sigma p ->
     exists c, encrypt_symbol p k = Some c /\ in_sigma c) /\
  (forall p q, in_sigma p -> in_sigma q ->
     encrypt_symbol p k = encrypt_symbol q k -> p = q) /\
  (forall c, in_sigma c ->
     exists p, in_sigma p /\ encrypt_symbol p k = Some c) /\
  length sigma = 27%nat /\
  NoDup ((fun p => encrypt_symbol p k) <$> sigma).
Proof.
  intros Hk. pose proof (code_index_range k Hk) as Rk.
  assert (Hinj : forall p q, in_sigma p -> in_sigma q ->
                   encrypt_symbol p k = encrypt_symbol q k -> p = q).
  { intros p q Hp Hq. rewrite !encrypt_symbol_enc_char.
    rewrite !enc_char_sigma by assumption. intros [= H].
    pose proof (code_index_range p Hp) as Rp.
    pose proof (code_index_range q Hq) as Rq.
    apply (f_equal code_index) in H.
    rewrite !code_index_symbol in H
      by (match goal with |- _ <= ?x mod 27 <= _ =>
            pose proof (Z.mod_pos_bound x 27) end; lia).
    apply add_mod27_cancel in H; try assumption.
    rewrite <- (code_symbol_index p Hp), <- (code_symbol_index q Hq).
    congruence. }
  split; [|split; [exact Hinj|split; [|split; [reflexivity|]]]].
  - intros p Hp. exists (enc_char p k).
    split; [apply encrypt_symbol_enc_char|].
    rewrite enc_char_sigma by assumption.
    apply code_symbol_sigma.
    pose proof (Z.mod_pos_bound (code_index p + code_index k) 27). lia.
  - intros c Hc. pose proof (code_index_range c Hc) as Rc.
    set (n := (code_index c - code_index k) mod 27).
    assert (Rn : 0 <= n <= 26)
      by (pose proof (Z.mod_pos_bound (code_index c - code_index k) 27); lia).
    exists (code_symbol n). split; [apply code_symbol_sigma, Rn|].
    rewrite encrypt_symbol_enc_char.
    rewrite enc_char_sigma by (try apply code_symbol_sigma; assumption).
    rewrite code_index_symbol by assumption. unfold n.
    rewrite sub_add_mod27 by assumption.
    rewrite code_symbol_index by assumption. reflexivity.
  - apply NoDup_fmap_2_strong; [|exact sigma_NoDup].
    intros p q Hp Hq. apply Hinj; apply sigma_in_sigma; assumption.
Qed.

Lemma encrypt_symbol_permutes_sigma_witness :
  (forall p, in_sigma p ->
     exists c, encrypt_symbol p 32 = Some c /\ in_sigma c) /\
  (forall p q, in_sigma p -> in_sigma q ->
     encrypt_symbol p 32 = encrypt_symbol q 32 -> p = q) /\
  (forall c, in_sigma c ->
     exists p, in_sigma p /\ encrypt_symbol p 32 = Some c) /\
  length sigma = 27%nat /\
  NoDup ((fun p => encrypt_symbol p 32) <$> sigma).
Proof.
  apply (encrypt_symbol_permutes_sigma 32). unfold in_sigma. lia.
Defined.

End Permutation.

(** ** Facts about the process monad *)

Section MonadFacts.

Context {conn : Type}.

Lemma bind_Ok {A B : Type} (m : M conn A) (k : A -> M conn B) w b w' :
  bind m k w = (Ok b, w') ->
  exists a w1, m w = (Ok a, w1) /\ k a w1 = (Ok b, w').
Proof.
  unfold bind. destruct (m w) as [[a| | | |] w1]; try discriminate.
  intros Hk. exists a, w1. split; [reflexivity | exact Hk].
Qed.

Lemma bind_eq_Ok {A B : Type} (m : M conn A) (k : A -> M conn B) w a w1 :
  m w = (Ok a, w1) -> bind m k w = k a w1.
Proof. intros Hm. unfold bind. rewrite Hm. reflexivity. Qed.

Lemma bind_eq_Exit {A B : Type} (m : M conn A) (k : A -> M conn B) w c w1 :
  m w = (Exit c, w1) -> bind m k w = (Exit c, w1).
Proof. intros Hm. unfold bind. rewrite Hm. reflexivity. Qed.

Lemma defined_Some {A : Type} (o : option A) (a : A) (w : world conn) :
  o = Some a -> defined o w = (Ok a, w).
Proof. intros ->. reflexivity. Qed.

Lemma defined_Ok {A : Type} (o : option A) (a : A) (w w' : world conn) :
  defined o w = (Ok a, w') -> o = Some a /\ w' = w.
Proof. destruct o; cbn; intros [= <- <-]; split; reflexivity. Qed.

Lemma no_exit_ret {A : Type} (a : A) : no_exit (ret (conn := conn) a).
Proof. intros w c w'. discriminate. Qed.

Lemma no_exit_defined {A : Type} (o : option A) :
  no_exit (defined (conn := conn) o).
Proof. intros w c w'. destruct o; discriminate. Qed.

Lemma no_exit_emit (e : event) : no_exit (emit (conn := conn) e).
Proof. intros w c w'. discriminate. Qed.

Lemma no_exit_spin {A : Type} : no_exit (spin (conn := conn) (A := A)).
Proof. intros w c w'. discriminate. Qed.

Lemma no_exit_bind {A B : Type} (m : M conn A) (k : A -> M conn B) :
  no_exit m -> (forall a, no_exit (k a)) -> no_exit (bind m k).
Proof.
  intros Hm Hk w c w'. unfold bind.
  destruct (m w) as [[a| c1 | | |] w1] eqn:E; try discriminate.
  - apply Hk.
  - exfalso. exact (Hm _ _ _ E).
Qed.

Lemma no_exit_when (b : bool) (m : M conn unit) :
  no_exit m -> no_exit (when b m).
Proof. intros Hm. destruct b; [exact Hm | apply no_exit_ret]. Qed.

Lemma no_exit_alloc (n : Z) : no_exit (alloc (conn := conn) n).
Proof. apply no_exit_defined. Qed.

End MonadFacts.

(** ** Facts about [sendrecv] *)

Section SendrecvFacts.

Context {conn : Type} `{Socket conn}.

Lemma slice_length (b : list Z) (off n : Z) (bs : list Z) :
  Buf.slice b off n = Some bs -> Z.of_nat (length bs) = n.
Proof.
  unfold Buf.slice.
  destruct (0 <=? off) eqn:E1; destruct (0 <=? n) eqn:E2;
    destruct (off + n <=? Z.of_nat (length b)) eqn:E3; cbn;
    try discriminate.
  intros [= <-]. apply Z.leb_le in E1, E2, E3.
  rewrite length_take, length_drop. lia.
Qed.

(** One call of [send] inside the loop. *)
Lemma sock_send_inv (str : list Z) (total rem : Z) (w : world conn) n w' :
  sock_send str total rem w = (Ok n, w') ->
  exists bs, Buf.slice str total rem = Some bs /\
    ((n = -1 /\ sys_send (net w) bs = (Failed, net w') /\
      trace w' = trace w ++ [EvSendErr])
     \/ exists k, n = Z.of_nat k /\
          sys_send (net w) bs = (Moved k, net w') /\
          trace w' = trace w ++ [EvSend (take k bs)]).
Proof.
  unfold sock_send, bind.
  destruct (Buf.slice str total rem) as [bs|]; cbn; [|discriminate].
  destruct (sys_send (net w) bs) as [[k| |] c] eqn:E; [| |discriminate];
    intros [= <- <-]; exists bs; (split; [reflexivity|]); cbn.
  - right. exists k. auto.
  - left. auto.
Qed.

(** One call of [recv] inside the loop. *)
Lemma sock_recv_inv (str : list Z) (total rem : Z) (w : world conn) n str' w' :
  sock_recv str total rem w = (Ok (n, str'), w') ->
  (n = -1 /\ str' = str /\ sys_recv (net w) rem = (None, net w') /\
   trace w' = trace w ++ [EvRecvErr])
  \/ exists bs, n = Z.of_nat (length bs) /\
       Buf.blit str total bs = Some str' /\
       sys_recv (net w) rem = (Some bs, net w') /\
       trace w' = trace w ++ [EvRecv bs].
Proof.
  unfold sock_recv.
  destruct (sys_recv (net w) rem) as [[bs|] c] eqn:E.
  - destruct (Buf.blit str total bs) as [s|] eqn:Eb; [|discriminate].
    intros [= <- <- <-]. right. exists bs. cbn. auto.
  - intros [= <- <- <-]. left. cbn. auto.
Qed.

(** The unfolding of one round of the loop. *)
Lemma sendrecv_loop_S fuel (str : list Z) len total rem sendMode :
  sendrecv_loop (S fuel) str len total rem sendMode =
  if total <? len then
    bind (if sendMode
          then bind (sock_send str total rem) (fun n => ret (n, str))
          else sock_recv str total rem)
         (fun r => let '(n, str) := r in
                   if n =? -1 then ret (total, str)
                   else sendrecv_loop fuel str len (total + n) (rem - n)
                          sendMode)
  else ret (total, str).
Proof. reflexivity. Qed.

Lemma sendrecv_loop_done fuel (str : list Z) len total rem sendMode w :
  len <= total ->
  sendrecv_loop (S fuel) str len total rem sendMode w = (Ok (total, str), w).
Proof.
  intros Hle. rewrite sendrecv_loop_S.
  destruct (Z.ltb_spec total len); [lia | reflexivity].
Qed.

Context `{!SocketLaws conn}.

(** The counters of the loop: [total] never passes [len], whatever the
    socket calls return within what the system guarantees. In
    particular no sum leaves the range of [int]. *)
Lemma sendrecv_loop_bounds fuel :
  forall (str : list Z) len total rem sendMode (w : world conn) n str' w',
    rem = len - total ->
    sendrecv_loop fuel str len total rem sendMode w = (Ok (n, str'), w') ->
    total <= n <= Z.max total len.
Proof.
  induction fuel as [|fuel IH];
    intros str len total rem sendMode w n str' w' Hrem Hrun;
    [discriminate|].
  rewrite sendrecv_loop_S in Hrun.
  destruct (Z.ltb_spec total len) as [Hlt|Hge].
  2:{ injection Hrun as <- _ _. lia. }
  apply bind_Ok in Hrun as ([n1 str1] & w1 & Hcall & Hrest).
  assert (Hn1 : n1 = -1 \/ 0 <= n1 <= rem).
  { destruct sendMode.
    - apply bind_Ok in Hcall as (n2 & w2 & Hsend & Hret).
      injection Hret as -> _ _.
      apply sock_send_inv in Hsend as (bs & Hbs & [(-> & _)|(k & -> & Hk & _)]);
        [left; reflexivity|].
      right. apply sys_send_le in Hk. apply slice_length in Hbs. lia.
    - apply sock_recv_inv in Hcall
        as [(-> & _)|(bs & -> & _ & Hr & _)]; [left; reflexivity|].
      right. apply sys_recv_le in Hr; lia. }
  destruct (Z.eqb_spec n1 (-1)) as [->|Hne].
  - injection Hrest as <- _ _. lia.
  - apply IH in Hrest; lia.
Qed.

End SendrecvFacts.

(** C10: whatever the socket calls return, each moving no more than it was
    asked for, a call of [sendrecv] that returns (in send or in receive
    mode) returns a count that is at least 0 and, [len] being a length, at
    most [len]. *)
Theorem sendrecv_result_in_range {conn : Type} `{SocketLaws conn}
    (fuel : nat) (str : list Z) (len : Z) (sendMode : bool)
    (w : world conn) (n : Z) (str' : list Z) (w' : world conn) :
  sendrecv fuel str len sendMode w = (Ok (n, str'), w') ->
  0 <= n <= Z.max 0 len /\ (0 <= len -> 0 <= n <= len).
Proof.
  intros Hrun. unfold sendrecv in Hrun.
  apply bind_Ok in Hrun as (str1 & w1 & _ & Hloop).
  apply sendrecv_loop_bounds in Hloop; lia.
Qed.

(** ** The byte connection *)

Section WireFacts.

#[export] Instance wire_laws : SocketLaws wire.
Proof.
  split.
  - intros c bs k c'. cbn. unfold wire_send.
    destruct (outbox c) as [|[cap| |] rest]; intros [= <- _]; lia.
  - intros c rem bs c' Hrem. cbn. unfold wire_recv.
    destruct (inbox c) as [|chunk rest].
    + destruct (inbox_end c); intros [= <- _]; cbn; lia.
    + destruct (Nat.leb_spec (length chunk) (Z.to_nat rem));
        intros [= <- _]; [lia|].
      rewrite length_take. lia.
Qed.

Lemma blit_nil (str : list Z) (off : Z) :
  0 <= off <= Z.of_nat (length str) -> Buf.blit str off [] = Some str.
Proof.
  intros Hoff. unfold Buf.blit. cbn [length app].
  replace ((0 <=? off) && (off + Z.of_nat 0 <=? Z.of_nat (length str)))
    with true
    by (symmetry; apply andb_true_intro; split; apply Z.leb_le; lia).
  rewrite Nat.add_0_r, take_drop. reflexivity.
Qed.

Lemma blit_length (str : list Z) (off : Z) (bs str' : list Z) :
  Buf.blit str off bs = Some str' -> length str' = length str.
Proof.
  unfold Buf.blit.
  destruct (0 <=? off) eqn:E1;
    destruct (off + Z.of_nat (length bs) <=? Z.of_nat (length str)) eqn:E2;
    cbn; try discriminate.
  apply Z.leb_le in E1, E2. intros [= <-].
  rewrite !length_app, length_take, length_drop. lia.
Qed.

Lemma blit_defined (str : list Z) (off : Z) (bs : list Z) :
  0 <= off -> off + Z.of_nat (length bs) <= Z.of_nat (length str) ->
  exists str', Buf.blit str off bs = Some str'.
Proof.
  intros H0 H1. unfold Buf.blit.
  replace ((0 <=? off)
           && (off + Z.of_nat (length bs) <=? Z.of_nat (length str)))
    with true
    by (symmetry; apply andb_true_intro; split; apply Z.leb_le; lia).
  eexists. reflexivity.
Qed.

(** A stream that ends, closed by the peer, before [len] bytes have come:
    [recv] answers 0 again and again and the loop never leaves. *)
Lemma recv_loop_spins_on_closed fuel :
  forall (chunks : list (list Z)) (str : list Z) len total out tr,
    0 <= total ->
    total + Z.of_nat (length (concat chunks)) < len ->
    len <= Z.of_nat (length str) ->
    fst (sendrecv_loop fuel str len total (len - total) false
           (World (Wire chunks Closed out) tr)) = Spin.
Proof.
  induction fuel as [|fuel IH]; intros chunks str len total out tr H0 Hlt Hlen;
    [reflexivity|].
  rewrite sendrecv_loop_S.
  destruct (Z.ltb_spec total len) as [_|Hge];
    [|rewrite length_concat in Hlt; lia].
  unfold bind at 1. unfold sock_recv. cbn [net sys_recv wire_socket trace].
  unfold wire_recv. cbn [inbox inbox_end outbox].
  destruct chunks as [|chunk rest].
  - rewrite blit_nil by lia. cbn [length Z.of_nat].
    change (0 =? -1) with false. cbv iota.
    rewrite Z.add_0_r, Z.sub_0_r. apply IH; cbn; lia.
  - cbn [concat] in Hlt. rewrite length_app in Hlt.
    destruct (Nat.leb_spec (length chunk) (Z.to_nat (len - total)));
      [|lia].
    destruct (blit_defined str total chunk) as [str' Hstr']; [lia | lia |].
    rewrite Hstr'.
    destruct (Z.eqb_spec (Z.of_nat (length chunk)) (-1)); [lia|].
    replace (len - total - Z.of_nat (length chunk))
      with (len - (total + Z.of_nat (length chunk))) by lia.
    apply IH; [lia | lia |].
    apply blit_length in Hstr'. lia.
Qed.

Lemma memset_length (str : list Z) (v n : Z) (str' : list Z) :
  Buf.memset str v n = Some str' -> length str' = length str.
Proof.
  unfold Buf.memset.
  destruct (0 <=? n) eqn:E1; destruct (n <=? Z.of_nat (length str)) eqn:E2;
    cbn; try discriminate.
  apply Z.leb_le in E1, E2. intros [= <-].
  rewrite length_app, length_replicate, length_drop. lia.
Qed.

Lemma memset_defined (str : list Z) (v n : Z) :
  0 <= n <= Z.of_nat (length str) ->
  exists str', Buf.memset str v n = Some str'.
Proof.
  intros Hn. unfold Buf.memset.
  replace ((0 <=? n) && (n <=? Z.of_nat (length str))) with true
    by (symmetry; apply andb_true_intro; split; apply Z.leb_le; lia).
  eexists. reflexivity.
Qed.

(** The same for the whole call: a receive of [len] bytes from a stream
    that the peer closes after fewer than [len] bytes does not return. *)
Lemma sendrecv_spins_on_closed fuel (chunks : list (list Z)) (str : list Z)
    len out tr :
  Z.of_nat (length (concat chunks)) < len ->
  len + 1 <= Z.of_nat (length str) ->
  fst (sendrecv fuel str len false (World (Wire chunks Closed out) tr)) = Spin.
Proof.
  intros Hlt Hlen. unfold sendrecv. cbn [negb].
  destruct (memset_defined str 0 (len + 1)) as [str1 Hstr1]; [lia|].
  rewrite (bind_eq_Ok _ _ _ str1 (World (Wire chunks Closed out) tr))
    by (apply defined_Some, Hstr1).
  replace len with (len - 0) at 2 by lia.
  apply recv_loop_spins_on_closed; [lia | lia |].
  apply memset_length in Hstr1. lia.
Qed.

Lemma blit_spec (str : list Z) (off : Z) (bs : list Z) :
  0 <= off -> off + Z.of_nat (length bs) <= Z.of_nat (length str) ->
  Buf.blit str off bs =
  Some (take (Z.to_nat off) str ++ bs ++
        drop (Z.to_nat off + length bs) str).
Proof.
  intros H0 H1. unfold Buf.blit.
  replace ((0 <=? off)
           && (off + Z.of_nat (length bs) <=? Z.of_nat (length str)))
    with true
    by (symmetry; apply andb_true_intro; split; apply Z.leb_le; lia).
  reflexivity.
Qed.

(** An unbroken stream with enough data: every chunk that arrives holds
    at least one byte and [len] bytes are on their way. The receive loop
    returns [len], with the bytes in the buffer. *)
Lemma recv_loop_unbroken fuel :
  forall (chunks : list (list Z)) (str : list Z) len total e out tr,
    0 <= total <= len ->
    Forall (fun chunk => chunk <> []) chunks ->
    len - total <= Z.of_nat (length (concat chunks)) ->
    len <= Z.of_nat (length str) ->
    (Z.to_nat (len - total) < fuel)%nat ->
    exists w',
      sendrecv_loop fuel str len total (len - total) false
        (World (Wire chunks e out) tr) =
      (Ok (len, take (Z.to_nat total) str ++
                take (Z.to_nat (len - total)) (concat chunks) ++
                drop (Z.to_nat len) str), w').
Proof.
  induction fuel as [|fuel IH];
    intros chunks str len total e out tr Htot Hne Hdata Hstr Hfuel; [lia|].
  rewrite sendrecv_loop_S.
  destruct (Z.ltb_spec total len) as [Hlt|Hge].
  2:{ assert (total = len) as -> by lia. eexists.
      rewrite Z.sub_diag. change (Z.to_nat 0) with 0%nat.
      rewrite take_0. cbn [app]. rewrite take_drop. reflexivity. }
  unfold bind at 1. unfold sock_recv. cbn [net sys_recv wire_socket trace].
  unfold wire_recv. cbn [inbox inbox_end outbox].
  destruct chunks as [|chunk rest]; [cbn in Hdata; lia|].
  apply Forall_cons in Hne as [Hchunk Hrest].
  assert (Hpos : (0 < length chunk)%nat)
    by (destruct chunk; [contradiction | cbn; lia]).
  cbn [concat] in Hdata |- *. rewrite length_app in Hdata.
  destruct (Nat.leb_spec (length chunk) (Z.to_nat (len - total))) as [Hle|Hgt].
  - rewrite blit_spec by lia.
    destruct (Z.eqb_spec (Z.of_nat (length chunk)) (-1)); [lia|].
    replace (len - total - Z.of_nat (length chunk))
      with (len - (total + Z.of_nat (length chunk))) by lia.
    edestruct (IH rest
                 (take (Z.to_nat total) str ++ chunk ++
                  drop (Z.to_nat total + length chunk) str)
                 len (total + Z.of_nat (length chunk)) e out
                 (tr ++ [EvRecv chunk])) as [w' Hw']; try lia; try assumption.
    { rewrite !length_app, length_take, length_drop. lia. }
    exists w'. rewrite Hw'. do 3 f_equal.
    replace (Z.to_nat (total + Z.of_nat (length chunk)))
      with (Z.to_nat total + length chunk)%nat by lia.
    replace (Z.to_nat (len - (total + Z.of_nat (length chunk))))
      with (Z.to_nat (len - total) - length chunk)%nat by lia.
    rewrite (app_assoc (take (Z.to_nat total) str) chunk).
    rewrite take_app_length'
      by (rewrite length_app, length_take; lia).
    rewrite drop_app_ge
      by (rewrite length_app, length_take; lia).
    rewrite drop_drop, length_app, length_take.
    rewrite take_app_ge by lia.
    rewrite <- !app_assoc. do 3 f_equal. f_equal. lia.
  - assert (Hn : length (take (Z.to_nat (len - total)) chunk)
                 = Z.to_nat (len - total))
      by (rewrite length_take; lia).
    rewrite Hn, blit_spec by lia. rewrite Hn.
    destruct (Z.eqb_spec (Z.of_nat (Z.to_nat (len - total))) (-1)); [lia|].
    destruct fuel as [|fuel]; [lia|].
    rewrite sendrecv_loop_done by lia. eexists.
    rewrite take_app_le by lia.
    do 3 f_equal; [lia|]. do 3 f_equal. lia.
Qed.

(** The whole call, receiving: [len] is returned and the buffer holds the
    [len] bytes, a NUL, and what it held behind them. *)
Lemma sendrecv_recv_unbroken fuel (chunks : list (list Z)) (str : list Z)
    len e out tr :
  0 <= len ->
  Forall (fun chunk => chunk <> []) chunks ->
  len <= Z.of_nat (length (concat chunks)) ->
  len + 1 <= Z.of_nat (length str) ->
  (Z.to_nat len < fuel)%nat ->
  exists w',
    sendrecv fuel str len false (World (Wire chunks e out) tr) =
    (Ok (len, take (Z.to_nat len) (concat chunks) ++ 0 ::
              drop (Z.to_nat len + 1) str), w').
Proof.
  intros Hlen Hne Hdata Hstr Hfuel. unfold sendrecv. cbn [negb].
  assert (Hset : Buf.memset str 0 (len + 1) =
                 Some (replicate (Z.to_nat (len + 1)) 0 ++
                       drop (Z.to_nat (len + 1)) str)).
  { unfold Buf.memset.
    replace ((0 <=? len + 1) && (len + 1 <=? Z.of_nat (length str)))
      with true
      by (symmetry; apply andb_true_intro; split; apply Z.leb_le; lia).
    reflexivity. }
  rewrite (bind_eq_Ok _ _ _ _ (World (Wire chunks e out) tr)
             (defined_Some _ _ _ Hset)).
  edestruct (recv_loop_unbroken fuel chunks
               (replicate (Z.to_nat (len + 1)) 0 ++
                drop (Z.to_nat (len + 1)) str) len 0 e out tr)
    as [w' Hw']; try lia; try assumption.
  { rewrite length_app, length_replicate, length_drop. lia. }
  rewrite Z.sub_0_r in Hw'. exists w'. rewrite Hw'. do 3 f_equal.
  change (Z.to_nat 0) with 0%nat. rewrite take_0. cbn [app].
  rewrite drop_app_le by (rewrite length_replicate; lia).
  rewrite drop_replicate.
  replace (Z.to_nat (len + 1) - Z.to_nat len)%nat with 1%nat by lia.
  change (replicate 1 0) with [0]. cbn [app]. do 3 f_equal. lia.
Qed.

End WireFacts.

(** C2, where the code departs from it: the peer sends three of the seven
    bytes asked for and closes the connection. However much fuel the loop
    is given it is still running: the call never returns. *)
Theorem sendrecv_never_returns_after_close (fuel : nat) :
  fst (sendrecv fuel (replicate 8 0) ID_LEN false
         (World (Wire [chars "otp"] Closed []) [])) = Spin.
Proof.
  apply sendrecv_spins_on_closed;
    [apply Z.ltb_lt | apply Z.leb_le]; reflexivity.
Qed.

(** A connection with no failure or limit ahead on its sending side keeps
    taking what is sent. *)
Lemma wire_send_goes_on : send_goes_on (fun c : wire => outbox c = []).
Proof.
  intros c bs Hout Hbs. exists (length bs), c. cbn. unfold wire_send.
  rewrite Hout. split; [reflexivity|]. split; [|reflexivity].
  destruct bs; [contradiction | cbn; lia].
Qed.

(** ** What a call of [sendrecv] leaves in the trace *)

Section TraceFacts.

Context {conn : Type} `{Socket conn}.

Lemma sent_app (tr1 tr2 : list event) : sent (tr1 ++ tr2) = sent tr1 ++ sent tr2.
Proof. unfold sent. rewrite map_app, concat_app. reflexivity. Qed.

Lemma slice_spec (str : list Z) (off n : Z) :
  0 <= off -> 0 <= n -> off + n <= Z.of_nat (length str) ->
  Buf.slice str off n = Some (take (Z.to_nat n) (drop (Z.to_nat off) str)).
Proof.
  intros H0 H1 H2. unfold Buf.slice.
  replace ((0 <=? off) && (0 <=? n) && (off + n <=? Z.of_nat (length str)))
    with true; [reflexivity|].
  symmetry. repeat (apply andb_true_intro; split); apply Z.leb_le; lia.
Qed.

(** The loop in send mode: it leaves the buffer alone, makes calls of
    [send] only, and what it has sent when it stops is a part of
    [str + total] no longer than the rest to send; all of that rest when
    the count returned is [len]. *)
Lemma send_loop_trace fuel :
  forall (str : list Z) len total (w : world conn),
    0 <= total -> len <= Z.of_nat (length str) ->
    exists o w' evs (k : nat),
      sendrecv_loop fuel str len total (len - total) true w = (o, w') /\
      trace w' = trace w ++ evs /\
      Forall (fun e => is_send e = true) evs /\
      sent evs = take k (drop (Z.to_nat total) str) /\
      Z.of_nat k <= Z.max 0 (len - total) /\
      (o = Spin \/ o = Killed /\ last evs = Some EvSigpipe \/
       exists m, o = Ok (m, str) /\ total <= m /\
                 (m = len -> Z.of_nat k = Z.max 0 (len - total))).
Proof.
  induction fuel as [|fuel IH]; intros str len total w Htot Hstr.
  { exists Spin, w, [], 0%nat. cbn. rewrite app_nil_r.
    repeat split; auto; lia. }
  rewrite sendrecv_loop_S.
  destruct (Z.ltb_spec total len) as [Hlt|Hge].
  2:{ exists (Ok (total, str)), w, [], 0%nat. cbn. rewrite app_nil_r.
      repeat split; auto; try lia. right. right. exists total.
      repeat split; try lia. }
  unfold bind at 1. unfold bind at 1. unfold sock_send.
  unfold bind at 1. rewrite slice_spec by lia. cbn [defined].
  set (rest := drop (Z.to_nat total) str).
  set (bs := take (Z.to_nat (len - total)) rest).
  destruct (sys_send (net w) bs) as [[k1| |] c] eqn:Esend.
  3:{ exists Killed, (World c (trace w ++ [EvSigpipe])), [EvSigpipe], 0%nat.
      cbn. repeat split; auto; lia. }
  2:{ cbn [ret]. change (-1 =? -1) with true. cbv iota.
      exists (Ok (total, str)), (World c (trace w ++ [EvSendErr])),
        [EvSendErr], 0%nat.
      cbn. repeat split; auto; try lia. right. right. exists total.
      repeat split; lia. }
  cbn [ret].
  destruct (Z.eqb_spec (Z.of_nat k1) (-1)) as [|_]; [lia|].
  replace (len - total - Z.of_nat k1) with (len - (total + Z.of_nat k1))
    by lia.
  destruct (IH str len (total + Z.of_nat k1)
              (World c (trace w ++ [EvSend (take k1 bs)])))
    as (o & w' & evs & k & Hrun & Htr & Hsend & Hsent & Hk & Ho);
    [lia | lia |].
  cbn [trace] in Htr.
  assert (Hrest : drop (Z.to_nat (total + Z.of_nat k1)) str = drop k1 rest).
  { unfold rest. rewrite drop_drop. f_equal. lia. }
  rewrite Hrest in Hsent.
  destruct (Nat.le_gt_cases k1 (Z.to_nat (len - total))) as [Hle|Hgt].
  - exists o, w', (EvSend (take k1 bs) :: evs), (k1 + k)%nat.
    split; [exact Hrun|]. split; [rewrite Htr, <- app_assoc; reflexivity|].
    split; [constructor; [reflexivity | exact Hsend]|].
    split.
    { change (sent (EvSend (take k1 bs) :: evs))
        with (take k1 bs ++ sent evs).
      rewrite Hsent. unfold bs. rewrite take_take, Nat.min_l by lia.
      apply take_take_drop. }
    split; [lia|].
    destruct Ho as [->|[[-> Hlast]|(m & -> & Hm & Hfull)]];
      [ left; reflexivity
      | right; left; split; [reflexivity|]; rewrite last_cons, Hlast;
        reflexivity
      | ].
    right. right. exists m. repeat split; lia.
  - assert (k = 0%nat) as -> by lia.
    exists o, w', (EvSend (take k1 bs) :: evs), (Z.to_nat (len - total)).
    split; [exact Hrun|]. split; [rewrite Htr, <- app_assoc; reflexivity|].
    split; [constructor; [reflexivity | exact Hsend]|].
    split.
    { change (sent (EvSend (take k1 bs) :: evs))
        with (take k1 bs ++ sent evs).
      rewrite Hsent, take_0, app_nil_r. unfold bs.
      rewrite take_take, Nat.min_r by lia. reflexivity. }
    split; [lia|].
    destruct Ho as [->|[[-> Hlast]|(m & -> & Hm & Hfull)]];
      [ left; reflexivity
      | right; left; split; [reflexivity|]; rewrite last_cons, Hlast;
        reflexivity
      | ].
    right. right. exists m. repeat split; lia.
Qed.

(** The whole call, in send mode. *)
Lemma sendrecv_send_trace fuel (str : list Z) len (w : world conn) :
  len <= Z.of_nat (length str) ->
  exists o w' evs (k : nat),
    sendrecv fuel str len true w = (o, w') /\
    trace w' = trace w ++ evs /\
    Forall (fun e => is_send e = true) evs /\
    sent evs = take k str /\
    Z.of_nat k <= Z.max 0 len /\
    (o = Spin \/ o = Killed /\ last evs = Some EvSigpipe \/
     exists m, o = Ok (m, str) /\
               (m = len -> Z.of_nat k = Z.max 0 len)).
Proof.
  intros Hstr. unfold sendrecv. cbn [negb]. unfold bind at 1. cbn [ret].
  destruct (send_loop_trace fuel str len 0 w)
    as (o & w' & evs & k & Hrun & Htr & Hsend & Hsent & Hk & Ho);
    [lia | exact Hstr |].
  rewrite Z.sub_0_r in Hrun, Hk, Ho.
  change (Z.to_nat 0) with 0%nat in Hsent. rewrite drop_0 in Hsent.
  exists o, w', evs, k. repeat split; try assumption.
  destruct Ho as [->|[[-> Hlast]|(m & -> & _ & Hfull)]];
    [left; reflexivity | right; left; split; [reflexivity | exact Hlast] |].
  right. right. exists m. split; [reflexivity | exact Hfull].
Qed.

(** On a connection that keeps taking what is sent, the loop in send mode
    returns [len]. *)
Lemma send_loop_goes_on (Inv : conn -> Prop) fuel :
  send_goes_on Inv ->
  forall (str : list Z) len total (w : world conn),
    Inv (net w) ->
    0 <= total <= len -> len <= Z.of_nat (length str) ->
    (Z.to_nat (len - total) < fuel)%nat ->
    exists w',
      sendrecv_loop fuel str len total (len - total) true w =
        (Ok (len, str), w') /\ Inv (net w').
Proof.
  intros Hgo. induction fuel as [|fuel IH];
    intros str len total w Hinv Htot Hstr Hfuel; [lia|].
  rewrite sendrecv_loop_S.
  destruct (Z.ltb_spec total len) as [Hlt|Hge].
  2:{ assert (total = len) as -> by lia. eauto. }
  unfold bind at 1. unfold bind at 1. unfold sock_send.
  unfold bind at 1. rewrite slice_spec by lia. cbn [defined].
  set (bs := take (Z.to_nat (len - total)) (drop (Z.to_nat total) str)).
  assert (Hlen : length bs = Z.to_nat (len - total))
    by (unfold bs; rewrite length_take, length_drop; lia).
  destruct (Hgo (net w) bs Hinv) as (k & c' & Hsend & Hk & Hinv').
  { intros Hnil. rewrite Hnil in Hlen. cbn in Hlen. lia. }
  rewrite Hsend. cbn [ret].
  destruct (Z.eqb_spec (Z.of_nat k) (-1)) as [|_]; [lia|].
  replace (len - total - Z.of_nat k) with (len - (total + Z.of_nat k)) by lia.
  apply IH; [exact Hinv' | lia | lia | lia].
Qed.

Lemma sendrecv_send_goes_on (Inv : conn -> Prop) fuel (str : list Z) len
    (w : world conn) :
  send_goes_on Inv -> Inv (net w) ->
  0 <= len <= Z.of_nat (length str) -> (Z.to_nat len < fuel)%nat ->
  exists w', sendrecv fuel str len true w = (Ok (len, str), w') /\
             Inv (net w').
Proof.
  intros Hgo Hinv Hlen Hfuel. unfold sendrecv. cbn [negb].
  unfold bind at 1. cbn [ret].
  destruct (send_loop_goes_on Inv fuel Hgo str len 0 w) as (w' & Hrun & Hw');
    try lia; [exact Hinv|].
  rewrite Z.sub_0_r in Hrun. eauto.
Qed.

(** No call of [sendrecv] ends the process. *)
Lemma no_exit_sendrecv_loop fuel :
  forall (str : list Z) len total rem sendMode,
    no_exit (conn := conn) (sendrecv_loop fuel str len total rem sendMode).
Proof.
  induction fuel as [|fuel IH]; intros str len total rem sendMode;
    [apply no_exit_spin|].
  rewrite sendrecv_loop_S. destruct (total <? len); [|apply no_exit_ret].
  apply no_exit_bind.
  - destruct sendMode.
    + apply no_exit_bind; [|intros; apply no_exit_ret].
      unfold sock_send. apply no_exit_bind; [apply no_exit_defined|].
      intros bs w c w'. destruct (sys_send (net w) bs) as [[k| |] c0];
        discriminate.
    + intros w c w'. unfold sock_recv.
      destruct (sys_recv (net w) rem) as [[bs|] c0]; [|discriminate].
      destruct (Buf.blit str total bs); discriminate.
  - intros [n str1]. destruct (n =? -1); [apply no_exit_ret | apply IH].
Qed.

Lemma no_exit_sendrecv fuel (str : list Z) len sendMode :
  no_exit (conn := conn) (sendrecv fuel str len sendMode).
Proof.
  unfold sendrecv. apply no_exit_bind.
  - destruct (negb sendMode); [apply no_exit_defined | apply no_exit_ret].
  - intros; apply no_exit_sendrecv_loop.
Qed.

Lemma no_exit_checked_sendrecv fuel (str : list Z) len sendMode msg :
  no_exit (conn := conn) (checked_sendrecv fuel str len sendMode msg).
Proof.
  unfold checked_sendrecv. apply no_exit_bind; [apply no_exit_sendrecv|].
  intros [chars str1]. apply no_exit_bind.
  - apply no_exit_when, no_exit_emit.
  - intros; apply no_exit_ret.
Qed.

(** The idiom around a call that moved all it was asked to, and around
    one that did not. *)
Lemma checked_sendrecv_full fuel (str : list Z) len sendMode msg
    (w : world conn) str' w1 :
  sendrecv fuel str len sendMode w = (Ok (len, str'), w1) ->
  checked_sendrecv fuel str len sendMode msg w = (Ok str', w1).
Proof.
  intros Hrun. unfold checked_sendrecv.
  rewrite (bind_eq_Ok _ _ _ _ _ Hrun). rewrite Z.eqb_refl. reflexivity.
Qed.

Lemma checked_sendrecv_short fuel (str : list Z) len sendMode msg
    (w : world conn) n str' w1 :
  sendrecv fuel str len sendMode w = (Ok (n, str'), w1) ->
  n <> len ->
  checked_sendrecv fuel str len sendMode msg w =
  (Ok str', World (net w1) (trace w1 ++ [EvStderr (msg n)])).
Proof.
  intros Hrun Hne. unfold checked_sendrecv.
  rewrite (bind_eq_Ok _ _ _ _ _ Hrun).
  destruct (Z.eqb_spec n len); [contradiction | reflexivity].
Qed.

End TraceFacts.

(** ** The client's validation *)

Section Validation.

Context {conn : Type} `{Socket conn}.

(** [atoi] on a numeral that an [int] can hold. *)
Lemma as_int_Some (v : Z) : INT_MIN <= v <= INT_MAX -> as_int v = Some v.
Proof.
  intros Hv. unfold as_int.
  destruct (Z.leb_spec INT_MIN v); [|lia].
  destruct (Z.leb_spec v INT_MAX); [reflexivity | lia].
Qed.

Lemma as_int_inv (v n : Z) :
  as_int v = Some n -> n = v /\ INT_MIN <= v <= INT_MAX.
Proof.
  unfold as_int.
  destruct (Z.leb_spec INT_MIN v); [|discriminate].
  destruct (Z.leb_spec v INT_MAX); [|discriminate].
  intros [= <-]. lia.
Qed.

Lemma atoi_arg_Some (s : string) :
  INT_MIN <= atoi_chars (chars s) <= INT_MAX ->
  atoi_arg s = Some (atoi_chars (chars s)).
Proof. apply as_int_Some. Qed.

(** The test of [scanfile] on a character holds of every character. *)
Lemma scanfile_test_always_true (c : Z) :
  (c =? 32) || ((c >=? 65) || (c <=? 90)) = true.
Proof.
  rewrite Z.geb_leb.
  destruct (Z.leb_spec 65 c); [apply orb_true_r|].
  destruct (Z.leb_spec c 90); [rewrite !orb_true_r; reflexivity | lia].
Qed.

(** The loop of [scanfile] is a function of the file: it never reaches
    the branch that reports bad characters. *)
Lemma scanfile_loop_scan_line fuel :
  forall filename fd count (w : world conn),
    scanfile_loop fuel filename fd count w =
    (match scan_line fuel fd count with
     | Some n => Ok n
     | None => Spin
     end, w).
Proof.
  induction fuel as [|fuel IH]; intros filename fd count w; [reflexivity|].
  cbn [scanfile_loop scan_line].
  destruct fd as [|a fd]; cbn [fgetc].
  - change (to_char (-1) =? 10) with false. cbn [negb].
    rewrite scanfile_test_always_true. apply IH.
  - destruct (to_char (Z.of_nat (nat_of_ascii a)) =? 10); cbn [negb];
      [reflexivity|].
    rewrite scanfile_test_always_true. apply IH.
Qed.

(** A scan that returns a length does so in every world, and leaves the
    world as it was. *)
Lemma scanfile_Ok_any fuel e filename (wa : world conn) n :
  fst (scanfile fuel e filename wa) = Ok n ->
  forall w : world conn, scanfile fuel e filename w = (Ok n, w).
Proof.
  unfold scanfile. destruct (files e filename) as [content|].
  - rewrite scanfile_loop_scan_line. cbn [fst]. intros Hn w.
    rewrite scanfile_loop_scan_line, Hn. reflexivity.
  - cbn. discriminate.
Qed.

(** The only way out of [scanfile] through [exit] is a file that cannot
    be opened. *)
Lemma scanfile_exit_only_unopened fuel e filename (w : world conn) c w' :
  scanfile fuel e filename w = (Exit c, w') -> files e filename = None.
Proof.
  unfold scanfile. destruct (files e filename) as [content|]; [|reflexivity].
  rewrite scanfile_loop_scan_line.
  destruct (scan_line _ _ _); discriminate.
Qed.

End Validation.

(** C9: a run of the client in which the scan of the key file returns a
    length smaller than the scan of the text file ends in [exit(1)], after a
    message on standard error, without any call that creates, connects or
    uses a socket. *)
Theorem short_key_exits_before_socket {conn : Type} `{Socket conn}
    (fuel : nat) (e : env) (w wa wb : world conn) (textLen keyLen : Z) :
  length (argv e) = 4%nat ->
  0 <= atoi_chars (chars (nth 3 (argv e) EmptyString)) <= 65535 ->
  fst (scanfile fuel e (nth 1 (argv e) EmptyString) wa) = Ok textLen ->
  fst (scanfile fuel e (nth 2 (argv e) EmptyString) wb) = Ok keyLen ->
  keyLen < textLen ->
  exists evs msg,
    main fuel e w = (Exit 1, World (net w) (trace w ++ evs)) /\
    Forall (fun ev => is_network ev = false) evs /\
    last evs = Some (EvStderr msg).
Proof.
  intros Hargc Hport Htext Hkey Hlt.
  pose proof (scanfile_Ok_any _ _ _ _ _ Htext) as Hscan1.
  pose proof (scanfile_Ok_any _ _ _ _ _ Hkey) as Hscan2.
  unfold main. rewrite Hargc. cbn [Nat.eqb negb].
  rewrite (bind_eq_Ok _ _ _ _ _
             (defined_Some _ _ w
                (atoi_arg_Some (nth 3 (argv e) EmptyString)
                   ltac:(unfold INT_MIN, INT_MAX; lia)))).
  set (port := atoi_chars (chars (nth 3 (argv e) EmptyString))) in *.
  replace ((port <? 0) || (port >? 65535)) with false
    by (symmetry; apply orb_false_intro;
        [apply Z.ltb_ge | rewrite Z.gtb_ltb; apply Z.ltb_ge]; lia).
  assert (Hwarn : exists d,
             Forall (fun ev => is_network ev = false) d /\
             when (port <? 50000)
               (stdout ("otp_dec: WARNING, recommended to use a port number above 50000"
                        ++ nl)%string) w
             = (Ok tt, World (net w) (trace w ++ d))).
  { destruct (port <? 50000); cbn.
    - eexists. split; [|reflexivity]. repeat constructor.
    - exists []. split; [constructor|]. rewrite app_nil_r.
      destruct w; reflexivity. }
  destruct Hwarn as (d & Hd & Hwarn).
  rewrite (bind_eq_Ok _ _ _ _ _ Hwarn).
  rewrite (bind_eq_Ok _ _ _ _ _ (Hscan1 _)).
  destruct (textLen <? 1).
  { eexists (d ++ [_]), _. cbn. rewrite <- app_assoc.
    split; [reflexivity|]. split; [|apply last_snoc].
    apply Forall_app. split; [exact Hd | repeat constructor]. }
  rewrite (bind_eq_Ok _ _ _ _ _ (Hscan2 _)).
  destruct (keyLen <? 1).
  { eexists (d ++ [_]), _. cbn. rewrite <- app_assoc.
    split; [reflexivity|]. split; [|apply last_snoc].
    apply Forall_app. split; [exact Hd | repeat constructor]. }
  destruct (Z.ltb_spec keyLen textLen); [|lia].
  eexists (d ++ [_]), _. cbn. rewrite <- app_assoc.
  split; [reflexivity|]. split; [|apply last_snoc].
  apply Forall_app. split; [exact Hd | repeat constructor].
Qed.

Lemma short_key_exits_before_socket_witness :
  exists evs msg,
    main 20 (example_env "cipher" "shortkey") (closed_after [chars "PASS"]) =
      (Exit 1, World (net (closed_after [chars "PASS"]))
                     (trace (closed_after [chars "PASS"]) ++ evs)) /\
    Forall (fun ev => is_network ev = false) evs /\
    last evs = Some (EvStderr msg).
Proof.
  apply (short_key_exits_before_socket 20 (example_env "cipher" "shortkey")
           (closed_after [chars "PASS"]) (closed_after []) (closed_after [])
           5 2).
  - reflexivity.
  - vm_compute. split; discriminate.
  - vm_compute. reflexivity.
  - vm_compute. reflexivity.
  - lia.
Defined.

(** C3, where the code departs from it: a text file with lowercase letters
    passes [scanfile], which returns its length, and the client goes on to
    create its socket, connect and send. *)
Theorem lowercase_text_passes_validation :
  scanfile 20 (example_env "lowercase" "key") "lowercase" (closed_after []) =
    (Ok 5, closed_after []) /\
  exists rest,
    main 20 (example_env "lowercase" "key") (closed_after [chars "FAIL"]) =
      (Exit 2,
       World (Wire [] Closed [])
             (EvSocket :: EvConnect :: EvSend (chars "otp_dec") :: rest)).
Proof.
  split; [vm_compute; reflexivity|].
  eexists. vm_compute. reflexivity.
Qed.

(** ** Admission *)

Section Admission.

Context {conn : Type} `{Socket conn}.

Lemma alloc_pos (n : Z) (w : world conn) :
  0 < n -> alloc n w = (Ok (replicate (Z.to_nat n) 0), w).
Proof.
  intros Hn. unfold alloc. destruct (Z.ltb_spec 0 n); [reflexivity | lia].
Qed.

Lemma bind_eq_Spin {A B : Type} (m : M conn A) (k : A -> M conn B) w w1 :
  m w = (Spin, w1) -> bind m k w = (Spin, w1).
Proof. intros Hm. unfold bind. rewrite Hm. reflexivity. Qed.

Lemma bind_eq_Killed {A B : Type} (m : M conn A) (k : A -> M conn B) w w1 :
  m w = (Killed, w1) -> bind m k w = (Killed, w1).
Proof. intros Hm. unfold bind. rewrite Hm. reflexivity. Qed.

Lemma bind_Exit {A B : Type} (m : M conn A) (k : A -> M conn B) w c w' :
  bind m k w = (Exit c, w') ->
  m w = (Exit c, w') \/ exists a w1, m w = (Ok a, w1) /\ k a w1 = (Exit c, w').
Proof.
  unfold bind. destruct (m w) as [[a|c1| | |] w1]; try discriminate.
  - intros Hk. right. exists a, w1. auto.
  - intros [= <- <-]. left. reflexivity.
Qed.

(** The idiom around a call that returns: the buffer is handed on, and
    the trace gains the diagnostic exactly when the count is short. *)
Lemma checked_sendrecv_Ok fuel (str : list Z) len sendMode msg
    (w : world conn) n str' w1 :
  sendrecv fuel str len sendMode w = (Ok (n, str'), w1) ->
  exists d,
    checked_sendrecv fuel str len sendMode msg w =
      (Ok str', World (net w1) (trace w1 ++ d)) /\
    (n = len /\ d = [] \/ n <> len /\ d = [EvStderr (msg n)]).
Proof.
  intros Hrun. destruct (Z.eq_dec n len) as [->|Hne].
  - exists []. split; [|left; auto].
    rewrite (checked_sendrecv_full _ _ _ _ _ _ _ _ Hrun), app_nil_r.
    destruct w1; reflexivity.
  - exists [EvStderr (msg n)]. split; [|right; auto].
    apply checked_sendrecv_short; assumption.
Qed.

Lemma is_send_not_recv (evs : list event) :
  Forall (fun e => is_send e = true) evs ->
  Forall (fun e => is_recv e = false) evs.
Proof.
  intros Hsend. eapply Forall_impl; [exact Hsend|].
  intros e. destruct e; cbn; congruence.
Qed.

Lemma sent_stderr (msg : string) : sent [EvStderr msg] = [].
Proof. reflexivity. Qed.

(** The service, once it holds a token that is not its own. *)
Lemma child_refuses fuel port listeningFD connectedFD (w : world conn)
    n id w1 token :
  sendrecv fuel (replicate (Z.to_nat (ID_LEN + 1)) 0) ID_LEN false w =
    (Ok (n, id), w1) ->
  Buf.cstr id = Some token ->
  token <> chars "otp_enc" ->
  exists o w2 evs,
    child fuel port listeningFD connectedFD w = (o, w2) /\
    trace w2 = trace w1 ++ evs /\
    Forall (fun e => is_recv e = false) evs /\
    (exists k, sent evs = take k (chars "FAIL")) /\
    (o = Spin \/
     o = Killed /\ last evs = Some EvSigpipe \/
     o = Exit 0 /\
     (sent evs = chars "FAIL" \/
      exists m, m <> AUTH_LEN /\ In (EvStderr (only_sent port m)) evs)) /\
    (forall Inv : conn -> Prop,
       send_goes_on Inv -> Inv (net w1) -> (Z.to_nat AUTH_LEN < fuel)%nat ->
       o = Exit 0 /\ sent evs = chars "FAIL").
Proof.
  intros Hrecv Hcstr Hne.
  destruct (checked_sendrecv_Ok fuel _ _ _ (only_received port) _ _ _ _ Hrecv)
    as (d1 & Hchk & Hd1).
  assert (Fd1 : Forall (fun e => is_recv e = false) d1 /\ sent d1 = []).
  { destruct Hd1 as [[_ ->]|[_ ->]]; split;
      try reflexivity; repeat constructor. }
  destruct Fd1 as [Fd1 Sd1].
  unfold child.
  rewrite (bind_eq_Ok _ _ _ _ _ (alloc_pos (ID_LEN + 1) w eq_refl)).
  rewrite (bind_eq_Ok _ _ _ _ _ Hchk).
  set (w1' := World (net w1) (trace w1 ++ d1)).
  rewrite (bind_eq_Ok _ _ _ _ _ (alloc_pos (AUTH_LEN + 1) w1' eq_refl)).
  rewrite (bind_eq_Ok _ _ _ [0; 0; 0; 0; 0] w1') by reflexivity.
  rewrite (bind_eq_Ok _ _ _ false w1')
    by (unfold strcmp_eq; rewrite Hcstr; cbn [option_map defined];
        rewrite bool_decide_eq_false_2 by exact Hne; reflexivity).
  rewrite (bind_eq_Ok _ _ _ (literal "FAIL") w1') by reflexivity.
  destruct (sendrecv_send_trace fuel (literal "FAIL") AUTH_LEN w1')
    as (o & w2 & evs & k & Hrun & Htr & Hsend & Hsent & Hk & Ho);
    [apply Z.leb_le; reflexivity|].
  assert (Hk4 : (k <= 4)%nat) by (unfold AUTH_LEN in Hk; lia).
  assert (Hprefix : sent evs = take k (chars "FAIL")).
  { rewrite Hsent. unfold literal. apply take_app_le. exact Hk4. }
  cbn [trace w1'] in Htr.
  destruct Ho as [->|[[-> Hlast]|(m & -> & Hfull)]].
  2:{ (* the send raised SIGPIPE *)
    exists Killed, w2, (d1 ++ evs).
    split.
    { apply bind_eq_Killed. unfold checked_sendrecv.
      apply bind_eq_Killed. exact Hrun. }
    split; [rewrite Htr, app_assoc; reflexivity|].
    split; [apply Forall_app; split;
            [exact Fd1 | apply is_send_not_recv, Hsend]|].
    split; [exists k; rewrite sent_app, Sd1; exact Hprefix|].
    split.
    { right. left. split; [reflexivity|].
      destruct evs as [|e evs]; [discriminate|].
      rewrite last_app, Hlast. reflexivity. }
    intros Inv Hgo Hinv Hfuel. exfalso.
    destruct (sendrecv_send_goes_on Inv fuel (literal "FAIL") AUTH_LEN w1'
                Hgo Hinv) as (w' & Hrun' & _);
      [split; [discriminate | apply Z.leb_le; reflexivity] | exact Hfuel |].
    rewrite Hrun in Hrun'. discriminate. }
  - (* the send is still looping *)
    exists Spin, w2, (d1 ++ evs).
    split.
    { apply bind_eq_Spin. unfold checked_sendrecv.
      apply bind_eq_Spin. exact Hrun. }
    split; [rewrite Htr, app_assoc; reflexivity|].
    split; [apply Forall_app; split;
            [exact Fd1 | apply is_send_not_recv, Hsend]|].
    split; [exists k; rewrite sent_app, Sd1; exact Hprefix|].
    split; [left; reflexivity|].
    intros Inv Hgo Hinv Hfuel. exfalso.
    destruct (sendrecv_send_goes_on Inv fuel (literal "FAIL") AUTH_LEN w1'
                Hgo Hinv) as (w' & Hrun' & _);
      [split; [discriminate | apply Z.leb_le; reflexivity] | exact Hfuel |].
    rewrite Hrun in Hrun'. discriminate.
  - (* the send returned m *)
    destruct (checked_sendrecv_Ok fuel _ _ _ (only_sent port) _ _ _ _ Hrun)
      as (d2 & Hchk2 & Hd2).
    assert (Fd2 : Forall (fun e => is_recv e = false) d2 /\ sent d2 = []).
    { destruct Hd2 as [[_ ->]|[_ ->]]; split;
        try reflexivity; repeat constructor. }
    destruct Fd2 as [Fd2 Sd2].
    exists (Exit 0),
      (World (net w2)
             (((trace w2 ++ d2) ++ [EvClose listeningFD])
              ++ [EvClose connectedFD])),
      (d1 ++ evs ++ d2 ++ [EvClose listeningFD; EvClose connectedFD]).
    split.
    { rewrite (bind_eq_Ok _ _ _ _ _ Hchk2).
      rewrite (bind_eq_Ok _ _ _ false (World (net w2) (trace w2 ++ d2)))
        by reflexivity.
      reflexivity. }
    split.
    { cbn [trace]. rewrite Htr. rewrite <- !app_assoc. reflexivity. }
    split.
    { repeat (apply Forall_app; split); try assumption;
        [apply is_send_not_recv, Hsend | repeat constructor]. }
    split.
    { exists k. rewrite !sent_app, Sd1, Sd2. cbn [app].
      change (sent [EvClose listeningFD; EvClose connectedFD]) with (@nil Z).
      rewrite app_nil_r. exact Hprefix. }
    assert (Hall : m = AUTH_LEN ->
                   sent (d1 ++ evs ++ d2 ++ [EvClose listeningFD;
                                             EvClose connectedFD])
                   = chars "FAIL").
    { intros Hm. destruct Hd2 as [[_ ->]|[Hm' _]]; [|contradiction].
      rewrite !sent_app, Sd1. cbn [app].
      change (sent ([] ++ [EvClose listeningFD; EvClose connectedFD]))
        with (@nil Z).
      rewrite app_nil_r, Hprefix.
      specialize (Hfull Hm). unfold AUTH_LEN in Hfull.
      assert (k = 4%nat) as -> by lia. reflexivity. }
    split.
    + right. right. split; [reflexivity|].
      destruct Hd2 as [[Hm Hd2]|[Hm ->]].
      * left. apply Hall, Hm.
      * right. exists m. split; [exact Hm|].
        apply in_or_app. right. apply in_or_app. right. left. reflexivity.
    + intros Inv Hgo Hinv Hfuel. split; [reflexivity|]. apply Hall.
      destruct (sendrecv_send_goes_on Inv fuel (literal "FAIL") AUTH_LEN w1'
                  Hgo Hinv) as (w' & Hrun' & _);
        [split; [discriminate | apply Z.leb_le; reflexivity] | exact Hfuel |].
      rewrite Hrun in Hrun'. congruence.
Qed.

(** The client, once it holds an answer that is not "PASS". *)
Lemma main_exchange_aborts fuel port textLen keyLen sockFD
    (ciphertext key : list Z) (w : world conn) id w1 n auth w2 result :
  checked_sendrecv fuel (literal "otp_dec") ID_LEN true
    (short_transfer "id were sent to" port) w = (Ok id, w1) ->
  sendrecv fuel (replicate (Z.to_nat (AUTH_LEN + 1)) 0) AUTH_LEN false w1 =
    (Ok (n, auth), w2) ->
  Buf.cstr auth = Some result ->
  result <> chars "PASS" ->
  exists evs,
    main_exchange fuel port textLen keyLen sockFD ciphertext key w =
      (Exit 2, World (net w2) (trace w2 ++ evs)) /\
    Forall (fun e => is_network e = false) evs.
Proof.
  intros Hid Hauth Hcstr Hne.
  destruct (checked_sendrecv_Ok fuel _ _ _
              (short_transfer "auth were received from" port) _ _ _ _ Hauth)
    as (d & Hchk & Hd).
  unfold main_exchange.
  rewrite (bind_eq_Ok _ _ _ _ _ Hid).
  rewrite (bind_eq_Ok _ _ _ _ _ (alloc_pos (AUTH_LEN + 1) w1 eq_refl)).
  rewrite (bind_eq_Ok _ _ _ _ _ Hchk).
  rewrite (bind_eq_Ok _ _ _ false (World (net w2) (trace w2 ++ d)))
    by (unfold strcmp_eq; rewrite Hcstr; cbn [option_map defined];
        rewrite bool_decide_eq_false_2 by exact Hne; reflexivity).
  cbn [negb].
  exists (d ++ [EvStderr (not_authenticated port)]).
  split; [cbn; rewrite <- app_assoc; reflexivity|].
  apply Forall_app. split; [|repeat constructor].
  destruct Hd as [[_ ->]|[_ ->]]; repeat constructor.
Qed.

End Admission.

(** C4: a session whose identity token, as the service receives it, is not
    "otp_enc". The service receives nothing more and sends nothing but the
    bytes of "FAIL": all four of them, before it closes its descriptors and
    ends, on a connection that keeps taking what is sent, and a part of
    them where the send is cut short: by a failure, which is reported on
    standard error before the process closes and ends, or by SIGPIPE, which
    ends the process inside the call of [send]. The client, holding an
    answer that is not "PASS", makes no further socket call: it reports the
    refusal and ends with [exit(2)]. *)
Theorem wrong_token_is_refused {conn : Type} `{Socket conn} :
  (forall fuel port listeningFD connectedFD (w : world conn) n id w1 token,
     sendrecv fuel (replicate (Z.to_nat (ID_LEN + 1)) 0) ID_LEN false w =
       (Ok (n, id), w1) ->
     Buf.cstr id = Some token ->
     token <> chars "otp_enc" ->
     exists o w2 evs,
       child fuel port listeningFD connectedFD w = (o, w2) /\
       trace w2 = trace w1 ++ evs /\
       Forall (fun e => is_recv e = false) evs /\
       (exists k, sent evs = take k (chars "FAIL")) /\
       (o = Spin \/
        o = Killed /\ last evs = Some EvSigpipe \/
        o = Exit 0 /\
        (sent evs = chars "FAIL" \/
         exists m, m <> AUTH_LEN /\ In (EvStderr (only_sent port m)) evs)) /\
       (forall Inv : conn -> Prop,
          send_goes_on Inv -> Inv (net w1) ->
          (Z.to_nat AUTH_LEN < fuel)%nat ->
          o = Exit 0 /\ sent evs = chars "FAIL"))
  /\
  (forall fuel port textLen keyLen sockFD (ciphertext key : list Z)
          (w : world conn) id w1 n auth w2 result,
     checked_sendrecv fuel (literal "otp_dec") ID_LEN true
       (short_transfer "id were sent to" port) w = (Ok id, w1) ->
     sendrecv fuel (replicate (Z.to_nat (AUTH_LEN + 1)) 0) AUTH_LEN false w1 =
       (Ok (n, auth), w2) ->
     Buf.cstr auth = Some result ->
     result <> chars "PASS" ->
     exists evs,
       main_exchange fuel port textLen keyLen sockFD ciphertext key w =
         (Exit 2, World (net w2) (trace w2 ++ evs)) /\
       Forall (fun e => is_network e = false) evs).
Proof.
  split.
  - intros. eapply child_refuses; eassumption.
  - intros. eapply main_exchange_aborts; eassumption.
Qed.

Lemma wrong_token_is_refused_witness :
  (exists o w2 evs,
     child 10 55555 3 4 (closed_after [chars "otp_dec"]) = (o, w2) /\
     trace w2 =
       trace (World (Wire [] Closed []) [EvRecv (chars "otp_dec")]) ++ evs /\
     Forall (fun e => is_recv e = false) evs /\
     (exists k, sent evs = take k (chars "FAIL")) /\
     (o = Spin \/
      o = Killed /\ last evs = Some EvSigpipe \/
      o = Exit 0 /\
      (sent evs = chars "FAIL" \/
       exists m, m <> AUTH_LEN /\ In (EvStderr (only_sent 55555 m)) evs)) /\
     (o = Exit 0 /\ sent evs = chars "FAIL"))
  /\
  (exists evs,
     main_exchange 10 55555 5 6 3 (literal "DTCXS") (literal "WORLDS")
       (closed_after [chars "FAIL"]) =
       (Exit 2,
        World (net (World (Wire [] Closed [])
                          [EvSend (chars "otp_dec"); EvRecv (chars "FAIL")]))
              (trace (World (Wire [] Closed [])
                            [EvSend (chars "otp_dec"); EvRecv (chars "FAIL")])
               ++ evs)) /\
     Forall (fun e => is_network e = false) evs).
Proof.
  split.
  - destruct (proj1 (wrong_token_is_refused (conn := wire)) 10%nat 55555 3 4
                (closed_after [chars "otp_dec"]) 7 (literal "otp_dec")
                (World (Wire [] Closed []) [EvRecv (chars "otp_dec")])
                (chars "otp_dec"))
      as (o & w2 & evs & Hrun & Htr & Hrecv & Hsent & Hend & Hgo).
    + vm_compute. reflexivity.
    + vm_compute. reflexivity.
    + vm_compute. discriminate.
    + exists o, w2, evs. repeat (split; [assumption|]).
      apply (Hgo (fun c : wire => outbox c = []));
        [exact wire_send_goes_on | reflexivity | vm_compute; lia].
  - apply (proj2 (wrong_token_is_refused (conn := wire)) 10%nat 55555 5 6 3
             (literal "DTCXS") (literal "WORLDS")
             (closed_after [chars "FAIL"]) (literal "otp_dec")
             (World (Wire [chars "FAIL"] Closed []) [EvSend (chars "otp_dec")])
             4 (literal "FAIL")
             (World (Wire [] Closed [])
                    [EvSend (chars "otp_dec"); EvRecv (chars "FAIL")])
             (chars "FAIL")).
    + vm_compute. reflexivity.
    + vm_compute. reflexivity.
    + vm_compute. reflexivity.
    + vm_compute. discriminate.
Defined.

(** The same refusal on a connection that the client has reset after three
    bytes of its token: the receive is cut short and reported, and the
    [send] of the answer raises SIGPIPE, which ends the child there, with
    no diagnostic, [close] or [exit]. *)
Example reset_connection_kills_child :
  child 20 55555 3 4 (World (Wire [chars "otp"] Broken [Sigpipe]) []) =
    (Killed,
     World (Wire [] Broken [])
           [EvRecv (chars "otp"); EvRecvErr;
            EvStderr (only_received 55555 3); EvSigpipe]).
Proof. vm_compute. reflexivity. Qed.

(** ** Short transfers *)

Section ShortTransfers.

Context {conn : Type} `{Socket conn}.

Ltac no_exit_step :=
  first [ apply no_exit_ret | apply no_exit_defined | apply no_exit_alloc
        | apply no_exit_checked_sendrecv | apply no_exit_emit
        | apply no_exit_bind; [|intros ?] ].

Lemma no_exit_length_field (n : Z) : no_exit (conn := conn) (length_field n).
Proof. unfold length_field. repeat no_exit_step. Qed.

(** The frames after admission, on either side: nothing there ends the
    process, whatever the transfers return. *)
Lemma no_exit_child_payload fuel port :
  no_exit (conn := conn) (child_payload fuel port).
Proof.
  unfold child_payload. do 20 try no_exit_step.
  match goal with r : (_ * _ * _)%type |- _ => destruct r as [[? ?] ?] end.
  repeat no_exit_step.
Qed.

Lemma no_exit_main_payload fuel port textLen keyLen (ciphertext key : list Z) :
  no_exit (conn := conn)
    (main_payload fuel port textLen keyLen ciphertext key).
Proof.
  unfold main_payload.
  repeat first [ apply no_exit_length_field | no_exit_step ].
Qed.

(** The one [exit] of the child process is the one at its end. *)
Lemma child_exit_is_the_end fuel port listeningFD connectedFD
    (w : world conn) c w' :
  child fuel port listeningFD connectedFD w = (Exit c, w') ->
  c = 0 /\ exists tr, trace w' = tr ++ [EvClose listeningFD;
                                        EvClose connectedFD].
Proof.
  unfold child. intros Hrun.
  repeat
    match type of Hrun with
    | bind (close listeningFD) _ _ = _ => fail 1
    | bind _ _ _ = _ =>
        let Hm := fresh "Hm" in
        apply bind_Exit in Hrun as [Hrun|(? & ? & Hm & Hrun)];
        [ exfalso; revert Hrun;
          first [ apply no_exit_alloc | apply no_exit_checked_sendrecv
                | apply no_exit_defined
                | apply no_exit_when, no_exit_child_payload ]
        | clear Hm ]
    end.
  cbn in Hrun. injection Hrun as <- <-. split; [reflexivity|].
  eexists. cbn [trace]. rewrite <- app_assoc. reflexivity.
Qed.

(** The one [exit] of the client's exchange is the refusal of admission. *)
Lemma main_exchange_exit_is_refusal fuel port textLen keyLen sockFD
    (ciphertext key : list Z) (w : world conn) c w' :
  main_exchange fuel port textLen keyLen sockFD ciphertext key w =
    (Exit c, w') ->
  c = 2 /\ exists tr, trace w' = tr ++ [EvStderr (not_authenticated port)].
Proof.
  unfold main_exchange. intros Hrun.
  do 4 (apply bind_Exit in Hrun as [Hrun|(? & ? & _ & Hrun)];
        [ exfalso; revert Hrun;
          first [ apply no_exit_alloc | apply no_exit_checked_sendrecv
                | apply no_exit_defined ] | ]).
  apply bind_Exit in Hrun as [Hrun|(? & ? & _ & Hrun)].
  - match type of Hrun with
    | (if negb ?b then _ else _) _ = _ => destruct b; cbn [negb] in Hrun
    end.
    + exfalso. revert Hrun. apply no_exit_main_payload.
    + cbn in Hrun. injection Hrun as <- <-. split; [reflexivity|].
      eexists. reflexivity.
  - exfalso. revert Hrun. repeat no_exit_step.
Qed.

End ShortTransfers.

Lemma sendrecv_result_in_range_witness :
  sendrecv 10 (replicate 8 0) ID_LEN false (broken_after [chars "otp"]) =
    (Ok (3, chars "otp" ++ [0; 0; 0; 0; 0]),
     World (Wire [] Broken []) [EvRecv (chars "otp"); EvRecvErr])
  /\ (0 <= 3 <= Z.max 0 ID_LEN /\ (0 <= ID_LEN -> 0 <= 3 <= ID_LEN)).
Proof.
  assert (Hrun : sendrecv 10 (replicate 8 0) ID_LEN false
                   (broken_after [chars "otp"]) =
                 (Ok (3, chars "otp" ++ [0; 0; 0; 0; 0]),
                  World (Wire [] Broken []) [EvRecv (chars "otp"); EvRecvErr]))
    by (vm_compute; reflexivity).
  split; [exact Hrun|].
  exact (sendrecv_result_in_range 10 (replicate 8 0) ID_LEN false
           (broken_after [chars "otp"]) 3 (chars "otp" ++ [0; 0; 0; 0; 0])
           (World (Wire [] Broken []) [EvRecv (chars "otp"); EvRecvErr]) Hrun).
Defined.

(** ** What a transfer leaves: the buffer and the trace *)

Section ReceiveSafe.

Context {conn : Type} `{Socket conn} `{!SocketLaws conn}.

Lemma blit_lookup_ge (str : list Z) (off : Z) (bs str' : list Z) (i : nat) :
  Buf.blit str off bs = Some str' ->
  (Z.to_nat off + length bs <= i)%nat -> str' !! i = str !! i.
Proof.
  unfold Buf.blit.
  destruct (Z.leb_spec 0 off);
    destruct (Z.leb_spec (off + Z.of_nat (length bs)) (Z.of_nat (length str)));
    cbn; try discriminate.
  intros [= <-] Hi.
  rewrite lookup_app_r by (rewrite length_take; lia).
  rewrite lookup_app_r by (rewrite length_take; lia).
  rewrite lookup_drop, length_take. f_equal. lia.
Qed.

Lemma blit_drop_ge (str : list Z) (off : Z) (bs str' : list Z) (k : nat) :
  Buf.blit str off bs = Some str' ->
  (Z.to_nat off + length bs <= k)%nat -> drop k str' = drop k str.
Proof.
  intros Hb Hk. apply list_eq. intros i. rewrite !lookup_drop.
  apply (blit_lookup_ge _ _ _ _ _ Hb). lia.
Qed.

Lemma cstr_of_nul (str : list Z) :
  forall n : nat, str !! n = Some 0 ->
    exists s, Buf.cstr str = Some s /\ (length s <= n)%nat.
Proof.
  induction str as [|c str IH]; intros n Hn; [discriminate|].
  cbn [Buf.cstr]. destruct (Z.eqb_spec c 0) as [->|Hc].
  - exists []. split; [reflexivity | cbn; lia].
  - destruct n as [|n]; [cbn in Hn; congruence|].
    destruct (IH n Hn) as (s & Hs & Hlen). rewrite Hs.
    exists (c :: s). split; [reflexivity | cbn; lia].
Qed.

(** The receive loop keeps inside [str[0 .. len]]: the characters from
    [total] to [len] stay NUL and what lies behind is not touched. *)
Lemma recv_loop_safe fuel :
  forall (str : list Z) len total (w : world conn),
    0 <= total <= len -> len + 1 <= Z.of_nat (length str) ->
    (forall i : nat, total <= Z.of_nat i <= len -> str !! i = Some 0) ->
    fst (sendrecv_loop fuel str len total (len - total) false w) <> Undef /\
    forall n str' w',
      sendrecv_loop fuel str len total (len - total) false w =
        (Ok (n, str'), w') ->
      total <= n <= len /\ length str' = length str /\
      (forall i : nat, n <= Z.of_nat i <= len -> str' !! i = Some 0) /\
      drop (Z.to_nat (len + 1)) str' = drop (Z.to_nat (len + 1)) str.
Proof.
  induction fuel as [|fuel IH]; intros str len total w Htot Hstr Hzero.
  { split; [discriminate|]. intros n str' w'. discriminate. }
  rewrite sendrecv_loop_S.
  destruct (Z.ltb_spec total len) as [Hlt|Hge].
  2:{ split; [discriminate|]. intros n str' w' [= <- <- <-].
      repeat split; try lia. exact Hzero. }
  unfold bind at 1 2. unfold sock_recv.
  destruct (sys_recv (net w) (len - total)) as [[bs|] c] eqn:Erecv.
  2:{ change (-1 =? -1) with true. cbv iota.
      split; [discriminate|]. intros n str' w' [= <- <- <-].
      repeat split; try lia. exact Hzero. }
  pose proof (sys_recv_le (net w) (len - total) bs c ltac:(lia) Erecv)
    as Hbs.
  destruct (blit_defined str total bs) as [str1 Hstr1]; [lia | lia |].
  rewrite Hstr1.
  destruct (Z.eqb_spec (Z.of_nat (length bs)) (-1)) as [|_]; [lia|].
  replace (len - total - Z.of_nat (length bs))
    with (len - (total + Z.of_nat (length bs))) by lia.
  pose proof (blit_length _ _ _ _ Hstr1) as Hlen1.
  destruct (IH str1 len (total + Z.of_nat (length bs))
              (World c (trace w ++ [EvRecv bs]))) as [Hsafe Hres];
    [lia | lia | |].
  { intros i Hi. rewrite (blit_lookup_ge _ _ _ _ _ Hstr1) by lia.
    apply Hzero. lia. }
  split; [exact Hsafe|].
  intros n str' w' Hrun. destruct (Hres n str' w' Hrun) as (Hn & Hl & Hz & Hd).
  split; [lia|]. split; [congruence|]. split; [exact Hz|].
  rewrite Hd. apply (blit_drop_ge _ _ _ _ _ Hstr1). lia.
Qed.

End ReceiveSafe.

Section TransferFacts.

Context {conn : Type} `{Socket conn} `{!SocketLaws conn}.

Lemma received_app (tr1 tr2 : list event) :
  received (tr1 ++ tr2) = received tr1 ++ received tr2.
Proof. unfold received. rewrite map_app, concat_app. reflexivity. Qed.










End TransferFacts.

(** [length_field] as a function of the length. *)
Lemma length_field_eq {conn : Type} (n : Z) (w : world conn) :
  length_field n w = (Ok (length_field_buf n), w).
Proof.
  unfold length_field.
  rewrite (bind_eq_Ok _ _ _ _ _ (alloc_pos (BUF_LEN + 1) w eq_refl)).
  rewrite (bind_eq_Ok _ _ _ (replicate 10 0) w) by reflexivity.
  apply defined_Some. unfold length_field_buf. cbv zeta.
  set (digits := take (Z.to_nat BUF_LEN) (chars (dec n))).
  assert (Hlen : (length digits <= 9)%nat)
    by (unfold digits; rewrite length_take; change (Z.to_nat BUF_LEN) with 9%nat; lia).
  rewrite blit_spec; [|lia|rewrite length_app, length_replicate; cbn; lia].
  change (Z.to_nat 0) with 0%nat. rewrite take_0. cbn [app].
  rewrite <- app_assoc. do 2 f_equal. cbn [app].
  rewrite drop_replicate, length_app. cbn [length].
  replace (10 - length digits)%nat with (S (10 - (length digits + 1)))
    by lia.
  reflexivity.
Qed.

Lemma length_field_buf_length (n : Z) : length (length_field_buf n) = 10%nat.
Proof.
  unfold length_field_buf. cbv zeta.
  rewrite length_app, length_replicate, length_take.
  change (Z.to_nat BUF_LEN) with 9%nat. lia.
Qed.




(** ** Short transfers: reported, and the exchange goes on *)

Section ShortClient.

Context {conn : Type} `{Socket conn} `{!SocketLaws conn}.







End ShortClient.

Section ShortService.

Context {conn : Type} `{Socket conn} `{!SocketLaws conn}.



End ShortService.



(** ** More on [encrypt] *)

Section EncryptMore.

Lemma obind_Some {A B : Type} (m : option A) (k : A -> option B) (b : B) :
  obind m k = Some b -> exists a, m = Some a /\ k a = Some b.
Proof. destruct m as [a|]; cbn; [eauto | discriminate]. Qed.

Lemma store_length (b : list Z) (i v : Z) (b' : list Z) :
  Buf.store b i v = Some b' -> length b' = length b.
Proof.
  unfold Buf.store. destruct (Buf.in_bounds b i); [|discriminate].
  intros [= <-]. apply length_insert.
Qed.

Lemma cond_store_length (c : bool) (b : list Z) (i v : Z) (b' : list Z) :
  (if c then Buf.store b i v else Some b) = Some b' -> length b' = length b.
Proof.
  destruct c; [apply store_length | intros [= <-]; reflexivity].
Qed.

(** A round that is defined works inside the two input buffers and keeps
    the lengths of all three. *)
Lemma encrypt_step_Some (i : Z) (plain key cipher plain' key' cipher' : list Z) :
  encrypt_step i plain key cipher = Some (plain', key', cipher') ->
  0 <= i < Z.of_nat (length plain) /\ 0 <= i < Z.of_nat (length key) /\
  length plain' = length plain /\ length key' = length key /\
  length cipher' = length cipher.
Proof.
  unfold encrypt_step. intros Hstep.
  apply obind_Some in Hstep as (p0 & Hp0 & Hstep).
  apply obind_Some in Hstep as (plain1 & Hplain1 & Hstep).
  apply obind_Some in Hstep as (k0 & Hk0 & Hstep).
  apply obind_Some in Hstep as (key1 & Hkey1 & Hstep).
  apply obind_Some in Hstep as (cP & _ & Hstep).
  apply obind_Some in Hstep as (cK & _ & Hstep).
  apply obind_Some in Hstep as (cipher1 & Hc1 & Hstep).
  apply obind_Some in Hstep as (c0 & _ & Hstep).
  apply obind_Some in Hstep as (cipher2 & Hc2 & Hstep).
  injection Hstep as <- <- <-.
  apply load_Some in Hp0, Hk0.
  apply cond_store_length in Hplain1, Hkey1, Hc2.
  apply store_length in Hc1.
  repeat split; try lia; congruence.
Qed.

Lemma encrypt_loop_Some (n : nat) :
  forall (i : Z) (plain key cipher plain' key' cipher' : list Z),
    0 <= i <= Z.of_nat (length plain) -> i <= Z.of_nat (length key) ->
    encrypt_loop n i plain key cipher = Some (plain', key', cipher') ->
    i + Z.of_nat n <= Z.of_nat (length plain) /\
    i + Z.of_nat n <= Z.of_nat (length key).
Proof.
  induction n as [|n IH];
    intros i plain key cipher plain' key' cipher' Hi Hik Hrun.
  - lia.
  - cbn [encrypt_loop] in Hrun.
    apply obind_Some in Hrun as ([[plain1 key1] cipher1] & Hstep & Hrun).
    apply encrypt_step_Some in Hstep as (Hp & Hk & Lp & Lk & _).
    apply IH in Hrun; lia.
Qed.

Lemma memset_Some (b : list Z) (v n : Z) (b' : list Z) :
  Buf.memset b v n = Some b' -> 0 <= n <= Z.of_nat (length b).
Proof.
  unfold Buf.memset.
  destruct (Z.leb_spec 0 n); destruct (Z.leb_spec n (Z.of_nat (length b)));
    cbn; try discriminate. lia.
Qed.

End EncryptMore.

(** When [encrypt] is defined. *)
Lemma encrypt_defined (plain key cipher : list Z) (len : Z) :
  0 <= len ->
  (is_Some (encrypt plain key cipher len) <->
   len <= Z.of_nat (length plain) /\ len <= Z.of_nat (length key) /\
   len + 1 <= Z.of_nat (length cipher)).
Proof.
  intros Hlen. split.
  - intros [[[plain' key'] cipher'] Hrun]. unfold encrypt in Hrun.
    apply obind_Some in Hrun as (cipher1 & Hset & Hrun).
    apply memset_Some in Hset.
    apply encrypt_loop_Some in Hrun; lia.
  - intros (Hp & Hk & Hc).
    pose proof (encrypt_buffers (take (Z.to_nat len) plain)
                  (take (Z.to_nat len) key)
                  (drop (Z.to_nat len) plain) (drop (Z.to_nat len) key)
                  cipher) as H.
    rewrite !take_drop, !length_take in H.
    replace (Z.of_nat (Z.to_nat len `min` length plain)) with len in H by lia.
    rewrite H by lia. eexists. reflexivity.
Qed.

(** X1: [encrypt] is defined exactly when the text and the key buffer hold
    [len] characters and the cipher buffer [len + 1]: a key shorter than the
    text, which the function does not test for, is read past its end. *)
Theorem encrypt_defined_iff (plain key cipher : list Z) (len : Z) :
  0 <= len ->
  (is_Some (encrypt plain key cipher len) <->
   len <= Z.of_nat (length plain) /\ len <= Z.of_nat (length key) /\
   len + 1 <= Z.of_nat (length cipher)).
Proof.
  exact (encrypt_defined plain key cipher len).
Qed.

Lemma encrypt_defined_iff_witness :
  is_Some (encrypt (literal "HELLO") (literal "KEY") (replicate 6 0) 5) <->
  5 <= Z.of_nat (length (literal "HELLO")) /\
  5 <= Z.of_nat (length (literal "KEY")) /\
  5 + 1 <= Z.of_nat (length (replicate 6 0)).
Proof. apply (encrypt_defined_iff (literal "HELLO") (literal "KEY")). lia. Defined.

Section CipherText.

Lemma despace_char (c : Z) : is_char c -> -128 <= despace c <= 127.
Proof. unfold is_char, despace. destruct (c =? 32); lia. Qed.

(** Whatever two [char]s a round combines, what it writes is not NUL. *)
Lemma enc_char_cipher_char (t k : Z) :
  is_char t -> is_char k -> cipher_char (enc_char t k).
Proof.
  intros Ht Hk. apply despace_char in Ht, Hk.
  unfold enc_char, cipher_char. cbv zeta.
  set (s := despace t - 64 + (despace k - 64)).
  assert (Hr : -26 <= Z.rem s 27 <= 26)
    by (pose proof (Z.rem_bound_abs s 27 ltac:(lia)); lia).
  rewrite to_char_small by lia.
  destruct (Z.eqb_spec (Z.rem s 27 + 64) 64); [left; reflexivity|].
  right. lia.
Qed.

Lemma cstr_app (l rest : list Z) :
  Forall (fun c => c <> 0) l -> Buf.cstr (l ++ 0 :: rest) = Some l.
Proof.
  induction 1 as [|c l Hc _ IH]; [reflexivity|].
  cbn [app Buf.cstr]. destruct (Z.eqb_spec c 0); [contradiction|].
  rewrite IH. reflexivity.
Qed.

Lemma zip_enc_char_cipher (text key : list Z) :
  Forall is_char text -> Forall is_char key ->
  Forall cipher_char (zip_with enc_char text key).
Proof.
  intros Ht. revert key.
  induction Ht as [|t text Ht _ IH]; intros key Hk; [constructor|].
  destruct Hk as [|k key Hk Hks]; [constructor|].
  cbn [zip_with]. constructor; [apply enc_char_cipher_char; assumption|].
  apply IH, Hks.
Qed.

Lemma enc_char_comm (t k : Z) : enc_char t k = enc_char k t.
Proof.
  unfold enc_char. rewrite (Z.add_comm (despace t - 64)). reflexivity.
Qed.

Lemma zip_enc_char_comm (text key : list Z) :
  zip_with enc_char text key = zip_with enc_char key text.
Proof.
  revert key. induction text as [|t text IH]; intros [|k key];
    try reflexivity.
  cbn [zip_with]. rewrite enc_char_comm, IH. reflexivity.
Qed.

Lemma despace_idem (c : Z) : despace (despace c) = despace c.
Proof.
  unfold despace. destruct (Z.eqb_spec c 32) as [->|Hc]; [reflexivity|].
  destruct (Z.eqb_spec c 32); [contradiction | reflexivity].
Qed.

Lemma enc_char_despace (t k : Z) :
  enc_char (despace t) (despace k) = enc_char t k.
Proof. unfold enc_char. rewrite !despace_idem. reflexivity. Qed.

Lemma zip_enc_char_despace (text key : list Z) :
  zip_with enc_char (map despace text) (map despace key) =
  zip_with enc_char text key.
Proof.
  revert key. induction text as [|t text IH]; intros [|k key];
    try reflexivity.
  cbn [map zip_with]. rewrite enc_char_despace, IH. reflexivity.
Qed.

Lemma enc_char_space_key (t : Z) : in_sigma t -> enc_char t 32 = t.
Proof.
  intros Ht. rewrite enc_char_sigma by (assumption || (left; reflexivity)).
  change (code_index 32) with 0. rewrite Z.add_0_r.
  rewrite Z.mod_small by (pose proof (code_index_range t Ht); lia).
  apply code_symbol_index, Ht.
Qed.

End CipherText.

(** X2: whatever [char]s the text and the key hold, the ciphertext that
    [encrypt] leaves is a C string of exactly [len] characters: no round
    writes a NUL, every character written is a space or lies between '&'
    and 'Z', and the NUL that ends the string is at index [len]. *)
Theorem encrypt_ciphertext_is_string (text key pt kt cipher : list Z) :
  length key = length text ->
  (length text + 1 <= length cipher)%nat ->
  Forall is_char text -> Forall is_char key ->
  exists plain' key' cipher' out,
    encrypt (text ++ pt) (key ++ kt) cipher (Z.of_nat (length text)) =
      Some (plain', key', cipher') /\
    Buf.cstr cipher' = Some out /\
    length out = length text /\
    Forall cipher_char out.
Proof.
  intros Hlen Hc Ht Hk. eexists _, _, _, (zip_with enc_char text key).
  split; [apply encrypt_buffers; assumption|].
  pose proof (zip_enc_char_cipher text key Ht Hk) as Hout.
  split; [|split; [rewrite length_zip_with; lia | exact Hout]].
  apply cstr_app. eapply Forall_impl; [exact Hout|].
  intros c [->|[Hr _]]; lia.
Qed.

Lemma encrypt_ciphertext_is_string_witness :
  exists plain' key' cipher' out,
    encrypt ([104; -61; 32] ++ [0]) ([90; 32; 0] ++ [7]) [1; 1; 1; 1; 1]
            (Z.of_nat (length [104; -61; 32])) =
      Some (plain', key', cipher') /\
    Buf.cstr cipher' = Some out /\
    length out = length [104; -61; 32] /\
    Forall cipher_char out.
Proof.
  apply (encrypt_ciphertext_is_string [104; -61; 32] [90; 32; 0] [0] [7]
           [1; 1; 1; 1; 1]).
  - reflexivity.
  - cbn. lia.
  - repeat (apply List.Forall_cons; [unfold is_char; lia|]). apply List.Forall_nil.
  - repeat (apply List.Forall_cons; [unfold is_char; lia|]). apply List.Forall_nil.
Defined.

(** X3: on texts and keys over the alphabet the ciphertext is over the
    alphabet too. *)
Theorem encrypt_stays_in_sigma (text key pt kt cipher : list Z) :
  length key = length text ->
  (length text + 1 <= length cipher)%nat ->
  Forall in_sigma text -> Forall in_sigma key ->
  exists plain' key' cipher' out,
    encrypt (text ++ pt) (key ++ kt) cipher (Z.of_nat (length text)) =
      Some (plain', key', cipher') /\
    Buf.cstr cipher' = Some out /\
    length out = length text /\
    Forall in_sigma out.
Proof.
  intros Hlen Hc Ht Hk. eexists _, _, _, (zip_with enc_char text key).
  split; [apply encrypt_buffers; assumption|].
  assert (Hout : Forall in_sigma (zip_with enc_char text key)).
  { clear Hc. revert key Hlen Hk.
    induction Ht as [|t text Ht _ IH]; intros key Hlen Hk; [constructor|].
    destruct Hk as [|k key Hk Hks]; [constructor|].
    cbn [zip_with]. constructor; [|apply IH; [cbn in Hlen; lia | exact Hks]].
    rewrite enc_char_sigma by assumption. apply code_symbol_sigma.
    pose proof (Z.mod_pos_bound (code_index t + code_index k) 27). lia. }
  split; [|split; [rewrite length_zip_with; lia | exact Hout]].
  apply cstr_app. eapply Forall_impl; [exact Hout|].
  intros c [->|Hr]; lia.
Qed.

Lemma encrypt_stays_in_sigma_witness :
  exists plain' key' cipher' out,
    encrypt (chars "A B" ++ [0]) (chars "ZZZ" ++ [0]) [7; 7; 7; 7]
            (Z.of_nat (length (chars "A B"))) =
      Some (plain', key', cipher') /\
    Buf.cstr cipher' = Some out /\
    length out = length (chars "A B") /\
    Forall in_sigma out.
Proof.
  apply (encrypt_stays_in_sigma (chars "A B") (chars "ZZZ") [0] [0]
           [7; 7; 7; 7]).
  - reflexivity.
  - cbn. lia.
  - vm_compute (chars _).
    repeat (apply List.Forall_cons; [unfold in_sigma; lia|]). apply List.Forall_nil.
  - vm_compute (chars _).
    repeat (apply List.Forall_cons; [unfold in_sigma; lia|]). apply List.Forall_nil.
Defined.

(** X4: the cipher is symmetric in its two inputs: with the text used as
    key and the key as text, [encrypt] leaves the same cipher buffer. *)
Theorem encrypt_symmetric (text key pt kt pt' kt' cipher : list Z) :
  length key = length text ->
  (length text + 1 <= length cipher)%nat ->
  exists p1 k1 p2 k2 cipher',
    encrypt (text ++ pt) (key ++ kt) cipher (Z.of_nat (length text)) =
      Some (p1, k1, cipher') /\
    encrypt (key ++ kt') (text ++ pt') cipher (Z.of_nat (length text)) =
      Some (p2, k2, cipher').
Proof.
  intros Hlen Hc. eexists _, _, _, _, _.
  split; [apply encrypt_buffers; assumption|].
  rewrite <- Hlen at 1. rewrite encrypt_buffers by lia.
  rewrite zip_enc_char_comm, Hlen. reflexivity.
Qed.

Lemma encrypt_symmetric_witness :
  exists p1 k1 p2 k2 cipher',
    encrypt (chars "HELLO" ++ [0]) (chars "WORLD" ++ [83; 0]) (replicate 6 9)
            (Z.of_nat (length (chars "HELLO"))) = Some (p1, k1, cipher') /\
    encrypt (chars "WORLD" ++ [0]) (chars "HELLO" ++ [0]) (replicate 6 9)
            (Z.of_nat (length (chars "HELLO"))) = Some (p2, k2, cipher').
Proof.
  apply (encrypt_symmetric (chars "HELLO") (chars "WORLD") [0] [83; 0] [0] [0]
           (replicate 6 9)).
  - reflexivity.
  - cbn. lia.
Defined.

(** X5: a key of spaces leaves a text over the alphabet as it is: the space
    is the symbol of index 0. *)
Theorem encrypt_space_key_is_identity (text pt kt cipher : list Z) :
  (length text + 1 <= length cipher)%nat ->
  Forall in_sigma text ->
  exists plain' key' cipher',
    encrypt (text ++ pt) (replicate (length text) 32 ++ kt) cipher
            (Z.of_nat (length text)) = Some (plain', key', cipher') /\
    Buf.cstr cipher' = Some text.
Proof.
  intros Hc Ht. eexists _, _, _.
  split; [apply encrypt_buffers; [apply length_replicate | assumption]|].
  assert (Hzip : zip_with enc_char text (replicate (length text) 32) = text).
  { clear Hc. induction Ht as [|t text Ht _ IH]; [reflexivity|].
    cbn [length replicate zip_with]. rewrite IH, enc_char_space_key by assumption.
    reflexivity. }
  rewrite Hzip. apply cstr_app. eapply Forall_impl; [exact Ht|].
  intros c [->|Hr]; lia.
Qed.

Lemma encrypt_space_key_is_identity_witness :
  exists plain' key' cipher',
    encrypt (chars "A TEXT" ++ [0])
            (replicate (length (chars "A TEXT")) 32 ++ [0]) (replicate 7 0)
            (Z.of_nat (length (chars "A TEXT"))) =
      Some (plain', key', cipher') /\
    Buf.cstr cipher' = Some (chars "A TEXT").
Proof.
  apply (encrypt_space_key_is_identity (chars "A TEXT") [0] [0] (replicate 7 0)).
  - cbn. lia.
  - vm_compute (chars _).
    repeat (apply List.Forall_cons; [unfold in_sigma; lia|]). apply List.Forall_nil.
Defined.

(** X6: the spaces that a call of [encrypt] rewrites in its inputs do not
    change what a later call computes: run again on the buffers as the
    first call left them, [encrypt] leaves all three as they are. *)
Theorem encrypt_again_same (plain key cipher : list Z) (len : Z)
    (plain' key' cipher' : list Z) :
  0 <= len ->
  encrypt plain key cipher len = Some (plain', key', cipher') ->
  encrypt plain' key' cipher' len = Some (plain', key', cipher').
Proof.
  intros Hlen Hrun.
  destruct (proj1 (encrypt_defined plain key cipher len Hlen))
    as (Hp & Hk & Hc); [eexists; exact Hrun|].
  set (n := Z.to_nat len).
  assert (Hsplit : encrypt (take n plain ++ drop n plain)
                     (take n key ++ drop n key) cipher
                     (Z.of_nat (length (take n plain))) =
                   Some (plain', key', cipher')).
  { rewrite !take_drop, length_take.
    replace (Z.of_nat (n `min` length plain)) with len by lia. exact Hrun. }
  rewrite encrypt_buffers in Hsplit by (rewrite !length_take; lia).
  injection Hsplit as <- <- <-.
  replace len with (Z.of_nat (length (map despace (take n plain))))
    by (rewrite length_map, length_take; lia).
  rewrite encrypt_buffers
    by (rewrite ?length_app, ?length_map, ?length_zip_with, !length_take;
        cbn; lia).
  rewrite zip_enc_char_despace.
  assert (Hid : forall l : list Z, map despace (map despace l) = map despace l).
  { intros l. rewrite map_map. apply map_ext. intros c. apply despace_idem. }
  rewrite !Hid. do 3 f_equal.
  rewrite length_map.
  change (zip_with enc_char (take n plain) (take n key) ++
          0 :: drop (length (take n plain) + 1) cipher)
    with (zip_with enc_char (take n plain) (take n key) ++
          [0] ++ drop (length (take n plain) + 1) cipher).
  rewrite app_assoc. rewrite drop_app_length'; [reflexivity|].
  rewrite length_app, length_zip_with, !length_take. cbn. lia.
Qed.

Lemma encrypt_again_same_witness :
  encrypt (literal "A@B") (literal "X@Z") [89; 32; 65; 0] 3 =
    Some (literal "A@B", literal "X@Z", [89; 32; 65; 0]).
Proof.
  apply (encrypt_again_same (literal "A B") (literal "X Z") [0; 0; 0; 0] 3).
  - lia.
  - vm_compute. reflexivity.
Defined.

(** ** The length fields: [snprintf] on one side, [atoi] on the other *)

Section LengthField.

Lemma uint_value_pos (d : Decimal.uint) :
  forall acc : positive,
    uint_value (Z.pos acc) d = Z.pos (Pos.of_uint_acc d acc).
Proof.
  induction d; intros acc; cbn [uint_value Pos.of_uint_acc];
    [reflexivity | ..];
    match goal with
    | |- uint_value ?z _ = Z.pos (Pos.of_uint_acc _ ?p) =>
        replace z with (Z.pos p) by lia
    end; apply IHd.
Qed.

Lemma uint_value_0 (d : Decimal.uint) :
  uint_value 0 d = Z.of_N (Pos.of_uint d).
Proof.
  induction d; cbn [uint_value Pos.of_uint]; [reflexivity | exact IHd | ..];
    match goal with
    | |- uint_value ?z _ = _ =>
        let v := eval vm_compute in z in change z with v
    end;
    rewrite uint_value_pos; reflexivity.
Qed.

Lemma uint_value_lower (d : Decimal.uint) :
  forall acc, 0 <= acc -> acc * 10 ^ Z.of_nat (Decimal.nb_digits d)
                          <= uint_value acc d.
Proof.
  induction d; intros acc Hacc; cbn [uint_value Decimal.nb_digits];
    [cbn; lia | ..];
    rewrite Nat2Z.inj_succ, Z.pow_succ_r by lia;
    (etransitivity; [|apply IHd; lia]);
    pose proof (Z.pow_nonneg 10 (Z.of_nat (Decimal.nb_digits d)) ltac:(lia));
    nia.
Qed.

Lemma chars_String (a : ascii) (s : string) :
  chars (String a s) = Z.of_nat (nat_of_ascii a) :: chars s.
Proof. reflexivity. Qed.

Lemma length_digits (d : Decimal.uint) :
  length (chars (NilEmpty.string_of_uint d)) = Decimal.nb_digits d.
Proof.
  induction d; cbn [NilEmpty.string_of_uint Decimal.nb_digits];
    [reflexivity | ..]; rewrite chars_String; cbn [length]; rewrite IHd;
    reflexivity.
Qed.

(** [atoi] reads the digits of a numeral as its value. *)
Lemma atoi_digits_uint (d : Decimal.uint) :
  forall acc rest,
    atoi_digits acc (chars (NilEmpty.string_of_uint d) ++ rest) =
    atoi_digits (uint_value acc d) rest.
Proof.
  induction d; intros acc rest;
    cbn [NilEmpty.string_of_uint uint_value]; [reflexivity | ..];
    rewrite chars_String; cbn [app atoi_digits];
    match goal with
    | |- (if isdigit ?c then _ else _) = _ =>
        change (isdigit c) with true; cbv iota
    end;
    rewrite IHd; do 2 f_equal;
    match goal with
    | |- context [Z.of_nat (nat_of_ascii ?a)] =>
        let v := eval vm_compute in (Z.of_nat (nat_of_ascii a)) in
        change (Z.of_nat (nat_of_ascii a)) with v
    end; lia.
Qed.

Lemma digits_all_digits (d : Decimal.uint) :
  Forall (fun c => isdigit c = true) (chars (NilEmpty.string_of_uint d)).
Proof.
  induction d; cbn [NilEmpty.string_of_uint]; [constructor | ..];
    rewrite chars_String; (constructor; [reflexivity | exact IHd]).
Qed.

(** A numeral printed by [%d] for a positive number has no leading zero. *)
Lemma to_uint_leading (p : positive) :
  match Pos.to_uint p with
  | Decimal.Nil | Decimal.D0 _ => False
  | _ => True
  end.
Proof.
  destruct (Pos.to_uint p) as [|l| | | | | | | | |] eqn:E; try exact I.
  - exact (DecimalPos.Unsigned.to_uint_nonnil p E).
  - pose proof (DecimalPos.Unsigned.of_to p) as Hof.
    pose proof (DecimalPos.Unsigned.to_of (Pos.to_uint p)) as Hto.
    rewrite Hof in Hto. cbn [N.to_uint] in Hto.
    rewrite E, DecimalFacts.unorm_D0 in Hto.
    destruct l as [|l'| | | | | | | | |] eqn:El;
      [ exact (DecimalPos.Unsigned.to_uint_nonzero p E) | ..];
      (assert (Hnn : l <> Decimal.Nil) by (subst l; discriminate);
       pose proof (DecimalFacts.nb_digits_unorm l Hnn) as Hlen;
       subst l; rewrite <- Hto in Hlen; cbn [Decimal.nb_digits] in Hlen; lia).
Qed.

(** What [%d] prints for a number that is not negative: digits, at least
    one of them, whose value as [atoi] reads it is the number. *)
Lemma dec_nonneg (n : Z) :
  0 <= n ->
  exists d, chars (dec n) = chars (NilEmpty.string_of_uint d) /\
            d <> Decimal.Nil /\ uint_value 0 d = n /\
            (n < 10 ^ 9 -> (Decimal.nb_digits d <= 9)%nat).
Proof.
  intros Hn. destruct n as [|p|p]; [| |lia].
  - exists (Decimal.D0 Decimal.Nil). repeat split; try discriminate.
    intros _. cbn. lia.
  - exists (Pos.to_uint p). unfold dec. cbn [Z.to_int NilZero.string_of_int].
    pose proof (to_uint_leading p) as Hlead.
    pose proof (uint_value_0 (Pos.to_uint p)) as Hval.
    rewrite DecimalPos.Unsigned.of_to in Hval. cbn [Z.of_N] in Hval.
    split; [|split; [|split; [exact Hval|]]].
    + unfold NilZero.string_of_uint.
      destruct (Pos.to_uint p); [contradiction | reflexivity..].
    + destruct (Pos.to_uint p); [contradiction | discriminate..].
    + intros Hlt.
      destruct (Pos.to_uint p) as [|l|l|l|l|l|l|l|l|l|l] eqn:E;
        try contradiction;
        cbn [uint_value] in Hval;
        cbn [Decimal.nb_digits];
        (match type of Hval with
         | uint_value ?a l = _ =>
             pose proof (uint_value_lower l a ltac:(lia)) as Hlow
         end;
         rewrite Hval in Hlow;
         assert (Hpow : 10 ^ Z.of_nat (Decimal.nb_digits l) < 10 ^ 9)
           by (pose proof (Z.pow_pos_nonneg 10 (Z.of_nat (Decimal.nb_digits l))
                             ltac:(lia) ltac:(lia)); nia);
         apply Z.pow_lt_mono_r_iff in Hpow; lia).
Qed.

Lemma atoi_chars_digit (c : Z) (s : list Z) :
  isdigit c = true -> atoi_chars (c :: s) = atoi_digits 0 (c :: s).
Proof.
  unfold isdigit. intros Hc. apply andb_true_iff in Hc as [H1 H2].
  apply Z.leb_le in H1, H2. cbn [atoi_chars]. unfold isspace.
  destruct (Z.eqb_spec c 32); [lia|].
  destruct (Z.leb_spec 9 c); destruct (Z.leb_spec c 13); try lia; cbn [andb orb];
    destruct (Z.eqb_spec c 45); try lia; destruct (Z.eqb_spec c 43); try lia;
    reflexivity.
Qed.

Lemma cstr_digits (l : list Z) (rest : list Z) :
  Forall (fun c => isdigit c = true) l ->
  Buf.cstr (l ++ 0 :: rest) = Some l.
Proof.
  intros Hl. apply cstr_app. eapply Forall_impl; [exact Hl|].
  intros c Hc Hz. subst c. discriminate.
Qed.

Lemma atoi_digits_upper (s : list Z) :
  forall acc, 0 <= acc ->
    0 <= atoi_digits acc s < (acc + 1) * 10 ^ Z.of_nat (length s).
Proof.
  induction s as [|c s IH]; intros acc Hacc; cbn [atoi_digits length].
  - cbn. lia.
  - rewrite Nat2Z.inj_succ, Z.pow_succ_r by lia.
    pose proof (Z.pow_pos_nonneg 10 (Z.of_nat (length s)) ltac:(lia)
                  ltac:(lia)) as Hpow.
    destruct (isdigit c) eqn:Hc; [|nia].
    unfold isdigit in Hc. apply andb_true_iff in Hc as [H1 H2].
    apply Z.leb_le in H1, H2.
    specialize (IH (10 * acc + (c - 48)) ltac:(lia)). nia.
Qed.

End LengthField.

Section LengthFieldRead.

(** [atoi] on what [%d] printed, followed by a NUL. *)
Lemma atoi_dec (n : Z) (rest : list Z) :
  0 <= n <= INT_MAX -> atoi (chars (dec n) ++ 0 :: rest) = Some n.
Proof.
  intros [Hn Hmax]. destruct (dec_nonneg n Hn) as (d & Hd & Hnil & Hval & _).
  rewrite Hd. unfold atoi.
  rewrite cstr_digits by apply digits_all_digits.
  rewrite <- (as_int_Some n) by (unfold INT_MIN; lia). f_equal.
  pose proof (digits_all_digits d) as Hall.
  pose proof (atoi_digits_uint d 0 []) as Hread.
  rewrite app_nil_r in Hread.
  destruct (chars (NilEmpty.string_of_uint d)) as [|c s] eqn:E.
  - exfalso. apply Hnil. apply DecimalFacts.nb_digits_0.
    rewrite <- length_digits, E. reflexivity.
  - rewrite atoi_chars_digit by (inversion Hall; assumption).
    rewrite Hread. exact Hval.
Qed.

Lemma length_field_buf_small (n : Z) :
  0 <= n < 10 ^ 9 ->
  exists pad,
    length_field_buf n = chars (dec n) ++ 0 :: pad /\
    wire_field n = chars (dec n) ++ pad /\
    Forall (fun c => c = 0) pad /\
    (length (chars (dec n)) + length pad = 9)%nat.
Proof.
  intros [Hn Hlt]. destruct (dec_nonneg n Hn) as (d & Hd & Hnil & _ & Hlen).
  specialize (Hlen Hlt). rewrite <- length_digits, <- Hd in Hlen.
  assert (Hnz : (1 <= length (chars (dec n)))%nat).
  { rewrite Hd, length_digits.
    destruct (Decimal.nb_digits d) eqn:E; [|lia].
    apply DecimalFacts.nb_digits_0 in E. contradiction. }
  unfold wire_field, length_field_buf. cbv zeta.
  change (Z.to_nat BUF_LEN) with 9%nat.
  set (digits := chars (dec n)) in *.
  exists (replicate (8 - (length digits - 1)) 0).
  rewrite (take_ge digits) by lia.
  replace (10 - length digits)%nat with (S (8 - (length digits - 1))) by lia.
  cbn [replicate]. split; [reflexivity|]. split; [|split].
  - rewrite take_app_ge by lia. f_equal.
    change (0 :: replicate (8 - (length digits - 1)) 0)
      with (replicate (S (8 - (length digits - 1))) 0).
    rewrite take_replicate. f_equal. lia.
  - apply Forall_replicate. reflexivity.
  - rewrite length_replicate. lia.
Qed.

End LengthFieldRead.

(** X7: the length field is a round trip. For a length from 0 to
    999999999 the buffer that the client fills with [snprintf] holds the
    decimal digits and NULs, ten characters in all, and [atoi], on that
    buffer as on the nine bytes of it that are sent followed by a NUL (the
    buffer of the receiving side), reads the length back. *)
Theorem length_field_round_trip {conn : Type} (n : Z) (w : world conn) :
  0 <= n < 10 ^ 9 ->
  exists buf,
    length_field n w = (Ok buf, w) /\
    length buf = 10%nat /\
    atoi buf = Some n /\
    atoi (take (Z.to_nat BUF_LEN) buf ++ [0]) = Some n.
Proof.
  intros Hn. exists (length_field_buf n).
  split; [apply length_field_eq|].
  destruct (length_field_buf_small n Hn) as (pad & Hbuf & Hwire & Hpad & Hlen).
  unfold wire_field in Hwire. rewrite Hwire, Hbuf.
  split; [rewrite length_app; cbn [length]; lia|].
  assert (Hint : 0 <= n <= INT_MAX)
    by (change (10 ^ 9) with 1000000000 in Hn; unfold INT_MAX; lia).
  split; [apply atoi_dec, Hint|].
  rewrite <- app_assoc.
  destruct pad as [|z pad]; cbn [app]; [apply atoi_dec, Hint|].
  apply Forall_cons in Hpad as [-> _]. apply atoi_dec, Hint.
Qed.

Lemma length_field_round_trip_witness :
  exists buf,
    length_field 1024 (closed_after []) = (Ok buf, closed_after []) /\
    length buf = 10%nat /\
    atoi buf = Some 1024 /\
    atoi (take (Z.to_nat BUF_LEN) buf ++ [0]) = Some 1024.
Proof.
  apply (length_field_round_trip 1024 (closed_after [])).
  split; [lia | reflexivity].
Defined.

(** X8: a length of ten digits or more does not pass: [snprintf] keeps its
    first nine digits, and what [atoi] reads from the field is a number
    below 1000000000, not the length. *)
Theorem length_field_truncates {conn : Type} (n : Z) (w : world conn) :
  10 ^ 9 <= n ->
  exists buf m,
    length_field n w = (Ok buf, w) /\
    atoi buf = Some m /\ 0 <= m < 10 ^ 9 /\ m <> n.
Proof.
  intros Hn. exists (length_field_buf n).
  destruct (dec_nonneg n ltac:(lia)) as (d & Hd & Hnil & _ & _).
  pose proof (digits_all_digits d) as Hall. rewrite <- Hd in Hall.
  set (digits := take (Z.to_nat BUF_LEN) (chars (dec n))).
  assert (Hdig : Forall (fun c => isdigit c = true) digits)
    by (apply Forall_take, Hall).
  assert (Hlen : (length digits <= 9)%nat)
    by (unfold digits; rewrite length_take;
        change (Z.to_nat BUF_LEN) with 9%nat; lia).
  exists (atoi_chars digits).
  split; [apply length_field_eq|].
  assert (Hbuf : length_field_buf n =
                 digits ++ 0 :: replicate (9 - length digits) 0).
  { unfold length_field_buf. cbv zeta. fold digits.
    replace (10 - length digits)%nat with (S (9 - length digits)) by lia.
    reflexivity. }
  assert (Hm : 0 <= atoi_chars digits < 10 ^ 9).
  { destruct digits as [|c s] eqn:E; [cbn; lia|].
    rewrite atoi_chars_digit by (inversion Hdig; assumption).
    pose proof (atoi_digits_upper (c :: s) 0 ltac:(lia)) as Hup.
    assert (10 ^ Z.of_nat (length (c :: s)) <= 10 ^ 9)
      by (apply Z.pow_le_mono_r; lia).
    lia. }
  split; [|split; [exact Hm | lia]].
  rewrite Hbuf. unfold atoi. rewrite cstr_digits by exact Hdig.
  apply as_int_Some.
  change (10 ^ 9) with 1000000000 in Hm. unfold INT_MIN, INT_MAX. lia.
Qed.

Lemma length_field_truncates_witness :
  exists buf m,
    length_field 2147483647 (closed_after []) = (Ok buf, closed_after []) /\
    atoi buf = Some m /\ 0 <= m < 10 ^ 9 /\ m <> 2147483647.
Proof.
  apply (length_field_truncates 2147483647 (closed_after [])).
  vm_compute. discriminate.
Defined.

(** ** More on [sendrecv] *)

Section Transfer.

Lemma is_recv_sent (evs : list event) :
  Forall (fun e => is_recv e = true) evs -> sent evs = [].
Proof.
  induction 1 as [|e evs He _ IH]; [reflexivity|].
  change (e :: evs) with ([e] ++ evs). rewrite sent_app, IH.
  destruct e; try discriminate; reflexivity.
Qed.

(** The receive loop on a stream that delivers, with what it leaves on
    the connection and in the trace. *)
Lemma recv_loop_stream fuel :
  forall (chunks : list (list Z)) (str : list Z) len total e out tr,
    0 <= total <= len ->
    Forall (fun chunk => chunk <> []) chunks ->
    len - total <= Z.of_nat (length (concat chunks)) ->
    len <= Z.of_nat (length str) ->
    (Z.to_nat (len - total) < fuel)%nat ->
    exists chunks' evs,
      sendrecv_loop fuel str len total (len - total) false
        (World (Wire chunks e out) tr) =
      (Ok (len, take (Z.to_nat total) str ++
                take (Z.to_nat (len - total)) (concat chunks) ++
                drop (Z.to_nat len) str),
       World (Wire chunks' e out) (tr ++ evs)) /\
      concat chunks' = drop (Z.to_nat (len - total)) (concat chunks) /\
      Forall (fun chunk => chunk <> []) chunks' /\
      Forall (fun ev => is_recv ev = true) evs.
Proof.
  induction fuel as [|fuel IH];
    intros chunks str len total e out tr Htot Hne Hdata Hstr Hfuel; [lia|].
  rewrite sendrecv_loop_S.
  destruct (Z.ltb_spec total len) as [Hlt|Hge].
  2:{ assert (total = len) as -> by lia. exists chunks, [].
      rewrite Z.sub_diag. change (Z.to_nat 0) with 0%nat.
      rewrite take_0, drop_0, app_nil_r. cbn [app]. rewrite take_drop.
      repeat split; [assumption | constructor]. }
  unfold bind at 1. unfold sock_recv. cbn [net sys_recv wire_socket trace].
  unfold wire_recv. cbn [inbox inbox_end outbox].
  destruct chunks as [|chunk rest]; [cbn in Hdata; lia|].
  apply Forall_cons in Hne as [Hchunk Hrest].
  assert (Hpos : (0 < length chunk)%nat)
    by (destruct chunk; [contradiction | cbn; lia]).
  cbn [concat] in Hdata |- *. rewrite length_app in Hdata.
  destruct (Nat.leb_spec (length chunk) (Z.to_nat (len - total))) as [Hle|Hgt].
  - rewrite blit_spec by lia.
    destruct (Z.eqb_spec (Z.of_nat (length chunk)) (-1)); [lia|].
    replace (len - total - Z.of_nat (length chunk))
      with (len - (total + Z.of_nat (length chunk))) by lia.
    edestruct (IH rest
                 (take (Z.to_nat total) str ++ chunk ++
                  drop (Z.to_nat total + length chunk) str)
                 len (total + Z.of_nat (length chunk)) e out
                 (tr ++ [EvRecv chunk]))
      as (chunks' & evs & Hrun & Hcat & Hne' & Hevs);
      try lia; try assumption.
    { rewrite !length_app, length_take, length_drop. lia. }
    exists chunks', (EvRecv chunk :: evs). rewrite Hrun.
    split; [|split; [|split; [exact Hne' | constructor; [reflexivity|exact Hevs]]]].
    + rewrite <- app_assoc. cbn [app]. do 3 f_equal.
      replace (Z.to_nat (total + Z.of_nat (length chunk)))
        with (Z.to_nat total + length chunk)%nat by lia.
      replace (Z.to_nat (len - (total + Z.of_nat (length chunk))))
        with (Z.to_nat (len - total) - length chunk)%nat by lia.
      rewrite (app_assoc (take (Z.to_nat total) str) chunk).
      rewrite take_app_length'
        by (rewrite length_app, length_take; lia).
      rewrite drop_app_ge
        by (rewrite length_app, length_take; lia).
      rewrite drop_drop, length_app, length_take.
      rewrite take_app_ge by lia.
      rewrite <- !app_assoc. do 3 f_equal. f_equal. lia.
    + rewrite Hcat. rewrite drop_app_ge by lia. f_equal. lia.
  - assert (Hn : length (take (Z.to_nat (len - total)) chunk)
                 = Z.to_nat (len - total))
      by (rewrite length_take; lia).
    rewrite Hn, blit_spec by lia. rewrite Hn.
    destruct (Z.eqb_spec (Z.of_nat (Z.to_nat (len - total))) (-1)); [lia|].
    destruct fuel as [|fuel]; [lia|].
    rewrite sendrecv_loop_done by lia.
    exists (drop (Z.to_nat (len - total)) chunk :: rest),
      [EvRecv (take (Z.to_nat (len - total)) chunk)].
    split; [|split; [|split]].
    + rewrite take_app_le by lia.
      do 3 f_equal; [lia|]. do 3 f_equal. lia.
    + cbn [concat]. rewrite drop_app_le by lia. reflexivity.
    + constructor; [|exact Hrest].
      intros Hnil. apply (f_equal length) in Hnil.
      rewrite length_drop in Hnil. cbn in Hnil. lia.
    + repeat constructor.
Qed.

End Transfer.

(** A receive of bytes that are all on their way. *)
Lemma sendrecv_recv_delivers (fuel : nat) (chunks : list (list Z))
    (str : list Z) (len : Z) (e : ending) (out : list send_result)
    (tr : list event) :
  0 <= len ->
  Forall (fun chunk => chunk <> []) chunks ->
  len <= Z.of_nat (length (concat chunks)) ->
  len + 1 <= Z.of_nat (length str) ->
  (Z.to_nat len < fuel)%nat ->
  exists chunks' evs,
    sendrecv fuel str len false (World (Wire chunks e out) tr) =
      (Ok (len, take (Z.to_nat len) (concat chunks) ++ 0 ::
                drop (Z.to_nat len + 1) str),
       World (Wire chunks' e out) (tr ++ evs)) /\
    concat chunks' = drop (Z.to_nat len) (concat chunks) /\
    Forall (fun chunk => chunk <> []) chunks' /\
    Forall (fun ev => is_recv ev = true) evs.
Proof.
  intros Hlen Hne Hdata Hstr Hfuel. unfold sendrecv. cbn [negb].
  assert (Hset : Buf.memset str 0 (len + 1) =
                 Some (replicate (Z.to_nat (len + 1)) 0 ++
                       drop (Z.to_nat (len + 1)) str)).
  { unfold Buf.memset.
    replace ((0 <=? len + 1) && (len + 1 <=? Z.of_nat (length str)))
      with true
      by (symmetry; apply andb_true_intro; split; apply Z.leb_le; lia).
    reflexivity. }
  rewrite (bind_eq_Ok _ _ _ _ (World (Wire chunks e out) tr)
             (defined_Some _ _ _ Hset)).
  edestruct (recv_loop_stream fuel chunks
               (replicate (Z.to_nat (len + 1)) 0 ++
                drop (Z.to_nat (len + 1)) str) len 0 e out tr)
    as (chunks' & evs & Hrun & Hcat & Hne' & Hevs); try lia; try assumption.
  { rewrite length_app, length_replicate, length_drop. lia. }
  rewrite Z.sub_0_r in Hrun, Hcat. exists chunks', evs. rewrite Hrun.
  split; [|auto]. do 3 f_equal.
  change (Z.to_nat 0) with 0%nat. rewrite take_0. cbn [app].
  rewrite drop_app_le by (rewrite length_replicate; lia).
  rewrite drop_replicate.
  replace (Z.to_nat (len + 1) - Z.to_nat len)%nat with 1%nat by lia.
  change (replicate 1 0) with [0]. cbn [app]. do 3 f_equal. lia.
Qed.

(** X9: a receive on a connection that delivers. When at least [len]
    bytes are on their way, in chunks of at least one byte, and the buffer
    has [len + 1] characters, [sendrecv] returns [len]; the buffer then
    holds the first [len] bytes of the stream, a NUL, and behind it what it
    held before; the rest of the stream stays on the connection, and only
    calls of [recv] were made. *)
Theorem sendrecv_receives_exactly (fuel : nat) (chunks : list (list Z))
    (str : list Z) (len : Z) (e : ending) (out : list send_result)
    (tr : list event) :
  0 <= len ->
  Forall (fun chunk => chunk <> []) chunks ->
  len <= Z.of_nat (length (concat chunks)) ->
  len + 1 <= Z.of_nat (length str) ->
  (Z.to_nat len < fuel)%nat ->
  exists chunks' evs,
    sendrecv fuel str len false (World (Wire chunks e out) tr) =
      (Ok (len, take (Z.to_nat len) (concat chunks) ++ 0 ::
                drop (Z.to_nat len + 1) str),
       World (Wire chunks' e out) (tr ++ evs)) /\
    concat chunks' = drop (Z.to_nat len) (concat chunks) /\
    Forall (fun chunk => chunk <> []) chunks' /\
    Forall (fun ev => is_recv ev = true) evs.
Proof.
  exact (sendrecv_recv_delivers fuel chunks str len e out tr).
Qed.

Lemma sendrecv_receives_exactly_witness :
  exists chunks' evs,
    sendrecv 10 (replicate 5 7) 4 false
      (World (Wire [chars "PA"; chars "SSHEL"; chars "LO"] Closed []) []) =
      (Ok (4, take (Z.to_nat 4)
                (concat [chars "PA"; chars "SSHEL"; chars "LO"]) ++ 0 ::
              drop (Z.to_nat 4 + 1) (replicate 5 7)),
       World (Wire chunks' Closed []) ([] ++ evs)) /\
    concat chunks' =
      drop (Z.to_nat 4) (concat [chars "PA"; chars "SSHEL"; chars "LO"]) /\
    Forall (fun chunk => chunk <> []) chunks' /\
    Forall (fun ev => is_recv ev = true) evs.
Proof.
  apply (sendrecv_receives_exactly 10 [chars "PA"; chars "SSHEL"; chars "LO"]
           (replicate 5 7) 4 Closed [] []).
  - lia.
  - repeat (apply List.Forall_cons; [discriminate|]). apply List.Forall_nil.
  - vm_compute. discriminate.
  - vm_compute. discriminate.
  - vm_compute. lia.
Defined.

(** X10: a send on a connection that keeps taking what is sent: [sendrecv]
    returns [len], leaves the buffer as it was, makes calls of [send] only,
    and the bytes these moved are, in order, the first [len] bytes of the
    buffer. *)
Theorem sendrecv_sends_exactly {conn : Type} `{Socket conn}
    (Inv : conn -> Prop) (fuel : nat) (str : list Z) (len : Z)
    (w : world conn) :
  send_goes_on Inv -> Inv (net w) ->
  0 <= len <= Z.of_nat (length str) -> (Z.to_nat len < fuel)%nat ->
  exists w' evs,
    sendrecv fuel str len true w = (Ok (len, str), w') /\
    Inv (net w') /\
    trace w' = trace w ++ evs /\
    Forall (fun e => is_send e = true) evs /\
    sent evs = take (Z.to_nat len) str.
Proof.
  intros Hgo Hinv Hlen Hfuel.
  destruct (sendrecv_send_goes_on Inv fuel str len w Hgo Hinv Hlen Hfuel)
    as (w' & Hrun & Hinv').
  destruct (sendrecv_send_trace fuel str len w)
    as (o & w2 & evs & k & Hrun2 & Htr & Hsend & Hsent & Hk & Ho); [lia|].
  rewrite Hrun in Hrun2. injection Hrun2 as <- <-.
  exists w', evs. repeat split; try assumption.
  destruct Ho as [Ho|[[Ho _]|(m & Hm & Hfull)]]; [discriminate..|].
  injection Hm as <-. specialize (Hfull eq_refl).
  rewrite Hsent. f_equal. lia.
Qed.

Lemma sendrecv_sends_exactly_witness :
  exists w' evs,
    sendrecv 10 (literal "HELLO") 5 true
      (World (Wire [] Closed []) []) = (Ok (5, literal "HELLO"), w') /\
    outbox (net w') = [] /\
    trace w' = trace (World (Wire [] Closed []) []) ++ evs /\
    Forall (fun e => is_send e = true) evs /\
    sent evs = take (Z.to_nat 5) (literal "HELLO").
Proof.
  apply (sendrecv_sends_exactly (fun c : wire => outbox c = []) 10
           (literal "HELLO") 5 (World (Wire [] Closed []) [])).
  - exact wire_send_goes_on.
  - reflexivity.
  - vm_compute. split; discriminate.
  - vm_compute. lia.
Defined.

Section TransferWire.

(** The same on the byte connection with no limit ahead: one call of
    [send] takes all. *)
Lemma sendrecv_send_wire fuel (str : list Z) len chunks e tr :
  0 < len <= Z.of_nat (length str) -> (2 <= fuel)%nat ->
  sendrecv fuel str len true (World (Wire chunks e []) tr) =
  (Ok (len, str),
   World (Wire chunks e []) (tr ++ [EvSend (take (Z.to_nat len) str)])).
Proof.
  intros Hlen Hfuel. destruct fuel as [|[|fuel]]; try lia.
  unfold sendrecv. cbn [negb]. unfold bind at 1. cbn [ret].
  rewrite sendrecv_loop_S.
  destruct (Z.ltb_spec 0 len) as [_|]; [|lia].
  unfold bind at 1. unfold bind at 1. unfold sock_send. unfold bind at 1.
  rewrite slice_spec by lia. cbn [defined net sys_send wire_socket trace].
  unfold wire_send. cbn [outbox inbox inbox_end ret].
  change (Z.to_nat 0) with 0%nat. rewrite drop_0, length_take.
  destruct (Z.eqb_spec (Z.of_nat (Z.to_nat len `min` length str)) (-1));
    [lia|].
  rewrite sendrecv_loop_done by lia.
  rewrite Nat.min_l by lia. rewrite take_take, Nat.min_id.
  do 3 f_equal. lia.
Qed.

(** A receive on a connection that breaks: all that arrives before the
    failure is stored. *)
Lemma recv_loop_broken fuel :
  forall (chunks : list (list Z)) (str : list Z) len total out tr,
    0 <= total ->
    total + Z.of_nat (length (concat chunks)) < len ->
    len <= Z.of_nat (length str) ->
    (length chunks < fuel)%nat ->
    exists evs,
      sendrecv_loop fuel str len total (len - total) false
        (World (Wire chunks Broken out) tr) =
      (Ok (total + Z.of_nat (length (concat chunks)),
           take (Z.to_nat total) str ++ concat chunks ++
           drop (Z.to_nat total + length (concat chunks)) str),
       World (Wire [] Broken out) (tr ++ evs)) /\
      Forall (fun ev => is_recv ev = true) evs.
Proof.
  induction fuel as [|fuel IH];
    intros chunks str len total out tr Htot Hdata Hstr Hfuel; [lia|].
  rewrite sendrecv_loop_S.
  destruct (Z.ltb_spec total len) as [_|]; [|lia].
  unfold bind at 1. unfold sock_recv. cbn [net sys_recv wire_socket trace].
  unfold wire_recv. cbn [inbox inbox_end outbox].
  destruct chunks as [|chunk rest].
  - change (-1 =? -1) with true. cbv iota. exists [EvRecvErr].
    cbn [concat length app]. rewrite Nat.add_0_r, Z.add_0_r, take_drop.
    split; [reflexivity | repeat constructor].
  - cbn [concat length] in Hdata, Hfuel |- *. rewrite length_app in Hdata.
    destruct (Nat.leb_spec (length chunk) (Z.to_nat (len - total)));
      [|lia].
    rewrite blit_spec by lia.
    destruct (Z.eqb_spec (Z.of_nat (length chunk)) (-1)); [lia|].
    replace (len - total - Z.of_nat (length chunk))
      with (len - (total + Z.of_nat (length chunk))) by lia.
    edestruct (IH rest
                 (take (Z.to_nat total) str ++ chunk ++
                  drop (Z.to_nat total + length chunk) str)
                 len (total + Z.of_nat (length chunk)) out
                 (tr ++ [EvRecv chunk])) as (evs & Hrun & Hevs); try lia.
    { rewrite !length_app, length_take, length_drop. lia. }
    exists (EvRecv chunk :: evs). rewrite Hrun.
    split; [|constructor; [reflexivity | exact Hevs]].
    rewrite <- (app_assoc tr). cbn [app]. rewrite length_app.
    assert (Hbuf :
      take (Z.to_nat (total + Z.of_nat (length chunk)))
        (take (Z.to_nat total) str ++
         chunk ++ drop (Z.to_nat total + length chunk) str) ++
      concat rest ++
      drop (Z.to_nat (total + Z.of_nat (length chunk))
            + length (concat rest))
        (take (Z.to_nat total) str ++
         chunk ++ drop (Z.to_nat total + length chunk) str) =
      take (Z.to_nat total) str ++ (chunk ++ concat rest) ++
      drop (Z.to_nat total + (length chunk + length (concat rest))) str).
    { replace (Z.to_nat (total + Z.of_nat (length chunk)))
        with (Z.to_nat total + length chunk)%nat by lia.
      rewrite (app_assoc (take (Z.to_nat total) str) chunk).
      rewrite take_app_length' by (rewrite length_app, length_take; lia).
      rewrite drop_app_ge by (rewrite length_app, length_take; lia).
      rewrite drop_drop, length_app, length_take.
      rewrite <- !app_assoc. do 3 f_equal. f_equal. lia. }
    rewrite Hbuf. do 3 f_equal. lia.
Qed.

End TransferWire.

(** X11: a receive cut short by a failure. On a connection that breaks
    after fewer than [len] bytes, [sendrecv] returns the number of bytes
    that arrived; the buffer holds them, followed by NULs up to index
    [len]. *)
Theorem sendrecv_returns_what_arrived (fuel : nat) (chunks : list (list Z))
    (str : list Z) (len : Z) (out : list send_result) (tr : list event) :
  Z.of_nat (length (concat chunks)) < len ->
  len + 1 <= Z.of_nat (length str) ->
  (length chunks < fuel)%nat ->
  exists evs,
    sendrecv fuel str len false (World (Wire chunks Broken out) tr) =
      (Ok (Z.of_nat (length (concat chunks)),
           concat chunks ++
           replicate (Z.to_nat (len + 1) - length (concat chunks)) 0 ++
           drop (Z.to_nat (len + 1)) str),
       World (Wire [] Broken out) (tr ++ evs)) /\
    Forall (fun ev => is_recv ev = true) evs.
Proof.
  intros Hdata Hstr Hfuel. unfold sendrecv. cbn [negb].
  assert (Hset : Buf.memset str 0 (len + 1) =
                 Some (replicate (Z.to_nat (len + 1)) 0 ++
                       drop (Z.to_nat (len + 1)) str)).
  { unfold Buf.memset.
    replace ((0 <=? len + 1) && (len + 1 <=? Z.of_nat (length str)))
      with true
      by (symmetry; apply andb_true_intro; split; apply Z.leb_le; lia).
    reflexivity. }
  rewrite (bind_eq_Ok _ _ _ _ (World (Wire chunks Broken out) tr)
             (defined_Some _ _ _ Hset)).
  edestruct (recv_loop_broken fuel chunks
               (replicate (Z.to_nat (len + 1)) 0 ++
                drop (Z.to_nat (len + 1)) str) len 0 out tr)
    as (evs & Hrun & Hevs); try lia.
  { rewrite length_app, length_replicate, length_drop. lia. }
  rewrite Z.sub_0_r in Hrun. exists evs. rewrite Hrun.
  split; [|exact Hevs]. do 3 f_equal.
  change (Z.to_nat 0) with 0%nat. rewrite take_0. cbn [app plus]. f_equal.
  rewrite drop_app_le by (rewrite length_replicate; lia).
  rewrite drop_replicate. reflexivity.
Qed.

Lemma sendrecv_returns_what_arrived_witness :
  exists evs,
    sendrecv 10 (replicate 8 7) 7 false
      (World (Wire [chars "ot"; chars "p"] Broken []) []) =
      (Ok (Z.of_nat (length (concat [chars "ot"; chars "p"])),
           concat [chars "ot"; chars "p"] ++
           replicate (Z.to_nat (7 + 1)
                      - length (concat [chars "ot"; chars "p"])) 0 ++
           drop (Z.to_nat (7 + 1)) (replicate 8 7)),
       World (Wire [] Broken []) ([] ++ evs)) /\
    Forall (fun ev => is_recv ev = true) evs.
Proof.
  apply (sendrecv_returns_what_arrived 10 [chars "ot"; chars "p"]
           (replicate 8 7) 7 [] []).
  - vm_compute. reflexivity.
  - vm_compute. discriminate.
  - vm_compute. lia.
Defined.

(** X12: receiving is memory safe. Whatever the calls of [recv] return
    within what the system guarantees, a receive of [len] bytes into a
    buffer of at least [len + 1] characters never writes outside the buffer;
    when it returns [n], the buffer has a NUL at index [n], so that it holds
    a C string of at most [n] characters, and the characters behind index
    [len] are as they were. *)
Theorem sendrecv_receive_is_safe {conn : Type} `{SocketLaws conn}
    (fuel : nat) (str : list Z) (len : Z) (w : world conn) :
  0 <= len -> len + 1 <= Z.of_nat (length str) ->
  fst (sendrecv fuel str len false w) <> Undef /\
  forall n str' w',
    sendrecv fuel str len false w = (Ok (n, str'), w') ->
    0 <= n <= len /\
    length str' = length str /\
    str' !! Z.to_nat n = Some 0 /\
    (exists s, Buf.cstr str' = Some s /\ (length s <= Z.to_nat n)%nat) /\
    drop (Z.to_nat (len + 1)) str' = drop (Z.to_nat (len + 1)) str.
Proof.
  intros Hlen Hstr. unfold sendrecv. cbn [negb].
  assert (Hset : Buf.memset str 0 (len + 1) =
                 Some (replicate (Z.to_nat (len + 1)) 0 ++
                       drop (Z.to_nat (len + 1)) str)).
  { unfold Buf.memset.
    replace ((0 <=? len + 1) && (len + 1 <=? Z.of_nat (length str)))
      with true
      by (symmetry; apply andb_true_intro; split; apply Z.leb_le; lia).
    reflexivity. }
  rewrite (bind_eq_Ok _ _ _ _ w (defined_Some _ _ _ Hset)).
  set (str1 := replicate (Z.to_nat (len + 1)) 0 ++
               drop (Z.to_nat (len + 1)) str).
  assert (Hlen1 : length str1 = length str)
    by (unfold str1; rewrite length_app, length_replicate, length_drop; lia).
  destruct (recv_loop_safe fuel str1 len 0 w) as [Hsafe Hres];
    [lia | lia | |].
  { intros i Hi. unfold str1.
    rewrite lookup_app_l by (rewrite length_replicate; lia).
    apply lookup_replicate_2. lia. }
  rewrite Z.sub_0_r in Hsafe, Hres. split; [exact Hsafe|].
  intros n str' w' Hrun. destruct (Hres n str' w' Hrun) as (Hn & Hl & Hz & Hd).
  assert (Hnul : str' !! Z.to_nat n = Some 0) by (apply Hz; lia).
  split; [lia|]. split; [congruence|]. split; [exact Hnul|]. split.
  - apply cstr_of_nul, Hnul.
  - rewrite Hd. unfold str1.
    rewrite drop_app_length'; [reflexivity | symmetry; apply length_replicate].
Qed.

Lemma sendrecv_receive_is_safe_witness :
  fst (sendrecv 10 (replicate 8 7) ID_LEN false
         (broken_after [chars "otp"])) <> Undef /\
  forall n str' w',
    sendrecv 10 (replicate 8 7) ID_LEN false (broken_after [chars "otp"]) =
      (Ok (n, str'), w') ->
    0 <= n <= ID_LEN /\
    length str' = length (replicate 8 7) /\
    str' !! Z.to_nat n = Some 0 /\
    (exists s, Buf.cstr str' = Some s /\ (length s <= Z.to_nat n)%nat) /\
    drop (Z.to_nat (ID_LEN + 1)) str' =
      drop (Z.to_nat (ID_LEN + 1)) (replicate 8 7).
Proof.
  apply (sendrecv_receive_is_safe 10 (replicate 8 7) ID_LEN
           (broken_after [chars "otp"])).
  - discriminate.
  - vm_compute. discriminate.
Defined.

(** ** More on [scanfile] and [readfile] *)

Section Files.

Context {conn : Type} `{Socket conn}.

Lemma list_ascii_app (s1 s2 : string) :
  list_ascii_of_string (s1 ++ s2) =
  list_ascii_of_string s1 ++ list_ascii_of_string s2.
Proof.
  induction s1 as [|a s1 IH]; [reflexivity|].
  cbn [String.append list_ascii_of_string app]. rewrite IH. reflexivity.
Qed.

Lemma file_chars_length (s : string) :
  length (file_chars s) = String.length s.
Proof.
  unfold file_chars. rewrite length_map.
  induction s as [|a s IH]; [reflexivity|]. cbn. rewrite IH. reflexivity.
Qed.

(** The loop of [scanfile] on a line: it counts up to the newline. *)
Lemma scan_line_newline (text : list ascii) :
  forall fuel rest count,
    Forall (fun a => to_char (Z.of_nat (nat_of_ascii a)) <> 10) text ->
    (length text < fuel)%nat ->
    scan_line fuel (text ++ ascii_of_nat 10 :: rest) count =
    Some (count + Z.of_nat (length text)).
Proof.
  induction text as [|a text IH]; intros fuel rest count Hline Hfuel;
    (destruct fuel as [|fuel]; [cbn in Hfuel; lia|]).
  - cbn. f_equal. lia.
  - apply Forall_cons in Hline as [Ha Hline].
    cbn [app scan_line].
    destruct (Z.eqb_spec (to_char (Z.of_nat (nat_of_ascii a))) 10);
      [contradiction|].
    rewrite IH by (cbn in Hfuel; try assumption; lia).
    f_equal. cbn [length]. lia.
Qed.

(** The loop of [scanfile] on a file without a newline: past the end of
    the file [fgetc] answers [EOF], which is not a newline either. *)
Lemma scan_line_no_newline fuel :
  forall (text : list ascii) count,
    Forall (fun a => to_char (Z.of_nat (nat_of_ascii a)) <> 10) text ->
    scan_line fuel text count = None.
Proof.
  induction fuel as [|fuel IH]; intros text count Hline; [reflexivity|].
  destruct text as [|a text]; cbn [scan_line].
  - apply IH. constructor.
  - apply Forall_cons in Hline as [Ha Hline].
    destruct (Z.eqb_spec (to_char (Z.of_nat (nat_of_ascii a))) 10);
      [contradiction|].
    apply IH, Hline.
Qed.

Lemma one_line_ascii (s : string) :
  one_line s ->
  Forall (fun a => to_char (Z.of_nat (nat_of_ascii a)) <> 10)
         (list_ascii_of_string s).
Proof. unfold one_line, file_chars. apply Forall_fmap. Qed.

Lemma list_ascii_line (text rest : string) :
  list_ascii_of_string (text ++ nl ++ rest) =
  list_ascii_of_string text ++ ascii_of_nat 10 :: list_ascii_of_string rest.
Proof. rewrite list_ascii_app. reflexivity. Qed.

(** What [fgets] takes from a line into a buffer with room for it. *)
Lemma fgets_chars_line (text : list ascii) :
  forall rest,
    Forall (fun a => to_char (Z.of_nat (nat_of_ascii a)) <> 10) text ->
    fgets_chars (length text) (text ++ ascii_of_nat 10 :: rest) =
    map (fun a => to_char (Z.of_nat (nat_of_ascii a))) text.
Proof.
  induction text as [|a text IH]; intros rest Hline; [reflexivity|].
  apply Forall_cons in Hline as [Ha Hline].
  cbn [length app fgets_chars map].
  destruct (Z.eqb_spec (to_char (Z.of_nat (nat_of_ascii a))) 10);
    [contradiction|].
  rewrite IH by assumption. reflexivity.
Qed.

Lemma scanfile_line fuel e filename text rest (w : world conn) :
  files e filename = Some (text ++ nl ++ rest)%string ->
  one_line text -> (String.length text < fuel)%nat ->
  scanfile fuel e filename w = (Ok (Z.of_nat (String.length text)), w).
Proof.
  intros Hfile Hline Hfuel. unfold scanfile. rewrite Hfile.
  rewrite scanfile_loop_scan_line, list_ascii_line.
  rewrite scan_line_newline;
    [ | apply one_line_ascii, Hline
      | rewrite <- file_chars_length in Hfuel; unfold file_chars in Hfuel;
        rewrite length_map in Hfuel; exact Hfuel ].
  rewrite <- (file_chars_length text). unfold file_chars.
  rewrite length_map. reflexivity.
Qed.

Lemma readfile_line e filename text rest (str : list Z) (w : world conn) :
  files e filename = Some (text ++ nl ++ rest)%string ->
  one_line text ->
  length str = S (String.length text) ->
  readfile e filename str (Z.of_nat (String.length text) + 1) w =
  (Ok (file_chars text ++ [0]), w).
Proof.
  intros Hfile Hline Hstr. unfold readfile.
  set (n := String.length text) in *.
  assert (Hset : Buf.memset str 0 (Z.of_nat n + 1) = Some (replicate (S n) 0)).
  { unfold Buf.memset.
    replace ((0 <=? Z.of_nat n + 1)
             && (Z.of_nat n + 1 <=? Z.of_nat (length str))) with true
      by (symmetry; apply andb_true_intro; split; apply Z.leb_le; lia).
    replace (Z.to_nat (Z.of_nat n + 1)) with (S n) by lia.
    rewrite drop_ge by lia. apply f_equal, app_nil_r. }
  rewrite (bind_eq_Ok _ _ _ _ w (defined_Some _ _ _ Hset)).
  rewrite Hfile. apply defined_Some. unfold fgets.
  destruct (Z.leb_spec (Z.of_nat n + 1) 0); [lia|].
  rewrite list_ascii_line.
  assert (Hlen : length (list_ascii_of_string text) = n).
  { unfold n. rewrite <- file_chars_length. unfold file_chars.
    rewrite length_map. reflexivity. }
  replace (Z.to_nat (Z.of_nat n + 1 - 1)) with
    (length (list_ascii_of_string text)) by lia.
  destruct (list_ascii_of_string text ++
            ascii_of_nat 10 :: list_ascii_of_string rest) eqn:E;
    [destruct (list_ascii_of_string text); discriminate|].
  rewrite <- E. rewrite fgets_chars_line by (apply one_line_ascii, Hline).
  fold (file_chars text).
  rewrite blit_spec;
    [ | lia
      | rewrite length_app, length_replicate, file_chars_length; cbn; lia ].
  change (Z.to_nat 0) with 0%nat. rewrite take_0. cbn [app plus].
  rewrite drop_ge
    by (rewrite length_app, length_replicate, file_chars_length; cbn; lia).
  rewrite app_nil_r. reflexivity.
Qed.

End Files.

(** X13: [scanfile] returns the number of characters before the first
    newline of the file, whatever these characters are, and changes
    nothing. *)
Theorem scanfile_counts_to_newline {conn : Type} `{Socket conn}
    (fuel : nat) (e : env) (filename text rest : string) (w : world conn) :
  files e filename = Some (text ++ nl ++ rest)%string ->
  one_line text -> (String.length text < fuel)%nat ->
  scanfile fuel e filename w = (Ok (Z.of_nat (String.length text)), w).
Proof.
  intros Hfile Hline Hfuel. apply (scanfile_line fuel e filename text rest);
    assumption.
Qed.

Lemma scanfile_counts_to_newline_witness :
  scanfile 20 (example_env "lowercase" "key") "lowercase" (closed_after []) =
    (Ok (Z.of_nat (String.length "hello")), closed_after []).
Proof.
  apply (scanfile_counts_to_newline 20 (example_env "lowercase" "key")
           "lowercase" "hello" "" (closed_after [])).
  - reflexivity.
  - unfold one_line. vm_compute (file_chars _).
    repeat (apply List.Forall_cons; [discriminate|]). apply List.Forall_nil.
  - vm_compute. lia.
Defined.

(** X14: on a file that holds no newline, an empty file among them,
    [scanfile] does not return: at the end of the file [fgetc] answers
    [EOF], which the loop counts as one more character, for ever. *)
Theorem scanfile_needs_newline {conn : Type} `{Socket conn}
    (fuel : nat) (e : env) (filename content : string) (w : world conn) :
  files e filename = Some content ->
  one_line content ->
  scanfile fuel e filename w = (Spin, w).
Proof.
  intros Hfile Hline. unfold scanfile. rewrite Hfile.
  rewrite scanfile_loop_scan_line.
  rewrite scan_line_no_newline by (apply one_line_ascii, Hline).
  reflexivity.
Qed.

Lemma scanfile_needs_newline_witness :
  scanfile 1000 (Env [] (fun _ => Some "NO NEWLINE"%string) true 3 0) "f"
    (closed_after []) = (Spin, closed_after []).
Proof.
  apply (scanfile_needs_newline 1000
           (Env [] (fun _ => Some "NO NEWLINE"%string) true 3 0) "f"
           "NO NEWLINE" (closed_after [])).
  - reflexivity.
  - unfold one_line. vm_compute (file_chars _).
    repeat (apply List.Forall_cons; [discriminate|]). apply List.Forall_nil.
Defined.

(** X15: [scanfile] and [readfile] fit together: read into an array of one
    character more than the length that [scanfile] returned, as [main]
    does, [readfile] leaves in it the characters of the first line and a
    NUL, without the newline. *)
Theorem readfile_reads_scanned_line {conn : Type} `{Socket conn}
    (fuel : nat) (e : env) (filename text rest : string) (w : world conn) :
  files e filename = Some (text ++ nl ++ rest)%string ->
  one_line text -> (String.length text < fuel)%nat ->
  exists n,
    scanfile fuel e filename w = (Ok n, w) /\
    forall str, Z.of_nat (length str) = n + 1 ->
      readfile e filename str (n + 1) w = (Ok (file_chars text ++ [0]), w).
Proof.
  intros Hfile Hline Hfuel. exists (Z.of_nat (String.length text)).
  split; [apply (scanfile_line fuel e filename text rest); assumption|].
  intros str Hstr. apply (readfile_line e filename text rest); try assumption.
  lia.
Qed.

Lemma readfile_reads_scanned_line_witness :
  exists n,
    scanfile 20 (example_env "cipher" "key") "key" (closed_after []) =
      (Ok n, closed_after []) /\
    forall str, Z.of_nat (length str) = n + 1 ->
      readfile (example_env "cipher" "key") "key" str (n + 1)
        (closed_after []) =
      (Ok (file_chars "WORLDS" ++ [0]), closed_after []).
Proof.
  apply (readfile_reads_scanned_line 20 (example_env "cipher" "key") "key"
           "WORLDS" "" (closed_after [])).
  - reflexivity.
  - unfold one_line. vm_compute (file_chars _).
    repeat (apply List.Forall_cons; [discriminate|]). apply List.Forall_nil.
  - vm_compute. lia.
Defined.

(** ** The service on a connection that delivers *)

Section ServiceRun.

(** A checked receive of exactly the bytes [data] that head the stream. *)
Lemma checked_recv_exact fuel (chunks : list (list Z)) (data more str : list Z)
    e out tr msg :
  Forall (fun chunk => chunk <> []) chunks ->
  concat chunks = data ++ more ->
  (length data + 1 <= length str)%nat ->
  (length data < fuel)%nat ->
  exists chunks' evs,
    checked_sendrecv fuel str (Z.of_nat (length data)) false msg
      (World (Wire chunks e out) tr) =
      (Ok (data ++ 0 :: drop (length data + 1) str),
       World (Wire chunks' e out) (tr ++ evs)) /\
    concat chunks' = more /\
    Forall (fun chunk => chunk <> []) chunks' /\
    Forall (fun ev => is_recv ev = true) evs.
Proof.
  intros Hne Hcat Hstr Hfuel.
  destruct (sendrecv_recv_delivers fuel chunks str
              (Z.of_nat (length data)) e out tr)
    as (chunks' & evs & Hrun & Hcat' & Hne' & Hevs);
    try lia; try assumption.
  { rewrite Hcat, length_app. lia. }
  rewrite Nat2Z.id, Hcat in Hrun, Hcat'.
  rewrite take_app_length in Hrun. rewrite drop_app_length in Hcat'.
  exists chunks', evs. split; [|auto].
  apply checked_sendrecv_full. exact Hrun.
Qed.

(** A checked send on a connection with no limit ahead. *)
Lemma checked_send_wire fuel (str : list Z) len chunks e tr msg :
  0 < len <= Z.of_nat (length str) -> (2 <= fuel)%nat ->
  checked_sendrecv fuel str len true msg (World (Wire chunks e []) tr) =
  (Ok str,
   World (Wire chunks e []) (tr ++ [EvSend (take (Z.to_nat len) str)])).
Proof.
  intros Hlen Hfuel. apply checked_sendrecv_full.
  apply sendrecv_send_wire; assumption.
Qed.

Lemma wire_field_read (n : Z) :
  0 <= n < 10 ^ 9 ->
  length (wire_field n) = 9%nat /\ atoi (wire_field n ++ [0]) = Some n.
Proof.
  intros Hn.
  destruct (length_field_buf_small n Hn) as (pad & _ & Hwire & Hpad & Hlen).
  rewrite Hwire. split; [rewrite length_app; exact Hlen|].
  rewrite <- app_assoc.
  assert (Hint : 0 <= n <= INT_MAX)
    by (change (10 ^ 9) with 1000000000 in Hn; unfold INT_MAX; lia).
  destruct pad as [|z pad]; cbn [app]; [apply atoi_dec, Hint|].
  apply Forall_cons in Hpad as [-> _]. apply atoi_dec, Hint.
Qed.

Lemma drop_replicate_all (n : nat) (x : Z) : drop n (replicate n x) = [].
Proof. apply drop_ge. rewrite length_replicate. lia. Qed.

(** The frames of an admitted client, up to the call of [encrypt]: the
    text and the key arrive in their buffers, each followed by a NUL. *)
Lemma child_payload_receives fuel port (chunks : list (list Z))
    (text key more : list Z) e tr :
  Forall (fun chunk => chunk <> []) chunks ->
  concat chunks =
    wire_field (Z.of_nat (length text)) ++ text ++
    wire_field (Z.of_nat (length key)) ++ key ++ more ->
  Z.of_nat (length text) < 10 ^ 9 -> Z.of_nat (length key) < 10 ^ 9 ->
  (9 < fuel)%nat -> (length text < fuel)%nat -> (length key < fuel)%nat ->
  exists chunks' evs,
    concat chunks' = more /\
    Forall (fun chunk => chunk <> []) chunks' /\
    Forall (fun ev => is_recv ev = true) evs /\
    child_payload fuel port (World (Wire chunks e []) tr) =
    bind (defined (encrypt (text ++ [0]) (key ++ [0])
                     (replicate (S (length text)) 0)
                     (Z.of_nat (length text))))
         (fun r => let '(_, _, ciphertext) := r in
                   bind (checked_sendrecv fuel ciphertext
                           (Z.of_nat (length text)) true (only_sent port))
                        (fun _ => ret tt))
         (World (Wire chunks' e []) (tr ++ evs)).
Proof.
  intros Hne Hcat Hn Hk Hfuel Hfn Hfk.
  destruct (wire_field_read (Z.of_nat (length text)) ltac:(lia))
    as [Hlen_n Hatoi_n].
  destruct (wire_field_read (Z.of_nat (length key)) ltac:(lia))
    as [Hlen_k Hatoi_k].
  unfold child_payload.
  (* the length of the text *)
  rewrite (bind_eq_Ok _ _ _ _ _ (alloc_pos (BUF_LEN + 1) _ eq_refl)).
  destruct (checked_recv_exact fuel chunks
              (wire_field (Z.of_nat (length text))) _
              (replicate (Z.to_nat (BUF_LEN + 1)) 0) e [] tr
              (only_received port) Hne Hcat)
    as (chunks1 & evs1 & Hrun1 & Hcat1 & Hne1 & Hev1).
  { rewrite Hlen_n, length_replicate.
    change (Z.to_nat (BUF_LEN + 1)) with 10%nat. lia. }
  { lia. }
  rewrite Hlen_n in Hrun1. change (Z.of_nat 9) with BUF_LEN in Hrun1.
  rewrite (bind_eq_Ok _ _ _ _ _ Hrun1).
  change (drop (9 + 1) (replicate (Z.to_nat (BUF_LEN + 1)) 0)) with (@nil Z).
  rewrite (bind_eq_Ok _ _ _ _ _ (defined_Some _ _ _ Hatoi_n)).
  (* the text *)
  rewrite (bind_eq_Ok _ _ _ _ _
             (alloc_pos (Z.of_nat (length text) + 1) _ ltac:(lia))).
  destruct (checked_recv_exact fuel chunks1 text _
              (replicate (Z.to_nat (Z.of_nat (length text) + 1)) 0) e []
              (tr ++ evs1) (only_received port) Hne1 Hcat1)
    as (chunks2 & evs2 & Hrun2 & Hcat2 & Hne2 & Hev2).
  { rewrite length_replicate. lia. }
  { lia. }
  rewrite (bind_eq_Ok _ _ _ _ _ Hrun2).
  replace (Z.to_nat (Z.of_nat (length text) + 1)) with (length text + 1)%nat
    by lia.
  rewrite drop_replicate_all.
  (* the length of the key *)
  rewrite (bind_eq_Ok _ _ _ _ _ (alloc_pos (BUF_LEN + 1) _ eq_refl)).
  destruct (checked_recv_exact fuel chunks2
              (wire_field (Z.of_nat (length key))) _
              (replicate (Z.to_nat (BUF_LEN + 1)) 0) e []
              ((tr ++ evs1) ++ evs2) (only_received port) Hne2 Hcat2)
    as (chunks3 & evs3 & Hrun3 & Hcat3 & Hne3 & Hev3).
  { rewrite Hlen_k, length_replicate.
    change (Z.to_nat (BUF_LEN + 1)) with 10%nat. lia. }
  { lia. }
  rewrite Hlen_k in Hrun3. change (Z.of_nat 9) with BUF_LEN in Hrun3.
  rewrite (bind_eq_Ok _ _ _ _ _ Hrun3).
  change (drop (9 + 1) (replicate (Z.to_nat (BUF_LEN + 1)) 0)) with (@nil Z).
  rewrite (bind_eq_Ok _ _ _ _ _ (defined_Some _ _ _ Hatoi_k)).
  (* the key *)
  rewrite (bind_eq_Ok _ _ _ _ _
             (alloc_pos (Z.of_nat (length key) + 1) _ ltac:(lia))).
  destruct (checked_recv_exact fuel chunks3 key more
              (replicate (Z.to_nat (Z.of_nat (length key) + 1)) 0) e []
              (((tr ++ evs1) ++ evs2) ++ evs3) (only_received port) Hne3 Hcat3)
    as (chunks4 & evs4 & Hrun4 & Hcat4 & Hne4 & Hev4).
  { rewrite length_replicate. lia. }
  { lia. }
  rewrite (bind_eq_Ok _ _ _ _ _ Hrun4).
  replace (Z.to_nat (Z.of_nat (length key) + 1)) with (length key + 1)%nat
    by lia.
  rewrite drop_replicate_all.
  (* the cipher buffer *)
  rewrite (bind_eq_Ok _ _ _ _ _
             (alloc_pos (Z.of_nat (length text) + 1) _ ltac:(lia))).
  replace (Z.to_nat (Z.of_nat (length text) + 1)) with (S (length text))
    by lia.
  exists chunks4, (evs1 ++ evs2 ++ evs3 ++ evs4).
  split; [exact Hcat4|]. split; [exact Hne4|].
  split; [repeat (apply Forall_app; split); assumption|].
  rewrite !app_assoc. reflexivity.
Qed.

(** The child up to the frames of the payload, for a client that shows
    the tag of the service. *)
Lemma child_admits fuel port listeningFD connectedFD (chunks : list (list Z))
    (more : list Z) e tr :
  Forall (fun chunk => chunk <> []) chunks ->
  concat chunks = chars "otp_enc" ++ more ->
  (7 < fuel)%nat ->
  exists chunks' evs,
    concat chunks' = more /\
    Forall (fun chunk => chunk <> []) chunks' /\
    sent evs = chars "PASS" /\
    Forall (fun ev => is_network ev = true) evs /\
    child fuel port listeningFD connectedFD (World (Wire chunks e []) tr) =
    bind (child_payload fuel port)
         (fun _ => bind (close listeningFD)
                     (fun _ => bind (close connectedFD) (fun _ => exit 0)))
         (World (Wire chunks' e []) (tr ++ evs)).
Proof.
  intros Hne Hcat Hfuel. unfold child.
  rewrite (bind_eq_Ok _ _ _ _ _ (alloc_pos (ID_LEN + 1) _ eq_refl)).
  destruct (checked_recv_exact fuel chunks (chars "otp_enc") more
              (replicate (Z.to_nat (ID_LEN + 1)) 0) e [] tr
              (only_received port) Hne Hcat)
    as (chunks1 & evs1 & Hrun1 & Hcat1 & Hne1 & Hev1).
  { rewrite length_replicate. change (length (chars "otp_enc")) with 7%nat.
    change (Z.to_nat (ID_LEN + 1)) with 8%nat. lia. }
  { change (length (chars "otp_enc")) with 7%nat. lia. }
  change (Z.of_nat (length (chars "otp_enc"))) with ID_LEN in Hrun1.
  rewrite (bind_eq_Ok _ _ _ _ _ Hrun1).
  rewrite (bind_eq_Ok _ _ _ _ _ (alloc_pos (AUTH_LEN + 1) _ eq_refl)).
  rewrite (bind_eq_Ok _ _ _ [0; 0; 0; 0; 0] (World (Wire chunks1 e []) (tr ++ evs1)))
    by reflexivity.
  rewrite (bind_eq_Ok _ _ _ true (World (Wire chunks1 e []) (tr ++ evs1)))
    by reflexivity.
  rewrite (bind_eq_Ok _ _ _ (literal "PASS")
             (World (Wire chunks1 e []) (tr ++ evs1))) by reflexivity.
  rewrite (bind_eq_Ok _ _ _ _ _
             (checked_send_wire fuel (literal "PASS") AUTH_LEN chunks1 e
                (tr ++ evs1) (only_sent port) ltac:(split; [reflexivity | discriminate])
                ltac:(lia))).
  rewrite (bind_eq_Ok _ _ _ true
             (World (Wire chunks1 e [])
                ((tr ++ evs1) ++
                 [EvSend (take (Z.to_nat AUTH_LEN) (literal "PASS"))])))
    by reflexivity.
  cbn [when].
  exists chunks1,
    (evs1 ++ [EvSend (take (Z.to_nat AUTH_LEN) (literal "PASS"))]).
  split; [exact Hcat1|]. split; [exact Hne1|].
  split; [rewrite sent_app, (is_recv_sent _ Hev1); reflexivity|].
  split.
  { apply Forall_app. split.
    - eapply Forall_impl; [exact Hev1|].
      intros [] H; cbn in H; try discriminate; reflexivity.
    - apply List.Forall_cons; [reflexivity | apply List.Forall_nil]. }
  rewrite app_assoc. reflexivity.
Qed.

End ServiceRun.

(** X16: the service does its work. On a connection that delivers, in
    whatever chunks, the tag "otp_enc", the length field of a text, the
    text, the length field of a key and the key, the key being at least as
    long as the text, the child answers "PASS" and then the ciphertext of
    the text under the first characters of the key, closes its two
    descriptors and ends with [exit(0)]; what the client sent beyond the
    key is left on the connection. Over the alphabet the ciphertext is the
    sum of the indices modulo 27. *)
Theorem child_serves_ciphertext (fuel : nat) (port listeningFD connectedFD : Z)
    (chunks : list (list Z)) (text key more : list Z) (e : ending)
    (tr : list event) :
  Forall (fun chunk => chunk <> []) chunks ->
  concat chunks =
    chars "otp_enc" ++ wire_field (Z.of_nat (length text)) ++ text ++
    wire_field (Z.of_nat (length key)) ++ key ++ more ->
  (1 <= length text <= length key)%nat ->
  Z.of_nat (length key) < 10 ^ 9 ->
  (9 < fuel)%nat -> (length key < fuel)%nat ->
  exists chunks' evs,
    child fuel port listeningFD connectedFD (World (Wire chunks e []) tr) =
      (Exit 0, World (Wire chunks' e []) (tr ++ evs)) /\
    concat chunks' = more /\
    sent evs =
      chars "PASS" ++ zip_with enc_char text (take (length text) key) /\
    (Forall in_sigma text -> Forall in_sigma key ->
     sent evs =
       chars "PASS" ++
       transform_with code_index code_symbol text (take (length text) key)).
Proof.
  intros Hne Hcat Hlen Hk Hfuel Hfk.
  destruct (child_admits fuel port listeningFD connectedFD chunks _ e tr
              Hne Hcat ltac:(lia))
    as (chunks1 & evs1 & Hcat1 & Hne1 & Hsent1 & Hquiet1 & ->).
  destruct (child_payload_receives fuel port chunks1 text key more e
              (tr ++ evs1) Hne1 Hcat1)
    as (chunks2 & evs2 & Hcat2 & Hne2 & Hev2 & Hpay); try lia.
  unfold bind at 1. rewrite Hpay. clear Hpay.
  set (n := length text) in *.
  set (out := zip_with enc_char text (take n key)).
  assert (Henc : encrypt (text ++ [0]) (key ++ [0]) (replicate (S n) 0)
                   (Z.of_nat n) =
                 Some (map despace text ++ [0],
                       map despace (take n key) ++ drop n key ++ [0],
                       out ++ [0])).
  { rewrite <- (take_drop n key) at 1. rewrite <- app_assoc.
    unfold n. rewrite encrypt_buffers;
      [ | rewrite length_take; lia | rewrite length_replicate; lia ].
    do 3 f_equal. fold n.
    replace (n + 1)%nat with (S n) by lia. rewrite drop_replicate_all.
    reflexivity. }
  rewrite (bind_eq_Ok _ _ _ _ _ (defined_Some _ _ _ Henc)).
  assert (Hout : length out = n)
    by (unfold out; rewrite length_zip_with, length_take; lia).
  rewrite (bind_eq_Ok _ _ _ _ _
             (checked_send_wire fuel (out ++ [0]) (Z.of_nat n) chunks2 e
                ((tr ++ evs1) ++ evs2) (only_sent port)
                ltac:(rewrite length_app; cbn; lia) ltac:(lia))).
  rewrite Nat2Z.id, take_app_length' by lia.
  exists chunks2, (evs1 ++ evs2 ++ [EvSend out] ++
                   [EvClose listeningFD; EvClose connectedFD]).
  split; [cbn; rewrite <- !app_assoc; reflexivity|].
  split; [exact Hcat2|].
  assert (Hsent : sent (evs1 ++ evs2 ++ [EvSend out] ++
                        [EvClose listeningFD; EvClose connectedFD]) =
                  chars "PASS" ++ out).
  { rewrite !sent_app, Hsent1, (is_recv_sent _ Hev2). cbn [app].
    change (sent [EvSend out]) with (out ++ []).
    change (sent [EvClose listeningFD; EvClose connectedFD]) with (@nil Z).
    rewrite !app_nil_r. reflexivity. }
  split; [exact Hsent|].
  intros Ht Hkey. rewrite Hsent. f_equal. unfold out.
  apply zip_enc_char_sigma; [exact Ht | apply Forall_take, Hkey].
Qed.

Lemma child_serves_ciphertext_witness :
  exists chunks' evs,
    child 20 55555 3 4
      (World (Wire [chars "otp_e"; chars "nc5" ++ replicate 8 0 ++ chars "HE";
                    chars "LLO6" ++ replicate 8 0; chars "WORLDS"] Closed [])
             []) =
      (Exit 0, World (Wire chunks' Closed []) ([] ++ evs)) /\
    concat chunks' = [] /\
    sent evs =
      chars "PASS" ++
      zip_with enc_char (chars "HELLO")
        (take (length (chars "HELLO")) (chars "WORLDS")) /\
    (Forall in_sigma (chars "HELLO") -> Forall in_sigma (chars "WORLDS") ->
     sent evs =
       chars "PASS" ++
       transform_with code_index code_symbol (chars "HELLO")
         (take (length (chars "HELLO")) (chars "WORLDS"))).
Proof.
  apply (child_serves_ciphertext 20 55555 3 4
           [chars "otp_e"; chars "nc5" ++ replicate 8 0 ++ chars "HE";
            chars "LLO6" ++ replicate 8 0; chars "WORLDS"]
           (chars "HELLO") (chars "WORLDS") [] Closed []).
  - repeat (apply List.Forall_cons; [discriminate|]). apply List.Forall_nil.
  - vm_compute. reflexivity.
  - vm_compute. lia.
  - vm_compute. reflexivity.
  - lia.
  - vm_compute. lia.
Defined.

(** X17: the service trusts the lengths it is sent. When the key that
    arrives is more than one character shorter than the text, [encrypt]
    reads the key buffer past its end: once "PASS" has been sent and the
    four messages received, the run of the child is undefined; up to there
    it has only used the connection, so that nothing was reported on
    stderr. *)
Theorem child_short_key_is_undefined (fuel : nat)
    (port listeningFD connectedFD : Z) (chunks : list (list Z))
    (text key more : list Z) (e : ending) (tr : list event) :
  Forall (fun chunk => chunk <> []) chunks ->
  concat chunks =
    chars "otp_enc" ++ wire_field (Z.of_nat (length text)) ++ text ++
    wire_field (Z.of_nat (length key)) ++ key ++ more ->
  (length key + 1 < length text)%nat ->
  Z.of_nat (length text) < 10 ^ 9 ->
  (9 < fuel)%nat -> (length text < fuel)%nat ->
  exists chunks' evs,
    child fuel port listeningFD connectedFD (World (Wire chunks e []) tr) =
      (Undef, World (Wire chunks' e []) (tr ++ evs)) /\
    sent evs = chars "PASS" /\
    Forall (fun ev => is_network ev = true) evs.
Proof.
  intros Hne Hcat Hlen Hn Hfuel Hfn.
  destruct (child_admits fuel port listeningFD connectedFD chunks _ e tr
              Hne Hcat ltac:(lia))
    as (chunks1 & evs1 & Hcat1 & Hne1 & Hsent1 & Hquiet1 & ->).
  destruct (child_payload_receives fuel port chunks1 text key more e
              (tr ++ evs1) Hne1 Hcat1)
    as (chunks2 & evs2 & Hcat2 & Hne2 & Hev2 & Hpay); try lia.
  unfold bind at 1. rewrite Hpay. clear Hpay.
  assert (Henc : encrypt (text ++ [0]) (key ++ [0])
                   (replicate (S (length text)) 0)
                   (Z.of_nat (length text)) = None).
  { destruct (encrypt _ _ _ _) as [r|] eqn:E; [|reflexivity].
    exfalso.
    assert (Hdef : is_Some (encrypt (text ++ [0]) (key ++ [0])
                              (replicate (S (length text)) 0)
                              (Z.of_nat (length text))))
      by (rewrite E; eexists; reflexivity).
    apply encrypt_defined in Hdef; [|lia].
    rewrite !length_app in Hdef. cbn [length] in Hdef. lia. }
  rewrite Henc. unfold bind at 1. cbn [defined].
  exists chunks2, (evs1 ++ evs2). rewrite app_assoc.
  split; [reflexivity|].
  split; [rewrite sent_app, Hsent1, (is_recv_sent _ Hev2); apply app_nil_r|].
  apply Forall_app. split.
  - exact Hquiet1.
  - eapply Forall_impl; [exact Hev2|].
    intros [] H; cbn in H; try discriminate; reflexivity.
Qed.

Lemma child_short_key_is_undefined_witness :
  exists chunks' evs,
    child 20 55555 3 4
      (World (Wire [chars "otp_enc"; chars "5" ++ replicate 8 0;
                    chars "HELLO"; chars "2" ++ replicate 8 0; chars "AB"]
                   Closed []) []) =
      (Undef, World (Wire chunks' Closed []) ([] ++ evs)) /\
    sent evs = chars "PASS" /\
    Forall (fun ev => is_network ev = true) evs.
Proof.
  apply (child_short_key_is_undefined 20 55555 3 4
           [chars "otp_enc"; chars "5" ++ replicate 8 0;
            chars "HELLO"; chars "2" ++ replicate 8 0; chars "AB"]
           (chars "HELLO") (chars "AB") [] Closed []).
  - repeat (apply List.Forall_cons; [discriminate|]). apply List.Forall_nil.
  - vm_compute. reflexivity.
  - vm_compute. lia.
  - vm_compute. reflexivity.
  - lia.
  - vm_compute. lia.
Defined.
(** ** The client on a connection that delivers *)

Section ClientRun.

Lemma checked_send_field fuel (n : Z) chunks e tr msg :
  (2 <= fuel)%nat ->
  checked_sendrecv fuel (length_field_buf n) BUF_LEN true msg
    (World (Wire chunks e []) tr) =
  (Ok (length_field_buf n),
   World (Wire chunks e []) (tr ++ [EvSend (wire_field n)])).
Proof.
  intros Hfuel. apply checked_send_wire; [|exact Hfuel].
  rewrite length_field_buf_length. unfold BUF_LEN. lia.
Qed.

Lemma checked_send_string fuel (s : list Z) chunks e tr msg :
  (1 <= length s)%nat -> (2 <= fuel)%nat ->
  checked_sendrecv fuel (s ++ [0]) (Z.of_nat (length s)) true msg
    (World (Wire chunks e []) tr) =
  (Ok (s ++ [0]), World (Wire chunks e []) (tr ++ [EvSend s])).
Proof.
  intros Hs Hfuel.
  rewrite checked_send_wire; [|rewrite length_app; cbn; lia|exact Hfuel].
  rewrite Nat2Z.id, take_app_length. reflexivity.
Qed.

(** The messages of an admitted client: the four messages go out, the
    result comes back and is printed. *)
Lemma main_payload_served fuel port (ct kt result more : list Z)
    (chunks : list (list Z)) e tr :
  Forall (fun chunk => chunk <> []) chunks ->
  concat chunks = result ++ more ->
  length result = length ct ->
  Forall (fun c => c <> 0) result ->
  (1 <= length ct)%nat -> (1 <= length kt)%nat ->
  (2 <= fuel)%nat -> (length ct < fuel)%nat ->
  exists chunks' evs,
    main_payload fuel port (Z.of_nat (length ct)) (Z.of_nat (length kt))
      (ct ++ [0]) (kt ++ [0]) (World (Wire chunks e []) tr) =
      (Ok tt,
       World (Wire chunks' e [])
         (tr ++ evs ++ [EvStdout (text_of_chars result ++ nl)])) /\
    concat chunks' = more /\
    Forall (fun chunk => chunk <> []) chunks' /\
    sent evs =
      wire_field (Z.of_nat (length ct)) ++ ct ++
      wire_field (Z.of_nat (length kt)) ++ kt /\
    Forall (fun ev => is_network ev = true) evs.
Proof.
  intros Hne Hcat Hres Hnz Hct Hkt Hfuel Hfn. unfold main_payload.
  rewrite (bind_eq_Ok _ _ _ _ _ (length_field_eq _ _)).
  rewrite (bind_eq_Ok _ _ _ _ _
             (checked_send_field fuel _ chunks e _ _ ltac:(lia))).
  rewrite (bind_eq_Ok _ _ _ _ _
             (checked_send_string fuel ct chunks e _ _ Hct ltac:(lia))).
  rewrite (bind_eq_Ok _ _ _ _ _ (length_field_eq _ _)).
  rewrite (bind_eq_Ok _ _ _ _ _
             (checked_send_field fuel _ chunks e _ _ ltac:(lia))).
  rewrite (bind_eq_Ok _ _ _ _ _
             (checked_send_string fuel kt chunks e _ _ Hkt ltac:(lia))).
  rewrite (bind_eq_Ok _ _ _ _ _
             (alloc_pos (Z.of_nat (length ct) + 1) _ ltac:(lia))).
  rewrite <- Hres.
  destruct (checked_recv_exact fuel chunks result more
              (replicate (Z.to_nat (Z.of_nat (length result) + 1)) 0) e []
              ((((tr ++ [EvSend (wire_field (Z.of_nat (length result)))]) ++
                 [EvSend ct]) ++
                [EvSend (wire_field (Z.of_nat (length kt)))]) ++
               [EvSend kt])
              (short_transfer "encryption were recevied from" port)
              Hne Hcat)
    as (chunks2 & evs2 & Hrun2 & Hcat2 & Hne2 & Hev2).
  { rewrite length_replicate. lia. }
  { lia. }
  rewrite (bind_eq_Ok _ _ _ _ _ Hrun2).
  rewrite (bind_eq_Ok _ _ _ _ _ (defined_Some _ _ _ (cstr_app _ _ Hnz))).
  exists chunks2,
    ([EvSend (wire_field (Z.of_nat (length result)))] ++ [EvSend ct] ++
     [EvSend (wire_field (Z.of_nat (length kt)))] ++ [EvSend kt] ++ evs2).
  split.
  { unfold stdout, emit. cbn [trace net].
    rewrite <- !app_assoc. reflexivity. }
  split; [exact Hcat2|]. split; [exact Hne2|]. split.
  - rewrite !sent_app, (is_recv_sent _ Hev2).
    unfold sent. cbn [map concat]. rewrite !app_nil_r.
    reflexivity.
  - repeat (apply Forall_app; split);
      try (apply List.Forall_cons; [reflexivity | apply List.Forall_nil]).
    eapply Forall_impl; [exact Hev2|].
    intros [] H; cbn in H; try discriminate; reflexivity.
Qed.

(** The exchange of an admitted client, from the tag on. *)
Lemma main_exchange_served fuel port sockFD (ct kt result more : list Z)
    (chunks : list (list Z)) e tr :
  Forall (fun chunk => chunk <> []) chunks ->
  concat chunks = chars "PASS" ++ result ++ more ->
  length result = length ct ->
  Forall (fun c => c <> 0) result ->
  (1 <= length ct)%nat -> (1 <= length kt)%nat ->
  (4 < fuel)%nat -> (length ct < fuel)%nat ->
  exists chunks' evs,
    main_exchange fuel port (Z.of_nat (length ct)) (Z.of_nat (length kt))
      sockFD (ct ++ [0]) (kt ++ [0]) (World (Wire chunks e []) tr) =
      (Ok 0,
       World (Wire chunks' e [])
         (tr ++ evs ++
          [EvStdout (text_of_chars result ++ nl); EvClose sockFD])) /\
    concat chunks' = more /\
    Forall (fun chunk => chunk <> []) chunks' /\
    sent evs =
      chars "otp_dec" ++ wire_field (Z.of_nat (length ct)) ++ ct ++
      wire_field (Z.of_nat (length kt)) ++ kt /\
    Forall (fun ev => is_network ev = true) evs.
Proof.
  intros Hne Hcat Hres Hnz Hct Hkt Hfuel Hfn. unfold main_exchange.
  rewrite (bind_eq_Ok _ _ _ _ _
             (checked_send_wire fuel (literal "otp_dec") ID_LEN chunks e tr
                (short_transfer "id were sent to" port)
                ltac:(split; [reflexivity | discriminate]) ltac:(lia))).
  change (take (Z.to_nat ID_LEN) (literal "otp_dec")) with (chars "otp_dec").
  rewrite (bind_eq_Ok _ _ _ _ _ (alloc_pos (AUTH_LEN + 1) _ eq_refl)).
  destruct (checked_recv_exact fuel chunks (chars "PASS") (result ++ more)
              (replicate (Z.to_nat (AUTH_LEN + 1)) 0) e []
              (tr ++ [EvSend (chars "otp_dec")])
              (short_transfer "auth were received from" port) Hne Hcat)
    as (chunks1 & evs1 & Hrun1 & Hcat1 & Hne1 & Hev1).
  { reflexivity. }
  { change (length (chars "PASS")) with 4%nat. lia. }
  change (Z.of_nat (length (chars "PASS"))) with AUTH_LEN in Hrun1.
  rewrite (bind_eq_Ok _ _ _ _ _ Hrun1).
  rewrite (bind_eq_Ok _ _ _ true
             (World (Wire chunks1 e [])
                ((tr ++ [EvSend (chars "otp_dec")]) ++ evs1)))
    by reflexivity.
  cbn [negb].
  destruct (main_payload_served fuel port ct kt result more chunks1 e
              ((tr ++ [EvSend (chars "otp_dec")]) ++ evs1)
              Hne1 Hcat1 Hres Hnz Hct Hkt ltac:(lia) Hfn)
    as (chunks2 & evs2 & Hrun2 & Hcat2 & Hne2 & Hsent2 & Hnet2).
  rewrite (bind_eq_Ok _ _ _ _ _ Hrun2).
  exists chunks2, ([EvSend (chars "otp_dec")] ++ evs1 ++ evs2).
  split.
  { unfold bind, close, emit, ret. cbn [trace net].
    rewrite <- !app_assoc. reflexivity. }
  split; [exact Hcat2|]. split; [exact Hne2|]. split.
  - rewrite !sent_app, (is_recv_sent _ Hev1), Hsent2.
    unfold sent. cbn [map concat]. rewrite !app_nil_r. reflexivity.
  - repeat (apply Forall_app; split);
      try (apply List.Forall_cons; [reflexivity | apply List.Forall_nil]);
      [|exact Hnet2].
    eapply Forall_impl; [exact Hev1|].
    intros [] H; cbn in H; try discriminate; reflexivity.
Qed.

End ClientRun.

(** X18: the client does its work. With three arguments, a port in range,
    two files whose first lines are a text and a key at least as long, and
    a service that answers "PASS" and then as many characters as the text
    has, none of them NUL, [main] returns 0. It creates and connects one
    socket, sends the tag "otp_dec", the length field and the first line of
    the text file, the length field and the first line of the key file, in
    that order and nothing else, prints the answer followed by a newline
    and closes the socket; below port 50000 a warning is printed first. *)
Theorem main_sends_files_and_prints_answer (fuel : nat) (e : env)
    (prog textfile keyfile portarg text trest key krest : string)
    (result more : list Z) (chunks : list (list Z)) (ending : ending)
    (tr : list event) :
  argv e = [prog; textfile; keyfile; portarg] ->
  0 <= atoi_chars (chars portarg) <= 65535 ->
  files e textfile = Some (text ++ nl ++ trest)%string -> one_line text ->
  files e keyfile = Some (key ++ nl ++ krest)%string -> one_line key ->
  (1 <= String.length text <= String.length key)%nat ->
  host_known e = true -> 0 <= socket_fd e -> 0 <= connect_res e ->
  Forall (fun chunk => chunk <> []) chunks ->
  concat chunks = chars "PASS" ++ result ++ more ->
  length result = String.length text ->
  Forall (fun c => c <> 0) result ->
  (4 < fuel)%nat -> (String.length key < fuel)%nat ->
  exists chunks' evs,
    main fuel e (World (Wire chunks ending []) tr) =
      (Ok 0,
       World (Wire chunks' ending [])
         (tr ++
          (if atoi_chars (chars portarg) <? 50000
           then [EvStdout
                   ("otp_dec: WARNING, recommended to use a port number above 50000"
                    ++ nl)]
           else []) ++
          [EvSocket; EvConnect] ++ evs ++
          [EvStdout (text_of_chars result ++ nl); EvClose (socket_fd e)])) /\
    concat chunks' = more /\
    sent evs =
      chars "otp_dec" ++
      wire_field (Z.of_nat (String.length text)) ++ file_chars text ++
      wire_field (Z.of_nat (String.length key)) ++ file_chars key /\
    Forall (fun ev => is_network ev = true) evs.
Proof.
  intros Hargv Hport Htext Htline Hkey Hkline Hlen Hhost Hsock Hconn
    Hne Hcat Hres Hnz Hfuel Hfk.
  unfold main. rewrite Hargv. cbn [length Nat.eqb negb nth].
  rewrite (bind_eq_Ok _ _ _ _ _
             (defined_Some _ _ _
                (atoi_arg_Some portarg ltac:(unfold INT_MIN, INT_MAX; lia)))).
  set (port := atoi_chars (chars portarg)) in *.
  replace ((port <? 0) || (port >? 65535)) with false
    by (symmetry; apply orb_false_intro;
        [apply Z.ltb_ge | rewrite Z.gtb_ltb; apply Z.ltb_ge]; lia).
  set (w0 := World (Wire chunks ending []) tr).
  set (warning :=
         ("otp_dec: WARNING, recommended to use a port number above 50000"
          ++ nl)%string).
  set (tr1 := tr ++ (if port <? 50000 then [EvStdout warning] else [])).
  assert (Hwarn : when (port <? 50000) (stdout warning) w0 =
                  (Ok tt, World (Wire chunks ending []) tr1)).
  { unfold tr1. destruct (port <? 50000); cbn; [reflexivity|].
    rewrite app_nil_r. reflexivity. }
  rewrite (bind_eq_Ok _ _ _ _ _ Hwarn).
  rewrite (bind_eq_Ok _ _ _ _ _
             (scanfile_line fuel e textfile text trest _ Htext Htline
                ltac:(lia))).
  destruct (Z.ltb_spec (Z.of_nat (String.length text)) 1); [lia|].
  rewrite (bind_eq_Ok _ _ _ _ _
             (scanfile_line fuel e keyfile key krest _ Hkey Hkline
                ltac:(lia))).
  destruct (Z.ltb_spec (Z.of_nat (String.length key)) 1); [lia|].
  destruct (Z.ltb_spec (Z.of_nat (String.length key))
              (Z.of_nat (String.length text))); [lia|].
  rewrite (bind_eq_Ok _ _ _ _ _
             (alloc_pos (Z.of_nat (String.length text) + 1) _ ltac:(lia))).
  rewrite (bind_eq_Ok _ _ _ _ _
             (readfile_line e textfile text trest
                (replicate (Z.to_nat (Z.of_nat (String.length text) + 1)) 0)
                _ Htext Htline ltac:(rewrite length_replicate; lia))).
  rewrite (bind_eq_Ok _ _ _ _ _
             (alloc_pos (Z.of_nat (String.length key) + 1) _ ltac:(lia))).
  rewrite (bind_eq_Ok _ _ _ _ _
             (readfile_line e keyfile key krest
                (replicate (Z.to_nat (Z.of_nat (String.length key) + 1)) 0)
                _ Hkey Hkline ltac:(rewrite length_replicate; lia))).
  rewrite Hhost. cbn [negb].
  rewrite (bind_eq_Ok _ _ _ tt
             (World (Wire chunks ending []) (tr1 ++ [EvSocket])))
    by reflexivity.
  destruct (Z.ltb_spec (socket_fd e) 0); [lia|].
  rewrite (bind_eq_Ok _ _ _ tt
             (World (Wire chunks ending [])
                ((tr1 ++ [EvSocket]) ++ [EvConnect])))
    by reflexivity.
  destruct (Z.ltb_spec (connect_res e) 0); [lia|].
  rewrite <- (file_chars_length text), <- (file_chars_length key).
  destruct (main_exchange_served fuel port (socket_fd e)
              (file_chars text) (file_chars key) result more chunks ending
              ((tr1 ++ [EvSocket]) ++ [EvConnect]) Hne Hcat)
    as (chunks' & evs & Hrun & Hcat' & _ & Hsent & Hnet);
    rewrite ?file_chars_length; try lia; try assumption.
  rewrite file_chars_length in Hrun, Hsent.
  rewrite file_chars_length in Hrun, Hsent.
  exists chunks', evs.
  split; [|split; [exact Hcat' | split; [exact Hsent | exact Hnet]]].
  rewrite Hrun. unfold tr1. rewrite <- !app_assoc. reflexivity.
Qed.

Lemma main_sends_files_and_prints_answer_witness :
  exists chunks' evs,
    main 20 (example_env "cipher" "key")
      (World (Wire [chars "PA"; chars "SSHEL"; chars "LO"] Closed []) []) =
      (Ok 0,
       World (Wire chunks' Closed [])
         ([] ++
          (if atoi_chars (chars "55555") <? 50000
           then [EvStdout
                   ("otp_dec: WARNING, recommended to use a port number above 50000"
                    ++ nl)]
           else []) ++
          [EvSocket; EvConnect] ++ evs ++
          [EvStdout (text_of_chars (chars "HELLO") ++ nl);
           EvClose (socket_fd (example_env "cipher" "key"))])) /\
    concat chunks' = [] /\
    sent evs =
      chars "otp_dec" ++
      wire_field (Z.of_nat (String.length "DTCXS")) ++ file_chars "DTCXS" ++
      wire_field (Z.of_nat (String.length "WORLDS")) ++ file_chars "WORLDS" /\
    Forall (fun ev => is_network ev = true) evs.
Proof.
  apply (main_sends_files_and_prints_answer 20 (example_env "cipher" "key")
           "otp_dec" "cipher" "key" "55555" "DTCXS" "" "WORLDS" ""
           (chars "HELLO") [] [chars "PA"; chars "SSHEL"; chars "LO"]
           Closed []).
  - reflexivity.
  - vm_compute. split; discriminate.
  - reflexivity.
  - repeat (apply List.Forall_cons; [discriminate|]). apply List.Forall_nil.
  - reflexivity.
  - repeat (apply List.Forall_cons; [discriminate|]). apply List.Forall_nil.
  - vm_compute. lia.
  - reflexivity.
  - vm_compute. discriminate.
  - vm_compute. discriminate.
  - repeat (apply List.Forall_cons; [discriminate|]). apply List.Forall_nil.
  - reflexivity.
  - reflexivity.
  - repeat (apply List.Forall_cons; [discriminate|]). apply List.Forall_nil.
  - lia.
  - vm_compute. lia.
Defined.

Section ClientExits.

Context {conn : Type} `{Socket conn}.

Lemma scanfile_cases fuel e filename (w : world conn) :
  (exists n, scanfile fuel e filename w = (Ok n, w)) \/
  scanfile fuel e filename w =
    (Exit 1, World (net w) (trace w ++ [EvStderr (cannot_open filename)])) \/
  scanfile fuel e filename w = (Spin, w).
Proof.
  unfold scanfile. destruct (files e filename) as [content|].
  - rewrite scanfile_loop_scan_line.
    destruct (scan_line _ _ _) as [n|]; [left; exists n|right; right];
      reflexivity.
  - right. left. reflexivity.
Qed.

Lemma readfile_cases e filename (str : list Z) len (w : world conn) :
  (exists buf, readfile e filename str len w = (Ok buf, w)) \/
  readfile e filename str len w =
    (Exit 1, World (net w) (trace w ++ [EvStderr (cannot_open filename)])) \/
  readfile e filename str len w = (Undef, w).
Proof.
  unfold readfile, bind, defined.
  destruct (Buf.memset str 0 len) as [str'|]; [|right; right; reflexivity].
  destruct (files e filename) as [content|].
  - destruct (fgets str' len (list_ascii_of_string content)) as [buf|];
      [left; exists buf|right; right]; reflexivity.
  - right. left. reflexivity.
Qed.

Lemma alloc_cases (n : Z) (w : world conn) :
  (exists buf, alloc n w = (Ok buf, w)) \/ alloc n w = (Undef, w).
Proof.
  unfold alloc. destruct (0 <? n); [left; eexists|right]; reflexivity.
Qed.

End ClientExits.

(** X19: what the exit status of the client tells. Whenever [main], started
    with a program name in [argv], ends through [exit], on any connection
    and with any files, the status is 1
    or 2 and the last thing the run did was to write a diagnostic to
    standard error. Status 1 is kept for what the client finds out by
    itself (usage, files that cannot be opened or are empty, a key shorter
    than the text): a run that ends with it has made no socket call, so
    that the connection is as it was. *)
Theorem main_exit_status_1_is_local {conn : Type} `{Socket conn}
    (fuel : nat) (e : env) (w w' : world conn) (c : Z) :
  argv e <> [] ->
  main fuel e w = (Exit c, w') ->
  (c = 1 \/ c = 2) /\
  (exists tr msg, trace w' = tr ++ [EvStderr msg]) /\
  (c = 1 ->
   net w' = net w /\
   exists evs,
     trace w' = trace w ++ evs /\
     Forall (fun ev => is_network ev = false) evs).
Proof.
  intros _ Hrun.
  assert (Hlocal : forall (A : Type) k msg (w1 : world conn) d,
             k = 1 \/ k = 2 ->
             net w1 = net w -> trace w1 = trace w ++ d ->
             Forall (fun ev => is_network ev = false) d ->
             (stderr msg ;; exit (A := A) k)%proc w1 = (Exit c, w') ->
             (c = 1 \/ c = 2) /\
             (exists tr msg, trace w' = tr ++ [EvStderr msg]) /\
             (c = 1 ->
              net w' = net w /\
              exists evs,
                trace w' = trace w ++ evs /\
                Forall (fun ev => is_network ev = false) evs)).
  { intros A k msg w1 d Hk Hnet Htr Hd [= <- <-]. split; [exact Hk|]. split.
    - eexists _, _. reflexivity.
    - intros _. split; [exact Hnet|].
      exists (d ++ [EvStderr msg]). cbn [trace]. rewrite Htr, app_assoc.
      split; [reflexivity|].
      apply Forall_app. split; [exact Hd|].
      apply List.Forall_cons; [reflexivity | apply List.Forall_nil]. }
  assert (Hremote : forall msg (w1 : world conn),
             (stderr msg ;; exit (A := Z) 2)%proc w1 = (Exit c, w') ->
             (c = 1 \/ c = 2) /\
             (exists tr msg, trace w' = tr ++ [EvStderr msg]) /\
             (c = 1 ->
              net w' = net w /\
              exists evs,
                trace w' = trace w ++ evs /\
                Forall (fun ev => is_network ev = false) evs)).
  { intros msg w1 [= <- <-]. split; [right; reflexivity|]. split.
    - eexists _, _. reflexivity.
    - discriminate. }
  unfold main in Hrun.
  destruct (Nat.eqb (length (argv e)) 4); cbn [negb] in Hrun.
  2:{ eapply (Hlocal _ 1 _ w []);
        [ left; reflexivity | reflexivity | symmetry; apply app_nil_r
        | apply List.Forall_nil | exact Hrun ]. }
  apply bind_Exit in Hrun as [Hrun|(port & w0 & Hport & Hrun)].
  { exfalso. revert Hrun. apply no_exit_defined. }
  apply defined_Ok in Hport as [_ ->].
  destruct ((port <? 0) || (port >? 65535)).
  { eapply (Hlocal _ 2 _ w []);
      [ right; reflexivity | reflexivity | symmetry; apply app_nil_r
      | apply List.Forall_nil | exact Hrun ]. }
  apply bind_Exit in Hrun as [Hrun|([] & w1 & Hwarn & Hrun)].
  { exfalso. revert Hrun. apply no_exit_when, no_exit_emit. }
  assert (Hw1 : exists d, w1 = World (net w) (trace w ++ d) /\
                          Forall (fun ev => is_network ev = false) d).
  { destruct (port <? 50000); cbn in Hwarn; injection Hwarn as <-.
    - eexists. split; [reflexivity|].
      apply List.Forall_cons; [reflexivity | apply List.Forall_nil].
    - exists []. rewrite app_nil_r. split; [|apply List.Forall_nil].
      destruct w; reflexivity. }
  destruct Hw1 as (d & -> & Hd). clear Hwarn.
  set (w1 := World (net w) (trace w ++ d)) in *.
  (* the text file is scanned *)
  apply bind_Exit in Hrun as [Hrun|(textLen & w2 & Hscan & Hrun)].
  { destruct (scanfile_cases fuel e (nth 1 (argv e) EmptyString) w1)
      as [(n & E)|[E|E]]; rewrite E in Hrun; try discriminate.
    eapply (Hlocal _ 1 _ w1 d);
      [left; reflexivity | reflexivity | reflexivity | exact Hd | exact Hrun]. }
  destruct (scanfile_cases fuel e (nth 1 (argv e) EmptyString) w1)
    as [(n & E)|[E|E]]; rewrite E in Hscan; try discriminate.
  injection Hscan as <- <-. clear E.
  destruct (n <? 1).
  { eapply (Hlocal _ 1 _ w1 d);
      [left; reflexivity | reflexivity | reflexivity | exact Hd | exact Hrun]. }
  (* the key file is scanned *)
  apply bind_Exit in Hrun as [Hrun|(keyLen & w2 & Hscan & Hrun)].
  { destruct (scanfile_cases fuel e (nth 2 (argv e) EmptyString) w1)
      as [(k & E)|[E|E]]; rewrite E in Hrun; try discriminate.
    eapply (Hlocal _ 1 _ w1 d);
      [left; reflexivity | reflexivity | reflexivity | exact Hd | exact Hrun]. }
  destruct (scanfile_cases fuel e (nth 2 (argv e) EmptyString) w1)
    as [(k & E)|[E|E]]; rewrite E in Hscan; try discriminate.
  injection Hscan as <- <-. clear E.
  destruct (k <? 1).
  { eapply (Hlocal _ 1 _ w1 d);
      [left; reflexivity | reflexivity | reflexivity | exact Hd | exact Hrun]. }
  destruct (k <? n).
  { eapply (Hlocal _ 1 _ w1 d);
      [left; reflexivity | reflexivity | reflexivity | exact Hd | exact Hrun]. }
  (* the two files are read *)
  apply bind_Exit in Hrun as [Hrun|(ciphertext & w2 & Halloc & Hrun)].
  { exfalso. revert Hrun. apply no_exit_alloc. }
  destruct (alloc_cases (n + 1) w1) as [(b & E)|E]; rewrite E in Halloc;
    try discriminate.
  injection Halloc as <- <-. clear E.
  apply bind_Exit in Hrun as [Hrun|(ciphertext & w2 & Hread & Hrun)].
  { destruct (readfile_cases e (nth 1 (argv e) EmptyString) b (n + 1) w1)
      as [(b' & E)|[E|E]]; rewrite E in Hrun; try discriminate.
    eapply (Hlocal _ 1 _ w1 d);
      [left; reflexivity | reflexivity | reflexivity | exact Hd | exact Hrun]. }
  destruct (readfile_cases e (nth 1 (argv e) EmptyString) b (n + 1) w1)
    as [(b' & E)|[E|E]]; rewrite E in Hread; try discriminate.
  injection Hread as <- <-. clear E.
  apply bind_Exit in Hrun as [Hrun|(key & w2 & Halloc & Hrun)].
  { exfalso. revert Hrun. apply no_exit_alloc. }
  destruct (alloc_cases (k + 1) w1) as [(kb & E)|E]; rewrite E in Halloc;
    try discriminate.
  injection Halloc as <- <-. clear E.
  apply bind_Exit in Hrun as [Hrun|(key & w2 & Hread & Hrun)].
  { destruct (readfile_cases e (nth 2 (argv e) EmptyString) kb (k + 1) w1)
      as [(kb' & E)|[E|E]]; rewrite E in Hrun; try discriminate.
    eapply (Hlocal _ 1 _ w1 d);
      [left; reflexivity | reflexivity | reflexivity | exact Hd | exact Hrun]. }
  destruct (readfile_cases e (nth 2 (argv e) EmptyString) kb (k + 1) w1)
    as [(kb' & E)|[E|E]]; rewrite E in Hread; try discriminate.
  injection Hread as <- <-. clear E.
  (* the host, the socket and the connection *)
  destruct (host_known e); cbn [negb] in Hrun.
  2:{ eapply (Hlocal _ 2 _ w1 d);
        [right; reflexivity | reflexivity | reflexivity | exact Hd | exact Hrun]. }
  apply bind_Exit in Hrun as [Hrun|([] & w2 & _ & Hrun)].
  { exfalso. revert Hrun. apply no_exit_emit. }
  destruct (socket_fd e <? 0).
  { eapply (Hremote _ w2). exact Hrun. }
  apply bind_Exit in Hrun as [Hrun|([] & w3 & _ & Hrun)].
  { exfalso. revert Hrun. apply no_exit_emit. }
  destruct (connect_res e <? 0).
  { eapply (Hremote _ w3). exact Hrun. }
  apply main_exchange_exit_is_refusal in Hrun as [-> (tr & Htr)].
  split; [right; reflexivity|]. split; [|discriminate].
  eexists _, _. exact Htr.
Qed.

Lemma main_exit_status_1_is_local_witness :
  (1 = 1 \/ 1 = 2) /\
  (exists tr msg,
     trace (snd (main 20 (example_env "cipher" "missing")
                   (closed_after [chars "PASS"]))) =
     tr ++ [EvStderr msg]) /\
  (1 = 1 ->
   net (snd (main 20 (example_env "cipher" "missing")
               (closed_after [chars "PASS"]))) =
   net (closed_after [chars "PASS"]) /\
   exists evs,
     trace (snd (main 20 (example_env "cipher" "missing")
                   (closed_after [chars "PASS"]))) =
     trace (closed_after [chars "PASS"]) ++ evs /\
     Forall (fun ev => is_network ev = false) evs).
Proof.
  apply (main_exit_status_1_is_local 20 (example_env "cipher" "missing")
           (closed_after [chars "PASS"])
           (snd (main 20 (example_env "cipher" "missing")
                   (closed_after [chars "PASS"])))
           1).
  - discriminate.
  - vm_compute. reflexivity.
Defined.

(** ** keygen.c *)

Section KeygenRun.

Context {conn : Type}.
Variable rand : nat -> Z.
Hypothesis rand_nonneg : forall k, 0 <= rand k.

(** The character that one round of the loop prints. *)
Lemma keygen_char (r : Z) :
  0 <= r ->
  (let c := to_char (Z.rem r (Keygen.MAX_CHAR - Keygen.MIN_CHAR + 1)
                     + Keygen.MIN_CHAR) in
   if c =? 64 then 32 else c) = code_symbol (r mod 27).
Proof.
  intros Hr. cbv zeta. unfold Keygen.MAX_CHAR, Keygen.MIN_CHAR.
  change (90 - 64 + 1) with 27. rewrite Z.rem_mod_nonneg by lia.
  pose proof (Z.mod_pos_bound r 27 ltac:(lia)) as Hm.
  unfold to_char, code_symbol.
  rewrite (Z.mod_small (r mod 27 + 64 + 128) 256) by lia.
  destruct (Z.eqb_spec (r mod 27 + 64 + 128 - 128) 64),
           (Z.eqb_spec (r mod 27) 0); lia.
Qed.

Lemma key_of_length (n : nat) : length (key_of rand n) = n.
Proof. unfold key_of. rewrite length_map, length_seq. reflexivity. Qed.

Lemma key_of_sigma (n : nat) : Forall in_sigma (key_of rand n).
Proof.
  unfold key_of. apply Forall_map, Forall_forall. intros k _.
  apply code_symbol_sigma.
  pose proof (Z.mod_pos_bound (rand k) 27 ltac:(lia)). lia.
Qed.

(** The events of the loop from the call [calls] of [rand()] on. *)
Lemma generate_Ok fuel :
  forall calls i keylength (w w' : world conn),
    Keygen.generate rand fuel calls i keylength w = (Ok tt, w') ->
    (Z.to_nat (keylength - i) < fuel)%nat /\
    w' = World (net w)
           (trace w ++
            map (fun k => EvStdout (text_of_chars [code_symbol (rand k mod 27)]))
              (seq calls (Z.to_nat (keylength - i)))).
Proof.
  induction fuel as [|fuel IH]; intros calls i keylength w w' Hrun;
    [discriminate|].
  cbn [Keygen.generate] in Hrun.
  destruct (Z.ltb_spec i keylength) as [Hlt|Hge].
  - rewrite keygen_char in Hrun by apply rand_nonneg.
    unfold bind at 1 in Hrun. cbn [stdout emit] in Hrun.
    apply IH in Hrun as [Hfuel ->]. cbn [net trace].
    replace (Z.to_nat (keylength - i))
      with (S (Z.to_nat (keylength - (i + 1)))) by lia.
    split; [lia|]. cbn [seq map]. rewrite <- app_assoc. reflexivity.
  - injection Hrun as <-.
    replace (Z.to_nat (keylength - i)) with 0%nat by lia.
    split; [lia|]. cbn [seq map]. rewrite app_nil_r. destruct w; reflexivity.
Qed.

Lemma generate_run fuel :
  forall calls i keylength (w : world conn),
    (Z.to_nat (keylength - i) < fuel)%nat ->
    Keygen.generate rand fuel calls i keylength w =
    (Ok tt,
     World (net w)
       (trace w ++
        map (fun k => EvStdout (text_of_chars [code_symbol (rand k mod 27)]))
          (seq calls (Z.to_nat (keylength - i))))).
Proof.
  induction fuel as [|fuel IH]; intros calls i keylength w Hfuel; [lia|].
  cbn [Keygen.generate].
  destruct (Z.ltb_spec i keylength) as [Hlt|Hge].
  - rewrite keygen_char by apply rand_nonneg.
    unfold bind at 1. cbn [stdout emit].
    rewrite IH by lia. cbn [net trace].
    replace (Z.to_nat (keylength - i))
      with (S (Z.to_nat (keylength - (i + 1)))) by lia.
    cbn [seq map]. rewrite <- app_assoc. reflexivity.
  - replace (Z.to_nat (keylength - i)) with 0%nat by lia.
    cbn [seq map]. rewrite app_nil_r. destruct w; reflexivity.
Qed.

Lemma string_append_assoc (s1 s2 s3 : string) :
  ((s1 ++ s2) ++ s3 = s1 ++ s2 ++ s3)%string.
Proof.
  induction s1 as [|a s1 IH]; [reflexivity|].
  cbn [String.append]. rewrite IH. reflexivity.
Qed.

Lemma printed_app (tr1 tr2 : list event) :
  printed (tr1 ++ tr2) = (printed tr1 ++ printed tr2)%string.
Proof.
  induction tr1 as [|[] tr1 IH]; cbn [app printed]; try exact IH;
    [reflexivity|].
  rewrite IH. symmetry. apply string_append_assoc.
Qed.

Lemma printed_chars (f : nat -> Z) (l : list nat) :
  printed (map (fun k => EvStdout (text_of_chars [f k])) l) =
  text_of_chars (map f l).
Proof.
  induction l as [|k l IH]; [reflexivity|].
  cbn [map printed]. rewrite IH. reflexivity.
Qed.

Lemma text_of_chars_app (l1 l2 : list Z) :
  text_of_chars (l1 ++ l2) = (text_of_chars l1 ++ text_of_chars l2)%string.
Proof.
  induction l1 as [|c l1 IH]; [reflexivity|].
  unfold text_of_chars in *. cbn [app map string_of_list_ascii String.append].
  rewrite IH. reflexivity.
Qed.

Lemma text_of_chars_length (l : list Z) :
  String.length (text_of_chars l) = length l.
Proof.
  induction l as [|c l IH]; [reflexivity|].
  unfold text_of_chars in *. cbn [map string_of_list_ascii String.length length].
  rewrite IH. reflexivity.
Qed.

Lemma file_chars_text (l : list Z) :
  Forall (fun c => 0 <= c <= 127) l -> file_chars (text_of_chars l) = l.
Proof.
  induction 1 as [|c l Hc _ IH]; [reflexivity|].
  unfold file_chars, text_of_chars in *.
  cbn [map string_of_list_ascii list_ascii_of_string]. rewrite IH. f_equal.
  rewrite nat_ascii_embedding by (rewrite Z.mod_small; lia).
  rewrite Z2Nat.id, Z.mod_small by (rewrite ?Z.mod_small; lia).
  unfold to_char. rewrite Z.mod_small; lia.
Qed.

Lemma sigma_ascii (l : list Z) :
  Forall in_sigma l -> Forall (fun c => 0 <= c <= 127) l.
Proof.
  intros Hl. eapply Forall_impl; [exact Hl|]. unfold in_sigma. intros c; lia.
Qed.

Lemma sigma_one_line (l : list Z) :
  Forall in_sigma l -> one_line (text_of_chars l).
Proof.
  intros Hl. unfold one_line. rewrite file_chars_text by apply sigma_ascii, Hl.
  eapply Forall_impl; [exact Hl|]. unfold in_sigma. intros c; lia.
Qed.

End KeygenRun.

(** X20: keygen prints a key. With one argument for which [atoi] returns
    a length [keylength] of at least 1 (the numeral fits an [int]; outside
    that range the call has no defined result), and [rand()] returning what
    the C standard allows (no negative value), [main] returns 0 after
    writing to standard output, and only there, [keylength] characters and
    a newline; the character at position [k] is the symbol numbered
    [rand() % 27] of the [k]-th call, in the numbering of [encrypt] (0 the
    space, 1..26 the letters), so that every one of them is in the
    alphabet. *)
Theorem keygen_prints_key {conn : Type} (rand : nat -> Z) (fuel : nat)
    (prog arg : string) (keylength : Z) (w : world conn) :
  (forall k, 0 <= rand k) ->
  atoi_arg arg = Some keylength ->
  1 <= keylength ->
  (Z.to_nat keylength < fuel)%nat ->
  let n := Z.to_nat keylength in
  exists evs,
    Keygen.main rand fuel [prog; arg] w =
      (Ok 0, World (net w) (trace w ++ evs)) /\
    Forall (fun ev => exists msg, ev = EvStdout msg) evs /\
    printed evs = (text_of_chars (key_of rand n) ++ nl)%string /\
    length (key_of rand n) = n /\
    Forall in_sigma (key_of rand n).
Proof.
  intros Hrand Harg Hn Hfuel n. unfold Keygen.main.
  cbn [length Nat.eqb negb nth].
  rewrite (bind_eq_Ok _ _ _ _ _ (defined_Some _ _ w Harg)).
  destruct (Z.ltb_spec keylength 1); [lia|].
  rewrite (bind_eq_Ok _ _ _ _ _
             (generate_run rand Hrand fuel 0 0 keylength w ltac:(lia))).
  rewrite Z.sub_0_r. fold n.
  set (evs := map (fun k => EvStdout (text_of_chars [code_symbol (rand k mod 27)]))
                (seq 0 n)).
  exists (evs ++ [EvStdout nl]).
  split; [cbn; rewrite <- app_assoc; reflexivity|].
  split.
  { apply Forall_app. split.
    - unfold evs. apply Forall_map, Forall_forall. intros k _. eexists.
      reflexivity.
    - apply List.Forall_cons; [eexists; reflexivity | apply List.Forall_nil]. }
  split.
  { rewrite printed_app. unfold evs.
    rewrite (printed_chars (fun k => code_symbol (rand k mod 27))).
    reflexivity. }
  split; [apply key_of_length | apply key_of_sigma].
Qed.

Lemma keygen_prints_key_witness :
  let n := Z.to_nat 5 in
  exists evs,
    Keygen.main (fun k => Z.of_nat (7 * k + 3)) 10 ["keygen"; "5"]%string
      (World tt []) =
      (Ok 0, World (net (World tt [])) (trace (World tt []) ++ evs)) /\
    Forall (fun ev => exists msg, ev = EvStdout msg) evs /\
    printed evs =
      (text_of_chars (key_of (fun k => Z.of_nat (7 * k + 3)) n) ++ nl)%string /\
    length (key_of (fun k => Z.of_nat (7 * k + 3)) n) = n /\
    Forall in_sigma (key_of (fun k => Z.of_nat (7 * k + 3)) n).
Proof.
  apply (keygen_prints_key (fun k => Z.of_nat (7 * k + 3)) 10 "keygen" "5" 5
           (World tt [])).
  - intros k. lia.
  - reflexivity.
  - lia.
  - vm_compute. lia.
Defined.

(** X21: keygen prints no key unless it is asked for one. Started with a
    program name and a number of arguments other than one, or with one
    argument for which [atoi] returns a value below 1 (a text that is not
    a number gives 0; a numeral that does not fit an [int] gives no defined
    result and is not meant here), [main] writes one message to standard
    error and calls [exit(1)]: nothing goes to standard output and
    [rand()] is not consulted. *)
Theorem keygen_rejects_bad_arguments {conn : Type} (rand : nat -> Z)
    (fuel : nat) (argv : list string) (w : world conn) :
  argv <> [] ->
  length argv <> 2%nat \/
  (exists keylength,
     atoi_arg (nth 1 argv EmptyString) = Some keylength /\ keylength < 1) ->
  exists msg,
    Keygen.main rand fuel argv w =
      (Exit 1, World (net w) (trace w ++ [EvStderr msg])) /\
    forall rand', Keygen.main rand' fuel argv w = Keygen.main rand fuel argv w.
Proof.
  intros _ Hbad. unfold Keygen.main.
  destruct (Nat.eqb_spec (length argv) 2) as [Hargc|Hargc]; cbn [negb].
  - destruct Hbad as [Hbad|(keylength & Harg & Hlt)]; [contradiction|].
    rewrite !(bind_eq_Ok _ _ _ _ _ (defined_Some _ _ w Harg)).
    destruct (Z.ltb_spec keylength 1); [|lia].
    eexists. split; [reflexivity|]. intros rand'.
    rewrite !(bind_eq_Ok _ _ _ _ _ (defined_Some _ _ w Harg)).
    destruct (Z.ltb_spec keylength 1); [reflexivity | lia].
  - eexists. split; reflexivity.
Qed.

Lemma keygen_rejects_bad_arguments_witness :
  exists msg,
    Keygen.main (fun _ => 0) 10 ["keygen"; "ten"]%string (World tt []) =
      (Exit 1,
       World (net (World tt [])) (trace (World tt []) ++ [EvStderr msg])) /\
    forall rand',
      Keygen.main rand' 10 ["keygen"; "ten"]%string (World tt []) =
      Keygen.main (fun _ => 0) 10 ["keygen"; "ten"]%string (World tt []).
Proof.
  apply (keygen_rejects_bad_arguments (fun _ => 0) 10
           ["keygen"; "ten"]%string (World tt [])).
  - discriminate.
  - right. exists 0. split; [reflexivity | lia].
Defined.

(** X22: what keygen prints is a key file for the client. When a run of
    keygen for the length [n] returns 0 and its output is stored in a
    file, [scanfile] on that file returns [n], and [readfile] with the
    length [n + 1] delivers [n] characters of the alphabet, the key that
    was printed, followed by a NUL. *)
Theorem keygen_output_is_a_key_file {conn : Type} `{Socket conn}
    {shell : Type} (rand : nat -> Z) (fuel : nat) (prog arg : string)
    (c : shell) (wk : world shell) (fuel' : nat) (e : env)
    (filename : string) (w : world conn) :
  (forall k, 0 <= rand k) ->
  Keygen.main rand fuel [prog; arg] (World c []) = (Ok 0, wk) ->
  files e filename = Some (printed (trace wk)) ->
  let n := atoi_chars (chars arg) in
  (Z.to_nat n < fuel')%nat ->
  1 <= n /\
  scanfile fuel' e filename w = (Ok n, w) /\
  readfile e filename (replicate (Z.to_nat (n + 1)) 0) (n + 1) w =
    (Ok (key_of rand (Z.to_nat n) ++ [0]), w) /\
  length (key_of rand (Z.to_nat n)) = Z.to_nat n /\
  Forall in_sigma (key_of rand (Z.to_nat n)).
Proof.
  intros Hrand Hrun Hfile n Hfuel. unfold Keygen.main in Hrun.
  cbn [length Nat.eqb negb nth] in Hrun.
  apply bind_Ok in Hrun as (keylength & w0 & Harg & Hrun).
  apply defined_Ok in Harg as [Harg ->].
  apply as_int_inv in Harg as [-> _]. fold n in Hrun.
  destruct (Z.ltb_spec n 1) as [|Hn]; [discriminate|].
  unfold bind at 1 in Hrun.
  destruct (Keygen.generate rand fuel 0 0 n (World c []))
    as [[[]| | | |] w1] eqn:Hgen; try discriminate.
  apply (generate_Ok rand Hrand) in Hgen as [_ ->].
  cbn in Hrun. injection Hrun as <-. cbn [trace] in Hfile.
  rewrite Z.sub_0_r, printed_app in Hfile.
  rewrite (printed_chars (fun k => code_symbol (rand k mod 27))) in Hfile.
  fold (key_of rand (Z.to_nat n)) in Hfile.
  set (key := key_of rand (Z.to_nat n)) in *.
  assert (Hlen : length key = Z.to_nat n) by apply key_of_length.
  assert (Hsig : Forall in_sigma key) by apply key_of_sigma.
  change (printed [EvStdout nl]) with (nl ++ EmptyString)%string in Hfile.
  assert (Hslen : String.length (text_of_chars key) = Z.to_nat n)
    by (rewrite text_of_chars_length; exact Hlen).
  split; [exact Hn|]. split; [|split; [|split; assumption]].
  - rewrite (scanfile_line fuel' e filename _ _ w Hfile
               (sigma_one_line _ Hsig) ltac:(lia)).
    rewrite Hslen, Z2Nat.id by lia. reflexivity.
  - replace (n + 1) with (Z.of_nat (String.length (text_of_chars key)) + 1)
      by lia.
    rewrite (readfile_line e filename _ _ _ w Hfile (sigma_one_line _ Hsig))
      by (rewrite length_replicate; lia).
    rewrite file_chars_text by apply sigma_ascii, Hsig. reflexivity.
Qed.

Lemma keygen_output_is_a_key_file_witness :
  let rand := fun k => Z.of_nat (7 * k + 3) in
  let wk := snd (Keygen.main rand 10 ["keygen"; "5"]%string (World tt [])) in
  let e := Env [] (fun _ => Some (printed (trace wk))) true 3 0 in
  let w := closed_after [] in
  let n := atoi_chars (chars "5") in
  1 <= n /\
  scanfile 10 e "keyfile" w = (Ok n, w) /\
  readfile e "keyfile" (replicate (Z.to_nat (n + 1)) 0) (n + 1) w =
    (Ok (key_of rand (Z.to_nat n) ++ [0]), w) /\
  length (key_of rand (Z.to_nat n)) = Z.to_nat n /\
  Forall in_sigma (key_of rand (Z.to_nat n)).
Proof.
  intros rand wk e w.
  apply (keygen_output_is_a_key_file rand 10 "keygen" "5" tt wk 10 e
           "keyfile" w).
  - intros k. unfold rand. lia.
  - vm_compute. reflexivity.
  - reflexivity.
  - vm_compute. lia.
Defined.
